(** * network-topology-viz: geometry and animation engine

    A shallow embedding of the numeric and state-machine parts of the
    widget: the spherical layout ([distributePointsOnSphere]), the
    quaternion great-circle interpolation ([getGreatCirclePoint]), the
    per-frame particle update of [TrafficFlow], the tooltip auto-cycle
    ([useTooltipAutoMovement]), link rendering in [NetworkTopology] and
    the [CameraController].

    Number model.  A JavaScript [number] is modelled by a real number:
    arithmetic is exact (no rounding, no overflow) and the two zeros are
    identified.  Where the source can divide zero by zero (the layout) the
    special values are kept, see [JsNumber].  The three.js and tween.js
    methods the source calls are transcribed from those libraries
    (three.js [Vector3]/[Quaternion], classic [slerp]; tween.js
    [Easing.Cubic.InOut] and [Tween.update]). *)

From Stdlib Require Import Reals Lra Lia List Arith String Bool.
From stdpp Require Import base option list gmap strings.

Import ListNotations.
Local Open Scope R_scope.

(* ===================================================================== *)
(** * Part I. Definitions                                                 *)
(* ===================================================================== *)

(** ** three.js [Vector3] *)

Record Vector3 : Type := mkVector3 { vx : R; vy : R; vz : R }.

Module Vec3.

(** [new THREE.Vector3(0, 1, 0)], the reference direction of the
    great-circle code. *)
Definition up : Vector3 := mkVector3 0 1 0.

Definition zero : Vector3 := mkVector3 0 0 0.

(** [a.add(b)] *)
Definition add (a b : Vector3) : Vector3 :=
  mkVector3 (vx a + vx b) (vy a + vy b) (vz a + vz b).

(** [a.sub(b)] *)
Definition sub (a b : Vector3) : Vector3 :=
  mkVector3 (vx a - vx b) (vy a - vy b) (vz a - vz b).

(** [v.multiplyScalar(s)] *)
Definition multiplyScalar (v : Vector3) (s : R) : Vector3 :=
  mkVector3 (vx v * s) (vy v * s) (vz v * s).

(** [v.divideScalar(s)] is [v.multiplyScalar(1 / s)]. *)
Definition divideScalar (v : Vector3) (s : R) : Vector3 :=
  multiplyScalar v (1 / s).

(** [a.dot(b)] *)
Definition dot (a b : Vector3) : R :=
  vx a * vx b + vy a * vy b + vz a * vz b.

(** [v.length()] *)
Definition length (v : Vector3) : R :=
  sqrt (vx v * vx v + vy v * vy v + vz v * vz v).

(** [v.normalize()] is [v.divideScalar(v.length() || 1)]: a zero length
    is falsy and replaced by 1, so the zero vector stays zero. *)
Definition normalize (v : Vector3) : Vector3 :=
  let l := length v in
  divideScalar v (if Req_dec_T l 0 then 1 else l).

(** [new Vector3().crossVectors(a, b)] *)
Definition crossVectors (a b : Vector3) : Vector3 :=
  mkVector3 (vy a * vz b - vz a * vy b)
            (vz a * vx b - vx a * vz b)
            (vx a * vy b - vy a * vx b).

(** [a.distanceTo(b)] is the square root of [distanceToSquared]. *)
Definition distanceTo (a b : Vector3) : R :=
  let dx := vx a - vx b in
  let dy := vy a - vy b in
  let dz := vz a - vz b in
  sqrt (dx * dx + dy * dy + dz * dz).

(** [v.lengthSq()] *)
Definition lengthSq (v : Vector3) : R :=
  vx v * vx v + vy v * vy v + vz v * vz v.

(** [new THREE.Vector3(...position)] for a [[number, number, number]]. *)
Definition ofTuple (p : R * R * R) : Vector3 :=
  let '(x, y, z) := p in mkVector3 x y z.

Definition toTuple (v : Vector3) : R * R * R := (vx v, vy v, vz v).

End Vec3.

(** ** three.js [Quaternion] *)

Record Quaternion : Type := mkQuaternion { qx : R; qy : R; qz : R; qw : R }.

(** [Number.EPSILON], 2^-52. *)
Definition Number_EPSILON : R := / 4503599627370496.

(** [Math.atan2(y, x)] on finite arguments. *)
Definition Math_atan2 (y x : R) : R :=
  if Rlt_dec 0 x then atan (y / x)
  else if Rlt_dec x 0 then
         (if Rle_dec 0 y then atan (y / x) + PI else atan (y / x) - PI)
  else if Rlt_dec 0 y then PI / 2
  else if Rlt_dec y 0 then - (PI / 2)
  else 0.

Module Quat.

(** [q.length()] *)
Definition length (q : Quaternion) : R :=
  sqrt (qx q * qx q + qy q * qy q + qz q * qz q + qw q * qw q).

(** [q.normalize()]: a zero quaternion becomes the identity. *)
Definition normalize (q : Quaternion) : Quaternion :=
  let l := length q in
  if Req_dec_T l 0 then mkQuaternion 0 0 0 1
  else
    let l' := 1 / l in
    mkQuaternion (qx q * l') (qy q * l') (qz q * l') (qw q * l').

(** [q.lengthSq()] *)
Definition lengthSq (q : Quaternion) : R :=
  qx q * qx q + qy q * qy q + qz q * qz q + qw q * qw q.

(** A unit quaternion, that is, a rotation. *)
Definition isUnit (q : Quaternion) : Prop := lengthSq q = 1.

(** The opposite quaternion, which is the same rotation. *)
Definition opp (q : Quaternion) : Quaternion :=
  mkQuaternion (- qx q) (- qy q) (- qz q) (- qw q).

(** [qa.dot(qb)] *)
Definition dot (qa qb : Quaternion) : R :=
  qx qa * qx qb + qy qa * qy qb + qz qa * qz qb + qw qa * qw qb.

(** [new Quaternion().setFromUnitVectors(vFrom, vTo)] *)
Definition setFromUnitVectors (vFrom vTo : Vector3) : Quaternion :=
  let r := Vec3.dot vFrom vTo + 1 in
  if Rlt_dec r Number_EPSILON then
    (* vFrom and vTo point in opposite directions *)
    if Rlt_dec (Rabs (vz vFrom)) (Rabs (vx vFrom)) then
      normalize (mkQuaternion (- vy vFrom) (vx vFrom) 0 0)
    else
      normalize (mkQuaternion 0 (- vz vFrom) (vy vFrom) 0)
  else
    normalize
      (mkQuaternion (vy vFrom * vz vTo - vz vFrom * vy vTo)
                    (vz vFrom * vx vTo - vx vFrom * vz vTo)
                    (vx vFrom * vy vTo - vy vFrom * vx vTo)
                    r).

(** [qa.slerp(qb, t)] with [this = qa]. *)
Definition slerp (qa qb : Quaternion) (t : R) : Quaternion :=
  if Req_dec_T t 0 then qa
  else if Req_dec_T t 1 then qb
  else
    let x := qx qa in
    let y := qy qa in
    let z := qz qa in
    let w := qw qa in
    let cosHalfTheta0 := w * qw qb + x * qx qb + y * qy qb + z * qz qb in
    let this :=
      if Rlt_dec cosHalfTheta0 0
      then mkQuaternion (- qx qb) (- qy qb) (- qz qb) (- qw qb)
      else qb in
    let cosHalfTheta :=
      if Rlt_dec cosHalfTheta0 0 then - cosHalfTheta0 else cosHalfTheta0 in
    if Rle_dec 1 cosHalfTheta then qa
    else
      let sqrSinHalfTheta := 1 - cosHalfTheta * cosHalfTheta in
      if Rle_dec sqrSinHalfTheta Number_EPSILON then
        let s := 1 - t in
        normalize
          (mkQuaternion (s * x + t * qx this) (s * y + t * qy this)
                        (s * z + t * qz this) (s * w + t * qw this))
      else
        let sinHalfTheta := sqrt sqrSinHalfTheta in
        let halfTheta := Math_atan2 sinHalfTheta cosHalfTheta in
        let ratioA := sin ((1 - t) * halfTheta) / sinHalfTheta in
        let ratioB := sin (t * halfTheta) / sinHalfTheta in
        mkQuaternion (x * ratioA + qx this * ratioB)
                     (y * ratioA + qy this * ratioB)
                     (z * ratioA + qz this * ratioB)
                     (w * ratioA + qw this * ratioB).

(** [new Quaternion().slerpQuaternions(qa, qb, t)] is
    [this.copy(qa).slerp(qb, t)]. *)
Definition slerpQuaternions (qa qb : Quaternion) (t : R) : Quaternion :=
  slerp qa qb t.

End Quat.

(** [v.applyQuaternion(q)] *)
Definition applyQuaternion (v : Vector3) (q : Quaternion) : Vector3 :=
  let tx := 2 * (qy q * vz v - qz q * vy v) in
  let ty := 2 * (qz q * vx v - qx q * vz v) in
  let tz := 2 * (qx q * vy v - qy q * vx v) in
  mkVector3 (vx v + qw q * tx + qy q * tz - qz q * ty)
            (vy v + qw q * ty + qz q * tx - qx q * tz)
            (vz v + qw q * tz + qx q * ty - qy q * tx).

(** ** Great-circle interpolation *)

(** [getGreatCirclePoint] of [NetworkTopology.tsx] (the copy in
    [NetworkTooltip.tsx] is the same text). *)
Module NetworkTopology.

Definition SEGMENTS_PER_CURVE : nat := 32.

Definition getGreatCirclePoint
    (start end_ : Vector3) (t radius : R) : Vector3 :=
  let startQuat := Quat.setFromUnitVectors Vec3.up (Vec3.normalize start) in
  let endQuat := Quat.setFromUnitVectors Vec3.up (Vec3.normalize end_) in
  let slerpQuat := Quat.slerpQuaternions startQuat endQuat t in
  let point := applyQuaternion Vec3.up slerpQuat in
  Vec3.multiplyScalar point radius.

(** The unit directions [d] that [setFromUnitVectors] turns the reference
    vector onto: either [d] is no closer than [Number.EPSILON] (in the
    sense [1 + d.y]) to the opposite of the reference vector, or it is
    exactly that opposite.  In between, three.js takes its
    opposite-directions branch and the rotation reaches [(0, -1, 0)]
    instead of [d]. *)
Definition reachable (d : Vector3) : Prop :=
  Number_EPSILON <= 1 + vy d \/ d = mkVector3 0 (-1) 0.

(** The sample points of [NetworkLink]:
    [for (let i = 0; i <= SEGMENTS_PER_CURVE; i++)]. *)
Definition curvePoints (start end_ : Vector3) : list Vector3 :=
  let radius := Vec3.length start in
  map (fun i : nat =>
         getGreatCirclePoint start end_
           (INR i / INR SEGMENTS_PER_CURVE) radius)
      (seq 0 (S SEGMENTS_PER_CURVE)).

End NetworkTopology.

(** ** JavaScript numbers with their special values

    Used where the source divides by a quantity that can be zero.  Finite
    values carry an exact real; [NaN] and the infinities follow IEEE 754. *)

Module JsNumber.

Inductive number : Type :=
| Fin (r : R)
| PosInf
| NegInf
| NaN.

Definition ofNat (n : nat) : number := Fin (INR n).

Definition neg (a : number) : number :=
  match a with
  | Fin r => Fin (- r)
  | PosInf => NegInf
  | NegInf => PosInf
  | NaN => NaN
  end.

(** The infinity whose sign is that of [r] times [s], for [r <> 0]. *)
Definition signedInf (positive : bool) (r : R) : number :=
  if Rlt_dec 0 r then (if positive then PosInf else NegInf)
  else (if positive then NegInf else PosInf).

Definition add (a b : number) : number :=
  match a, b with
  | NaN, _ | _, NaN => NaN
  | Fin x, Fin y => Fin (x + y)
  | PosInf, NegInf | NegInf, PosInf => NaN
  | PosInf, _ | _, PosInf => PosInf
  | NegInf, _ | _, NegInf => NegInf
  end.

Definition sub (a b : number) : number := add a (neg b).

Definition mul (a b : number) : number :=
  match a, b with
  | NaN, _ | _, NaN => NaN
  | Fin x, Fin y => Fin (x * y)
  | PosInf, Fin r | Fin r, PosInf =>
      if Req_dec_T r 0 then NaN else signedInf true r
  | NegInf, Fin r | Fin r, NegInf =>
      if Req_dec_T r 0 then NaN else signedInf false r
  | PosInf, PosInf | NegInf, NegInf => PosInf
  | PosInf, NegInf | NegInf, PosInf => NegInf
  end.

Definition div (a b : number) : number :=
  match a, b with
  | NaN, _ | _, NaN => NaN
  | Fin x, Fin y =>
      if Req_dec_T y 0 then
        (if Req_dec_T x 0 then NaN else signedInf true x)
      else Fin (x / y)
  | Fin _, (PosInf | NegInf) => Fin 0
  | PosInf, Fin r => if Rlt_dec r 0 then NegInf else PosInf
  | NegInf, Fin r => if Rlt_dec r 0 then PosInf else NegInf
  | (PosInf | NegInf), (PosInf | NegInf) => NaN
  end.

(** [Math.sqrt] *)
Definition Math_sqrt (a : number) : number :=
  match a with
  | Fin r => if Rlt_dec r 0 then NaN else Fin (sqrt r)
  | PosInf => PosInf
  | NegInf | NaN => NaN
  end.

(** [Math.cos], [Math.sin] *)
Definition Math_cos (a : number) : number :=
  match a with Fin r => Fin (cos r) | _ => NaN end.

Definition Math_sin (a : number) : number :=
  match a with Fin r => Fin (sin r) | _ => NaN end.

(** [Math.PI] *)
Definition Math_PI : number := Fin PI.

End JsNumber.

(** ** Spherical layout *)

Module Layout.
Import JsNumber.

Definition Point : Type := (number * number * number)%type.

(** [const phi = Math.PI * (3 - Math.sqrt(5))] *)
Definition phi : number := mul Math_PI (sub (Fin 3) (Math_sqrt (Fin 5))).

(** The body of the loop of [distributePointsOnSphere(count, radius)]
    at index [i]: the point that is pushed. *)
Definition body (count : nat) (radius : number) (i : nat) : Point :=
  let y := sub (Fin 1) (mul (div (ofNat i) (sub (ofNat count) (Fin 1))) (Fin 2)) in
  let radius_at_y := Math_sqrt (sub (Fin 1) (mul y y)) in
  let theta := mul phi (ofNat i) in
  let x := mul (Math_cos theta) radius_at_y in
  let z := mul (Math_sin theta) radius_at_y in
  (mul x radius, mul y radius, mul z radius).

(** [for (let i = ...; i < count; i++) points.push(...)], run for [n]
    more iterations from index [i]. *)
Fixpoint loop (count : nat) (radius : number)
    (n i : nat) (points : list Point) : list Point :=
  match n with
  | O => points
  | S n' => loop count radius n' (S i) (points ++ [body count radius i])
  end.

(** [distributePointsOnSphere] of [NetworkTopology.tsx]. *)
Definition distributePointsOnSphere
    (count : nat) (radius : number) : list Point :=
  loop count radius count 0%nat [].

(** The variant of [main.tsx] has no radius and pushes [[x, y, z]]. *)
Definition body_main (count : nat) (i : nat) : Point :=
  let y := sub (Fin 1) (mul (div (ofNat i) (sub (ofNat count) (Fin 1))) (Fin 2)) in
  let radius_at_y := Math_sqrt (sub (Fin 1) (mul y y)) in
  let theta := mul phi (ofNat i) in
  let x := mul (Math_cos theta) radius_at_y in
  let z := mul (Math_sin theta) radius_at_y in
  (x, y, z).

Fixpoint loop_main (count : nat)
    (n i : nat) (points : list Point) : list Point :=
  match n with
  | O => points
  | S n' => loop_main count n' (S i) (points ++ [body_main count i])
  end.

Definition distributePointsOnSphere_main (count : nat) : list Point :=
  loop_main count count 0%nat [].

(** Distance of a point from the origin, [NaN] when a component is. *)
Definition magnitude (p : Point) : number :=
  let '(x, y, z) := p in
  Math_sqrt (add (add (mul x x) (mul y y)) (mul z z)).

(** The formula of the specification, on reals:
    [y = 1 - 2i/(N-1)], [radius_at_y = sqrt(1 - y^2)],
    [theta = i * pi * (3 - sqrt 5)]. *)
Definition spiral_y (N i : nat) : R := 1 - 2 * INR i / (INR N - 1).
Definition spiral_radius_at_y (N i : nat) : R :=
  sqrt (1 - spiral_y N i * spiral_y N i).
Definition spiral_theta (i : nat) : R := INR i * (PI * (3 - sqrt 5)).
Definition spiral_point (N : nat) (R0 : R) (i : nat) : Point :=
  (Fin (cos (spiral_theta i) * spiral_radius_at_y N i * R0),
   Fin (spiral_y N i * R0),
   Fin (sin (spiral_theta i) * spiral_radius_at_y N i * R0)).

End Layout.


(** ** Topology data *)

Inductive Intensity : Type := low | medium | high.

Record Node : Type := mkNode {
  id : string;
  position : R * R * R
}.

Record Link : Type := mkLink {
  source : string;
  target : string;
  trafficIntensity : Intensity
}.

(** [nodes.find(n => n.id === key)] *)
Definition findNode (nodes : list Node) (key : string) : option Node :=
  List.find (fun n => String.eqb (id n) key) nodes.

(** ** Traffic particle simulator ([TrafficFlow.tsx]) *)

Module TrafficFlow.

Record IntensityParams : Type := mkIntensityParams {
  count : nat;
  speed : R;
  size : R
}.

Definition getIntensityParams (intensity : Intensity) : IntensityParams :=
  mkIntensityParams
    (match intensity with low => 20 | medium => 40 | high => 60 end)%nat
    (match intensity with low => 3 / 10 | medium => 5 / 10 | high => 7 / 10 end)
    (match intensity with low => 1 / 10 | medium => 15 / 100 | high => 2 / 10 end).

(** [getGreatCirclePoint] of [TrafficFlow.tsx]; [offset] is [null] by
    default. *)
Definition getGreatCirclePoint
    (start end_ : Vector3) (t radius : R) (offset : option Vector3) : Vector3 :=
  let startQuat := Quat.setFromUnitVectors Vec3.up (Vec3.normalize start) in
  let endQuat := Quat.setFromUnitVectors Vec3.up (Vec3.normalize end_) in
  let slerpQuat := Quat.slerpQuaternions startQuat endQuat t in
  let point := Vec3.multiplyScalar (applyQuaternion Vec3.up slerpQuat) radius in
  match offset with
  | Some offset =>
      let tangent := Vec3.normalize (Vec3.sub end_ start) in
      let perpendicular := Vec3.normalize (Vec3.crossVectors point tangent) in
      let point :=
        Vec3.add point
          (Vec3.multiplyScalar perpendicular (Vec3.length offset * (1 / 10))) in
      (* Project back onto sphere surface *)
      Vec3.multiplyScalar (Vec3.normalize point) radius
  | None => point
  end.

(** [Math.random()] is a source of numbers: its [k]-th call returns
    [random k]; the state threaded through the code is the number of calls
    made so far. *)
Definition RandomSource : Type := nat -> R.

(** [createRandomOffset(maxOffset)], the arguments of the constructor being
    evaluated left to right: the vector and the new call count. *)
Definition createRandomOffset
    (random : RandomSource) (calls : nat) (maxOffset : R) : Vector3 * nat :=
  (mkVector3 ((random calls - 1 / 2) * maxOffset)
             ((random (S calls) - 1 / 2) * maxOffset)
             ((random (S (S calls)) - 1 / 2) * maxOffset),
   S (S (S calls))).

(** The refs of one [TrafficFlow] instance.  [points] is the position
    attribute array of the mounted [<points>] object, [None] before it is
    mounted; [progress] and [offsets] are [None] until the particles memo
    has run. *)
Record Refs : Type := mkRefs {
  points : option (list R);
  lastTime : R;
  progress : option (list R);
  offsets : option (list Vector3);
  randomCalls : nat
}.

(** The arrays the loop of the frame callback works on. *)
Record Buffers : Type := mkBuffers {
  b_positions : list R;
  b_progress : list R;
  b_offsets : list Vector3;
  b_calls : nat
}.

Section Frame.

(** Stores into a [Float32Array] round to single precision
    ([Math.fround]); the rounding function is a parameter. *)
Variable fround : R -> R.
Variable random : RandomSource.

(** The props of the component. *)
Variable start end_ : R * R * R.
Variable intensity : Intensity.

Definition startVec : Vector3 := Vec3.ofTuple start.
Definition endVec : Vector3 := Vec3.ofTuple end_.
Definition sphereRadius : R := Vec3.length startVec.

(** One iteration of [for (let i = 0; i < count; i++)] in the frame
    callback.  Both arrays have [count] entries (the particles memo
    allocates them with that length), so [i] is in range; the model leaves
    the buffers alone otherwise. *)
Definition frame_body (delta : R) (i : nat) (b : Buffers) : Buffers :=
  match b_progress b !! i, b_offsets b !! i with
  | Some p, Some o =>
      (* progress.current[i] += speed * delta *)
      let p1 := fround (p + speed (getIntensityParams intensity) * delta) in
      let wrapped := Rlt_dec 1 p1 in
      (* if (progress.current[i] > 1) { progress.current[i] = 0; ... } *)
      let p2 := if wrapped then 0 else p1 in
      let fresh := createRandomOffset random (b_calls b) (1 / 2) in
      let o2 := if wrapped then fst fresh else o in
      let calls2 := if wrapped then snd fresh else b_calls b in
      let point :=
        getGreatCirclePoint startVec endVec p2 sphereRadius (Some o2) in
      let idx := (i * 3)%nat in
      mkBuffers
        (<[S (S idx) := fround (vz point)]>
           (<[S idx := fround (vy point)]>
              (<[idx := fround (vx point)]> (b_positions b))))
        (<[i := p2]> (b_progress b))
        (<[i := o2]> (b_offsets b))
        calls2
  | _, _ => b
  end.

(** [n] iterations of the loop from index [i]. *)
Fixpoint frame_loop (delta : R) (n i : nat) (b : Buffers) : Buffers :=
  match n with
  | O => b
  | S n' => frame_loop delta n' (S i) (frame_body delta i b)
  end.

(** The callback given to [useFrame], at elapsed clock time [time]. *)
Definition useFrame_callback (time : R) (s : Refs) : Refs :=
  match points s, progress s, offsets s with
  | Some positions, Some prog, Some offs =>
      let delta :=
        if Req_dec_T (lastTime s) 0 then 0 else time - lastTime s in
      let b :=
        frame_loop delta (count (getIntensityParams intensity)) 0%nat
          (mkBuffers positions prog offs (randomCalls s)) in
      mkRefs (Some (b_positions b)) time
             (Some (b_progress b)) (Some (b_offsets b)) (b_calls b)
  | _, _, _ => s
  end.

End Frame.

(** Which particles wrap in a frame with the given [delta]. *)
Definition wraps (fround : R -> R) (intensity : Intensity) (delta p : R) : bool :=
  if Rlt_dec 1 (fround (p + speed (getIntensityParams intensity) * delta))
  then true else false.

(** The number of particles among the first [i] that wrap. *)
Definition wraps_before
    (fround : R -> R) (intensity : Intensity) (delta : R)
    (prog : list R) (i : nat) : nat :=
  List.length (List.filter (wraps fround intensity delta) (firstn i prog)).

(** The value [progress[i]] holds right after
    [progress.current[i] += speed * delta]. *)
Definition advanced
    (fround : R -> R) (intensity : Intensity) (delta p : R) : R :=
  fround (p + speed (getIntensityParams intensity) * delta).

(** The [delta] of a frame at clock time [time]. *)
Definition frameDelta (s : Refs) (time : R) : R :=
  if Req_dec_T (lastTime s) 0 then 0 else time - lastTime s.

(** The buffers once the loop has dealt with the particles below [i],
    having started from [prog], [offs] and [calls] earlier calls of
    [Math.random]. *)
Record processed_upto
    (fround : R -> R) (random : RandomSource) (intensity : Intensity)
    (delta : R) (prog : list R) (offs : list Vector3) (calls : nat)
    (i : nat) (b : Buffers) : Prop := mkProcessed {
  pu_length_progress : List.length (b_progress b) = List.length prog;
  pu_length_offsets : List.length (b_offsets b) = List.length offs;
  pu_calls :
    b_calls b = (calls + 3 * wraps_before fround intensity delta prog i)%nat;
  pu_done_progress :
    forall (j : nat) (p : R),
      (j < i)%nat -> prog !! j = Some p ->
      b_progress b !! j
      = Some (if wraps fround intensity delta p then 0
              else advanced fround intensity delta p);
  pu_done_offsets :
    forall (j : nat) (p : R) (o : Vector3),
      (j < i)%nat -> prog !! j = Some p -> offs !! j = Some o ->
      b_offsets b !! j
      = Some (if wraps fround intensity delta p
              then fst (createRandomOffset random
                          (calls + 3 * wraps_before fround intensity delta prog j)
                          (1 / 2))
              else o);
  pu_todo_progress :
    forall j : nat, (i <= j)%nat -> b_progress b !! j = prog !! j;
  pu_todo_offsets :
    forall j : nat, (i <= j)%nat -> b_offsets b !! j = offs !! j
}.

End TrafficFlow.


(** ** Tooltip engine ([NetworkTooltip.tsx]) *)

(** A call either returns or throws a [TypeError] (reading a property of
    [undefined]). *)
Inductive Completion (A : Type) : Type :=
| Return (a : A)
| TypeError.
Arguments Return {A} a.
Arguments TypeError {A}.

Definition bindC {A B : Type} (c : Completion A) (k : A -> Completion B)
  : Completion B :=
  match c with
  | Return a => k a
  | TypeError => TypeError
  end.

Module NetworkTooltip.

Inductive TooltipType : Type := node | link.

Record TooltipData : Type := mkTooltipData {
  type : TooltipType;
  title : string;
  details : list string
}.

Record AutoTooltipState : Type := mkAutoTooltipState {
  tooltip_position : R * R * R;
  tooltip_targetPosition : R * R * R;
  tooltip_data : TooltipData
}.

(** The copy of [getGreatCirclePoint] in this file. *)
Definition getGreatCirclePoint
    (start end_ : Vector3) (t radius : R) : Vector3 :=
  let startQuat := Quat.setFromUnitVectors Vec3.up (Vec3.normalize start) in
  let endQuat := Quat.setFromUnitVectors Vec3.up (Vec3.normalize end_) in
  let slerpQuat := Quat.slerpQuaternions startQuat endQuat t in
  let point := applyQuaternion Vec3.up slerpQuat in
  Vec3.multiplyScalar point radius.

(** One step of the sampling loop of [findClosestPointOnGreatCircle];
    [minDistance] is [None] while it is still [Infinity]. *)
Definition closest_step
    (start end_ point : Vector3) (radius : R) (numPoints : nat)
    (acc : Vector3 * option R) (i : nat) : Vector3 * option R :=
  let t := INR i / INR numPoints in
  let pathPoint := getGreatCirclePoint start end_ t radius in
  let distance := Vec3.distanceTo point pathPoint in
  match snd acc with
  | None => (pathPoint, Some distance)
  | Some minDistance =>
      if Rlt_dec distance minDistance then (pathPoint, Some distance)
      else acc
  end.

Definition findClosestPointOnGreatCircle
    (start end_ point : Vector3) (radius : R) : Vector3 :=
  let numPoints := 32%nat in
  fst (fold_left (closest_step start end_ point radius numPoints)
                 (seq 0 (S numPoints)) (Vec3.zero, None)).

(** [ensureOutsideSphere(position, radius, offset = 1.5)] *)
Definition ensureOutsideSphere
    (position : R * R * R) (radius offset : R) : R * R * R :=
  let vec := Vec3.ofTuple position in
  let normalizedVec := Vec3.normalize vec in
  let finalVec := Vec3.multiplyScalar normalizedVec (radius * offset) in
  Vec3.toTuple finalVec.

Definition default_offset : R := 3 / 2.

(** The default of the [intervalMs] parameter. *)
Definition default_intervalMs : R := 3000.

(** The state of the hook: the [currentIndex] ref and the [tooltipData]
    state that the hook returns. *)
Record HookState : Type := mkHookState {
  currentIndex : nat;
  tooltipData : option AutoTooltipState
}.

(** After [useState(null)] and [useRef(0)]. *)
Definition initialState : HookState := mkHookState 0 None.

Definition nodeTooltip (n : Node) : AutoTooltipState :=
  let '(p0, p1, p2) := position n in
  let radius := sqrt (p0 * p0 + p1 * p1 + p2 * p2) in
  let offsetPosition := ensureOutsideSphere (position n) radius default_offset in
  mkAutoTooltipState offsetPosition (position n)
    (mkTooltipData node ("Node " +:+ id n)
       ["Status: Active"; "Uptime: 99.99%"; "Load: Normal"]%string).

Definition linkTooltip (l : Link) (sourceNode targetNode : Node)
  : AutoTooltipState :=
  let sourcePos := Vec3.ofTuple (position sourceNode) in
  let targetPos := Vec3.ofTuple (position targetNode) in
  let radius := Vec3.length sourcePos in
  let '(s0, s1, s2) := position sourceNode in
  let '(t0, t1, t2) := position targetNode in
  let midpoint := ((s0 + t0) / 2, (s1 + t1) / 2, (s2 + t2) / 2) in
  let offsetPosition := ensureOutsideSphere midpoint radius default_offset in
  let closestPoint :=
    findClosestPointOnGreatCircle sourcePos targetPos
      (Vec3.ofTuple midpoint) radius in
  mkAutoTooltipState offsetPosition (Vec3.toTuple closestPoint)
    (mkTooltipData link ("Link " +:+ source l +:+ " → " +:+ target l)
       ["Status: Online"; "Latency: low"]%string).

(** [moveTooltip].  With [totalPoints = 0] the remainder is [NaN], no
    branch of the comparison holds, [links[NaN]] is [undefined] and
    reading its [source] throws; the effect never calls it then. *)
Definition moveTooltip (nodes : list Node) (links : list Link)
    (st : HookState) : Completion HookState :=
  let totalPoints := (List.length nodes + List.length links)%nat in
  if (totalPoints =? 0)%nat then TypeError
  else
    let idx := ((currentIndex st + 1) mod totalPoints)%nat in
    if (idx <? List.length nodes)%nat then
      match nodes !! idx with
      | Some n => Return (mkHookState idx (Some (nodeTooltip n)))
      | None => TypeError
      end
    else
      let linkIndex := (idx - List.length nodes)%nat in
      match links !! linkIndex with
      | Some l =>
          match findNode nodes (source l), findNode nodes (target l) with
          | Some sourceNode, Some targetNode =>
              Return (mkHookState idx (Some (linkTooltip l sourceNode targetNode)))
          | _, _ => Return (mkHookState idx (tooltipData st))
          end
      | None => TypeError
      end.

(** [k] firings of the interval callback. *)
Fixpoint intervalTicks (nodes : list Node) (links : list Link)
    (k : nat) (st : HookState) : Completion HookState :=
  match k with
  | O => Return st
  | S k' => bindC (moveTooltip nodes links st) (intervalTicks nodes links k')
  end.

(** The effect of the hook followed by [k] firings of its interval: an
    empty topology returns before anything is scheduled, otherwise
    [moveTooltip] is called once at once and then on every firing. *)
Definition useEffect_run (nodes : list Node) (links : list Link)
    (k : nat) (st : HookState) : Completion HookState :=
  if ((List.length nodes =? 0) && (List.length links =? 0))%nat then Return st
  else intervalTicks nodes links (S k) st.

(** [setInterval(moveTooltip, intervalMs)]: the time, counted from the
    effect, of the [k]-th call of [moveTooltip] ([k = 0] is the call made
    by the effect itself). *)
Definition callTime (intervalMs : R) (k : nat) : R := INR k * intervalMs.

(** The entities in cycling order: the nodes, then the links. *)
Inductive Entity : Type :=
| ENode (n : Node)
| ELink (l : Link).

Definition entities (nodes : list Node) (links : list Link) : list Entity :=
  map ENode nodes ++ map ELink links.

(** What the tooltip shows for an entity, if anything: a link one of whose
    ends is not a node shows nothing. *)
Definition entityTooltip (nodes : list Node) (e : Entity)
  : option AutoTooltipState :=
  match e with
  | ENode n => Some (nodeTooltip n)
  | ELink l =>
      match findNode nodes (source l), findNode nodes (target l) with
      | Some s, Some t => Some (linkTooltip l s t)
      | _, _ => None
      end
  end.

(** The value of the [currentIndex] ref after the [k]-th call of
    [moveTooltip] (the call of the effect is call 0). *)
Definition indexAtCall (nodes : list Node) (links : list Link) (k : nat)
  : option nat :=
  match useEffect_run nodes links k initialState with
  | Return st => Some (currentIndex st)
  | TypeError => None
  end.

(** The entity the index designates after the [k]-th call. *)
Definition visitedAtCall (nodes : list Node) (links : list Link) (k : nat)
  : option Entity :=
  match indexAtCall nodes links k with
  | Some i => entities nodes links !! i
  | None => None
  end.

(** What the hook returns after the [k]-th call: the tooltip on display,
    [None] while nothing is shown. *)
Definition displayedAtCall (nodes : list Node) (links : list Link) (k : nat)
  : option AutoTooltipState :=
  match useEffect_run nodes links k initialState with
  | Return st => tooltipData st
  | TypeError => None
  end.

(** Every link end names a node. *)
Definition wellFormed (nodes : list Node) (links : list Link) : Prop :=
  Forall (fun l => findNode nodes (source l) <> None
                   /\ findNode nodes (target l) <> None) links.

End NetworkTooltip.


(** ** Link rendering ([NetworkTopology.tsx]) *)

Module Scene.

(** The props a rendered [NetworkLink] receives. *)
Record NetworkLinkProps : Type := mkNetworkLinkProps {
  link_start : Vector3;
  link_end : Vector3;
  link_trafficIntensity : Intensity;
  link_sourceId : string;
  link_targetId : string;
  link_isHighlighted : bool;
  link_isDarkMode : bool
}.

(** [nodeRefs]: one ref per node id,
    [new Map(networkData.nodes.map(node => [node.id, createRef()]))].
    A ref holds [null] until its node is mounted; afterwards its handle
    reports the node's centre.  [centre] gives, per id, what the handle
    reports ([None] while [current] is [null]). *)
Definition nodeRefs (centre : string -> option Vector3) (nodes : list Node)
  : gmap string (option Vector3) :=
  list_to_map (map (fun n => (id n, centre (id n))) nodes).

(** [updatePositions]: a new map with an entry for every ref whose
    [current] is set. *)
Definition updatePositions (refs : gmap string (option Vector3))
  : gmap string Vector3 :=
  omap (fun current => current) refs.

(** [useState(new Map())] *)
Definition initialNodePositions : gmap string Vector3 := ∅.

(** The element [networkData.links.map(...)] yields for one link: [None]
    is the [return null] branch. *)
Definition renderLink
    (nodePositions : gmap string Vector3)
    (hoveredLink : option (string * string)) (isDarkMode : bool)
    (l : Link) : option NetworkLinkProps :=
  match nodePositions !! source l, nodePositions !! target l with
  | Some sourcePos, Some targetPos =>
      Some (mkNetworkLinkProps sourcePos targetPos (trafficIntensity l)
              (source l) (target l)
              (match hoveredLink with
               | Some (s, t) => String.eqb s (source l) && String.eqb t (target l)
               | None => false
               end)
              isDarkMode)
  | _, _ => None
  end.

Definition renderLinks
    (nodePositions : gmap string Vector3)
    (hoveredLink : option (string * string)) (isDarkMode : bool)
    (links : list Link) : list (option NetworkLinkProps) :=
  map (renderLink nodePositions hoveredLink isDarkMode) links.

(** The nodes' positions known to the scene: the initial empty map or the
    result of a poll of the node refs. *)
Inductive polledPositions (nodes : list Node) : gmap string Vector3 -> Prop :=
| polled_initial : polledPositions nodes initialNodePositions
| polled_update (centre : string -> option Vector3) :
    polledPositions nodes (updatePositions (nodeRefs centre nodes)).

End Scene.

(** ** tween.js *)

Module TWEEN.





End TWEEN.

(** ** Camera controller ([NetworkTopology.tsx], later revision) *)

Module CameraController.


Definition distance : R := 25.
Definition heightBias : R := 10.

(** The position the camera is sent to. *)
Definition cameraPosition (targetPosition tooltipPosition : R * R * R)
  : Vector3 :=
  let targetVec := Vec3.ofTuple targetPosition in
  let tooltipVec := Vec3.ofTuple tooltipPosition in
  let midpoint := Vec3.multiplyScalar (Vec3.add targetVec tooltipVec) (1 / 2) in
  let viewDirection := Vec3.normalize midpoint in
  let cameraPosition := Vec3.multiplyScalar viewDirection (- distance) in
  mkVector3 (vx cameraPosition) (vy cameraPosition + heightBias)
            (vz cameraPosition).



(** [handleNodeClick]: the pair [(selectedTarget, selectedTooltip)] it
    sets, nothing when the id is unknown. *)
Definition handleNodeClick (nodes : list Node) (nodeId : string)
  : option ((R * R * R) * (R * R * R)) :=
  match findNode nodes nodeId with
  | None => None
  | Some n =>
      let '(p0, p1, p2) := position n in
      let radius := sqrt (p0 * p0 + p1 * p1 + p2 * p2) in
      let tooltipPosition :=
        NetworkTooltip.ensureOutsideSphere (position n) radius
          NetworkTooltip.default_offset in
      Some (position n, tooltipPosition)
  end.

(** [handleLinkClick] *)
Definition handleLinkClick (nodes : list Node) (sourceId targetId : string)
  : option ((R * R * R) * (R * R * R)) :=
  match findNode nodes sourceId, findNode nodes targetId with
  | Some sourceNode, Some targetNode =>
      let sourcePos := Vec3.ofTuple (position sourceNode) in
      let targetPos := Vec3.ofTuple (position targetNode) in
      let radius := Vec3.length sourcePos in
      let '(s0, s1, s2) := position sourceNode in
      let '(t0, t1, t2) := position targetNode in
      let midpoint := ((s0 + t0) / 2, (s1 + t1) / 2, (s2 + t2) / 2) in
      let tooltipPos :=
        NetworkTooltip.ensureOutsideSphere midpoint radius
          NetworkTooltip.default_offset in
      let closestPoint :=
        NetworkTooltip.findClosestPointOnGreatCircle sourcePos targetPos
          (Vec3.ofTuple midpoint) radius in
      Some (Vec3.toTuple closestPoint, tooltipPos)
  | _, _ => None
  end.

End CameraController.


(** ** Sample data *)

Module Sample.

Definition nodeA : Node := mkNode "A" (1, 0, 0).
Definition nodeB : Node := mkNode "B" (0, 1, 0).

(** A link between two nodes of the sample. *)
Definition linkAB : Link := mkLink "A" "B" high.

(** A link whose target is not a node of the sample. *)
Definition linkAZ : Link := mkLink "A" "Z" low.

(** A unit vector within [Number.EPSILON] of the south pole
    [(0, -1, 0)] but not equal to it: with [m = 2^-30] it is
    [(2m, -(1 - m^2), 0) / (1 + m^2)]. *)
Definition nearSouthPole : Vector3 :=
  mkVector3 (2147483648 / 1152921504606846977)
            (- (1152921504606846975 / 1152921504606846977))
            0.

(** The refs of a mounted low-intensity flow before its first frame:
    twenty particles, all at progress one half. *)
Definition flowRefs : TrafficFlow.Refs :=
  TrafficFlow.mkRefs
    (Some (replicate 60 0)) 0
    (Some (replicate 20 (1 / 2))) (Some (replicate 20 Vec3.zero)) 0.


End Sample.


(** ** Sampled curves *)

Module Samples.

(** The [i]-th point that the loop of [findClosestPointOnGreatCircle]
    looks at: the curve at [t = i / 32]. *)
Definition pathPoint (start end_ : Vector3) (radius : R) (i : nat) : Vector3 :=
  NetworkTooltip.getGreatCirclePoint start end_ (INR i / INR 32) radius.

(** All the points the loop looks at, [i = 0 .. 32]. *)
Definition pathPoints (start end_ : Vector3) (radius : R) : list Vector3 :=
  map (pathPoint start end_ radius) (seq 0 33).

End Samples.


Module Midpoint.

(** The midpoint of two positions, as computed inline wherever a link is
    given a tooltip. *)
Definition midpoint (a b : R * R * R) : R * R * R :=
  let '(a0, a1, a2) := a in
  let '(b0, b1, b2) := b in
  ((a0 + b0) / 2, (a1 + b1) / 2, (a2 + b2) / 2).

End Midpoint.


(** ** Interaction state of the topology view
    ([NetworkTopology.tsx], later revision) *)

Module Interaction.

Record NetworkData : Type := mkNetworkData {
  nodes : list Node;
  links : list Link
}.

(** [updateTrafficIntensity]: the state after
    [setNetworkData(prev => ({...prev, links: prev.links.map(...)}))]. *)
Definition updateTrafficIntensity
    (sourceId targetId : string) (intensity : Intensity)
    (prev : NetworkData) : NetworkData :=
  mkNetworkData (nodes prev)
    (map (fun link =>
            if String.eqb (source link) sourceId
               && String.eqb (target link) targetId
            then mkLink (source link) (target link) intensity
            else link)
         (links prev)).

(** Whether a [string | null] counts as true in a condition: [null] and
    the empty string do not. *)
Definition truthy (s : option string) : bool :=
  match s with
  | Some s => negb (String.eqb s "")
  | None => false
  end.

Record State : Type := mkState {
  hoveredNode : option string;
  hoveredLink : option (string * string);
  autoTooltip : bool;
  selectedTarget : option (R * R * R);
  selectedTooltip : option (R * R * R);
  lastInteraction : R
}.

(** The state after the first render. *)
Definition initial : State := mkState None None true None None 0.

(** [handleNodeHover] *)
Definition handleNodeHover (nodeId : option string) (st : State) : State :=
  if autoTooltip st then st
  else mkState nodeId None (autoTooltip st)
         (selectedTarget st) (selectedTooltip st) (lastInteraction st).

(** [handleLinkHover] *)
Definition handleLinkHover
    (sourceId : string) (targetId : option string) (st : State) : State :=
  if autoTooltip st then st
  else mkState None
         (match targetId with
          | Some t => if truthy targetId then Some (sourceId, t) else None
          | None => None
          end)
         (autoTooltip st)
         (selectedTarget st) (selectedTooltip st) (lastInteraction st).

(** [handleNodeClick] *)
Definition handleNodeClick
    (data : NetworkData) (nodeId : string) (st : State) : State :=
  match CameraController.handleNodeClick (nodes data) nodeId with
  | None => st
  | Some (targetPosition, tooltipPosition) =>
      mkState (Some nodeId) None false
        (Some targetPosition) (Some tooltipPosition) (lastInteraction st)
  end.

(** [handleLinkClick] *)
Definition handleLinkClick
    (data : NetworkData) (sourceId targetId : string) (st : State) : State :=
  match CameraController.handleLinkClick (nodes data) sourceId targetId with
  | None => st
  | Some (targetPosition, tooltipPosition) =>
      mkState None (Some (sourceId, targetId)) false
        (Some targetPosition) (Some tooltipPosition) (lastInteraction st)
  end.

(** The listeners and the timer of the inactivity effect; [now] is
    [Date.now()]. *)
Definition handleMouseMove (now : R) (st : State) : State :=
  mkState (hoveredNode st) (hoveredLink st) false
    (selectedTarget st) (selectedTooltip st) now.

Definition handleMouseLeave (now : R) (st : State) : State :=
  mkState (hoveredNode st) (hoveredLink st) (autoTooltip st)
    (selectedTarget st) (selectedTooltip st) now.

Definition checkInactivity (now : R) (st : State) : State :=
  if Rlt_dec 5000 (now - lastInteraction st)
  then mkState (hoveredNode st) (hoveredLink st) true
         (selectedTarget st) (selectedTooltip st) (lastInteraction st)
  else st.

Definition intensityName (i : Intensity) : string :=
  match i with low => "low" | medium => "medium" | high => "high" end.

(** [getHoverTooltipData] *)
Definition getHoverTooltipData (data : NetworkData) (st : State)
  : option NetworkTooltip.AutoTooltipState :=
  if truthy (hoveredNode st) then
    match hoveredNode st with
    | Some hovered =>
        match findNode (nodes data) hovered with
        | None => None
        | Some n =>
            let '(p0, p1, p2) := position n in
            let radius := sqrt (p0 * p0 + p1 * p1 + p2 * p2) in
            let offsetPosition :=
              NetworkTooltip.ensureOutsideSphere (position n) radius
                NetworkTooltip.default_offset in
            Some (NetworkTooltip.mkAutoTooltipState offsetPosition (position n)
                    (NetworkTooltip.mkTooltipData NetworkTooltip.node
                       ("Node " +:+ id n)
                       ["Status: Active"; "Uptime: 99.9%"; "Load: Normal"]%string))
        end
    | None => None
    end
  else
    match hoveredLink st with
    | Some (hs, ht) =>
        match findNode (nodes data) hs, findNode (nodes data) ht with
        | Some sourceNode, Some targetNode =>
            let sourcePos := Vec3.ofTuple (position sourceNode) in
            let radius := Vec3.length sourcePos in
            let '(s0, s1, s2) := position sourceNode in
            let '(t0, t1, t2) := position targetNode in
            let midpoint := ((s0 + t0) / 2, (s1 + t1) / 2, (s2 + t2) / 2) in
            let offsetPosition :=
              NetworkTooltip.ensureOutsideSphere midpoint radius
                NetworkTooltip.default_offset in
            let link :=
              List.find
                (fun l => String.eqb (source l) hs && String.eqb (target l) ht)
                (links data) in
            let closestPoint :=
              NetworkTooltip.findClosestPointOnGreatCircle sourcePos
                (Vec3.ofTuple (position targetNode))
                (Vec3.ofTuple midpoint) radius in
            Some (NetworkTooltip.mkAutoTooltipState offsetPosition
                    (Vec3.toTuple closestPoint)
                    (NetworkTooltip.mkTooltipData NetworkTooltip.link
                       ("Link " +:+ hs +:+ " → " +:+ ht)
                       ["Status: Connected"; "Latency: 5ms";
                        "Traffic: " +:+
                          match link with
                          | Some l => intensityName (trafficIntensity l)
                          | None => "unknown"
                          end]%string))
        | _, _ => None
        end
    | None => None
    end.

(** [const tooltipData = autoTooltip ? autoTooltipData : getHoverTooltipData()] *)
Definition tooltipData
    (data : NetworkData)
    (autoTooltipData : option NetworkTooltip.AutoTooltipState) (st : State)
  : option NetworkTooltip.AutoTooltipState :=
  if autoTooltip st then autoTooltipData else getHoverTooltipData data st.

(** What can happen to the view. *)
Inductive Event : Type :=
| NodeHover (nodeId : option string)
| LinkHover (sourceId : string) (targetId : option string)
| NodeClick (nodeId : string)
| LinkClick (sourceId targetId : string)
| MouseMove (now : R)
| MouseLeave (now : R)
| CheckInactivity (now : R).

Definition step (data : NetworkData) (st : State) (e : Event) : State :=
  match e with
  | NodeHover nodeId => handleNodeHover nodeId st
  | LinkHover s t => handleLinkHover s t st
  | NodeClick nodeId => handleNodeClick data nodeId st
  | LinkClick s t => handleLinkClick data s t st
  | MouseMove now => handleMouseMove now st
  | MouseLeave now => handleMouseLeave now st
  | CheckInactivity now => checkInactivity now st
  end.

Definition run (data : NetworkData) (events : list Event) (st : State) : State :=
  fold_left (step data) events st.

(** The events that come from pointing at or clicking on a node or a
    link, as opposed to moving the mouse over the container. *)
Definition isPointerEvent (e : Event) : bool :=
  match e with
  | NodeHover _ | LinkHover _ _ | NodeClick _ | LinkClick _ _ => true
  | _ => false
  end.

Definition isHoverEvent (e : Event) : bool :=
  match e with
  | NodeHover _ | LinkHover _ _ => true
  | _ => false
  end.

End Interaction.

(** ** Automatic rotation ([AutoRotate] of [NetworkTopology.tsx]) *)

Module AutoRotate.

(** [controls.autoRotate], the [isAutoRotating] ref and the
    [lastInteraction] ref. *)
Record State : Type := mkState {
  autoRotate : bool;
  isAutoRotating : bool;
  lastInteraction : R
}.

(** The component once mounted at time [now]: the refs hold their initial
    values and the effect has set [controls.autoRotate = true]. *)
Definition mounted (now : R) : State := mkState true true now.

(** [handleInteraction], on [mousedown], [wheel] and [touchstart]. *)
Definition handleInteraction (now : R) (st : State) : State :=
  if autoRotate st then mkState false false now
  else mkState (autoRotate st) (isAutoRotating st) now.

(** The [useFrame] callback. *)
Definition frame (now : R) (st : State) : State :=
  if negb (isAutoRotating st)
     && (if Rlt_dec 5000 (now - lastInteraction st) then true else false)
  then mkState true true (lastInteraction st)
  else st.

Inductive Event : Type :=
| Interaction (now : R)
| Frame (now : R).

Definition step (st : State) (e : Event) : State :=
  match e with
  | Interaction now => handleInteraction now st
  | Frame now => frame now st
  end.

Definition run (events : list Event) (st : State) : State :=
  fold_left step events st.

End AutoRotate.


(** ** The particles memo of [TrafficFlow.tsx] *)

Module Particles.
Import TrafficFlow.

Section Memo.

Variable fround : R -> R.
Variable random : RandomSource.
Variable start end_ : R * R * R.
Variable intensity : Intensity.

Definition count_ : nat := count (getIntensityParams intensity).

(** [new Float32Array(count)] filled with [Math.random()], from call
    number [calls] on. *)
Definition freshProgress (calls : nat) : list R :=
  map (fun i : nat => fround (random (calls + i)%nat)) (seq 0 count_).

(** [Array(count).fill(null).map(() => createRandomOffset(0.5))], from
    call number [calls] on. *)
Definition freshOffsets (calls : nat) : list Vector3 :=
  map (fun i : nat => fst (createRandomOffset random (calls + 3 * i)%nat (1 / 2)))
      (seq 0 count_).

(** [!ref.current || ref.current.length !== count] *)
Definition stale {A : Type} (ref : option (list A)) : bool :=
  match ref with
  | Some l => negb (List.length l =? count_)%nat
  | None => true
  end.

(** One iteration of the loop that fills [positions]. *)
Definition memo_body (prog : list R) (offs : list Vector3)
    (i : nat) (positions : list R) : list R :=
  match prog !! i, offs !! i with
  | Some p, Some o =>
      let point :=
        getGreatCirclePoint (startVec start) (endVec end_) p
          (sphereRadius start) (Some o) in
      <[(i * 3 + 2)%nat := fround (vz point)]>
        (<[(i * 3 + 1)%nat := fround (vy point)]>
           (<[(i * 3)%nat := fround (vx point)]> positions))
  | _, _ => positions
  end.

Fixpoint memo_loop (prog : list R) (offs : list Vector3)
    (n i : nat) (positions : list R) : list R :=
  match n with
  | O => positions
  | S n' => memo_loop prog offs n' (S i) (memo_body prog offs i positions)
  end.

(** The body of [useMemo]: the refs afterwards and the [positions] array
    of the geometry it returns. *)
Definition particles (s : Refs) : Refs * list R :=
  let prog :=
    match progress s with
    | Some p => if stale (progress s) then freshProgress (randomCalls s) else p
    | None => freshProgress (randomCalls s)
    end in
  let calls1 :=
    if stale (progress s) then (randomCalls s + count_)%nat else randomCalls s in
  let offs :=
    match offsets s with
    | Some o => if stale (offsets s) then freshOffsets calls1 else o
    | None => freshOffsets calls1
    end in
  let calls2 :=
    if stale (offsets s) then (calls1 + 3 * count_)%nat else calls1 in
  let positions :=
    memo_loop prog offs count_ 0%nat (replicate (count_ * 3) 0) in
  (mkRefs (points s) (lastTime s) (Some prog) (Some offs) calls2, positions).

(** Mounting [<points geometry={particles.geometry}>] attaches the ref to
    an object whose position array is the one the memo made. *)
Definition mount (s : Refs) : Refs :=
  let '(s', positions) := particles s in
  mkRefs (Some positions) (lastTime s') (progress s') (offsets s')
         (randomCalls s').

End Memo.

(** The position array holds the particles below [i]: three rounded
    coordinates each, of the point computed from the particle's progress
    and offset. *)
Definition written_upto
    (fround : R -> R) (start end_ : R * R * R)
    (prog : list R) (offs : list Vector3) (positions : list R) (i : nat)
  : Prop :=
  forall j : nat, (j < i)%nat ->
    exists (p : R) (o : Vector3),
      prog !! j = Some p /\ offs !! j = Some o
      /\ let point :=
           getGreatCirclePoint (startVec start) (endVec end_) p
             (sphereRadius start) (Some o) in
         positions !! (j * 3)%nat = Some (fround (vx point))
         /\ positions !! (j * 3 + 1)%nat = Some (fround (vy point))
         /\ positions !! (j * 3 + 2)%nat = Some (fround (vz point)).

End Particles.


(** ** [NetworkNode]: the floating motion *)

Module NetworkNode.

(** [Math.sin(t * 0.5) * 0.1] *)
Definition floatOffset (t : R) : R := sin (t * (1 / 2)) * (1 / 10).

(** The [useFrame] callback of a mounted node: the position it sets on
    the node's group at elapsed clock time [t]. *)
Definition framePosition (position : R * R * R) (t : R) : Vector3 :=
  let pos := Vec3.ofTuple position in
  let normalizedPos := Vec3.normalize pos in
  let '(x, y, z) := position in
  mkVector3 (x + vx normalizedPos * floatOffset t)
            (y + vy normalizedPos * floatOffset t)
            (z + vz normalizedPos * floatOffset t).

End NetworkNode.


(** ** [TrafficFlow], the revision that interpolates the chord

    An earlier revision of [TrafficFlow.tsx] computes the point of a link
    by normalising the linear interpolation of the two directions, and
    spreads the particles by adding an offset vector to it. *)

Module TrafficFlowLerp.

(** [new Vector3().lerpVectors(v1, v2, alpha)] *)
Definition lerpVectors (v1 v2 : Vector3) (alpha : R) : Vector3 :=
  mkVector3 (vx v1 + (vx v2 - vx v1) * alpha)
            (vy v1 + (vy v2 - vy v1) * alpha)
            (vz v1 + (vz v2 - vz v1) * alpha).

(** [getGreatCirclePoint]; the source also computes
    [startNorm.angleTo(endNorm)], which changes nothing and whose result
    is not used. *)
Definition getGreatCirclePoint
    (start end_ : Vector3) (t radius : R) : Vector3 :=
  let startNorm := Vec3.normalize start in
  let endNorm := Vec3.normalize end_ in
  let point := lerpVectors startNorm endNorm t in
  Vec3.multiplyScalar (Vec3.normalize point) radius.

(** [createRandomOffset(start, end, maxOffset)]: four calls of
    [Math.random()], in the order of evaluation. *)
Definition createRandomOffset
    (random : TrafficFlow.RandomSource) (calls : nat)
    (start end_ : Vector3) (maxOffset : R) : Vector3 * nat :=
  let direction := Vec3.normalize (Vec3.sub end_ start) in
  let perpVector :=
    Vec3.normalize
      (mkVector3 (random calls - 1 / 2)
                 (random (S calls) - 1 / 2)
                 (random (S (S calls)) - 1 / 2)) in
  let perpVector := Vec3.crossVectors perpVector direction in
  (Vec3.multiplyScalar perpVector
     (maxOffset * (random (S (S (S calls))) - 1 / 2)),
   S (S (S (S calls)))).

(** The position written for a particle: the base point plus the
    particle's offset, projected back onto the sphere. *)
Definition offsetPoint
    (start end_ : Vector3) (t sphereRadius : R) (offset : Vector3) : Vector3 :=
  let basePoint := getGreatCirclePoint start end_ t sphereRadius in
  let offsetPoint := Vec3.add basePoint offset in
  Vec3.multiplyScalar (Vec3.normalize offsetPoint) sphereRadius.

End TrafficFlowLerp.


(** ** [TrafficFlow], the revision with parabolic paths

    The first revision of [TrafficFlow.tsx] moves each particle along a
    quadratic Bezier curve from [start] to [end] whose control point is
    drawn at random near the midpoint of the chord. *)

Module TrafficFlowBezier.

(** [createRandomControlPoint(start, end)]: six calls of [Math.random()],
    in the order of evaluation; the control point and the new call
    count. *)
Definition createRandomControlPoint
    (random : TrafficFlow.RandomSource) (calls : nat)
    (start end_ : R * R * R) : Vector3 * nat :=
  let '(sx, sy, sz) := start in
  let '(ex, ey, ez) := end_ in
  let midPoint :=
    mkVector3 ((sx + ex) / 2) ((sy + ey) / 2) ((sz + ez) / 2) in
  let direction := Vec3.normalize (mkVector3 (ex - sx) (ey - sy) (ez - sz)) in
  let perpVector :=
    Vec3.normalize
      (mkVector3 (random calls - 1 / 2)
                 (random (S calls) - 1 / 2)
                 (random (S (S calls)) - 1 / 2)) in
  let perpVector := Vec3.crossVectors perpVector direction in
  let randomOffset := 2 in
  (mkVector3
     (vx midPoint
      + vx perpVector * randomOffset * (random (3 + calls)%nat - 1 / 2) * 2)
     (vy midPoint
      + vy perpVector * randomOffset * (random (4 + calls)%nat - 1 / 2) * 2)
     (vz midPoint
      + vz perpVector * randomOffset * (random (5 + calls)%nat - 1 / 2) * 2),
   (6 + calls)%nat).

(** [getQuadraticBezierPoint(start, control, end, t)] *)
Definition getQuadraticBezierPoint
    (start control end_ : Vector3) (t : R) : Vector3 :=
  mkVector3
    ((1 - t) ^ 2 * vx start + 2 * (1 - t) * t * vx control + t ^ 2 * vx end_)
    ((1 - t) ^ 2 * vy start + 2 * (1 - t) * t * vy control + t ^ 2 * vy end_)
    ((1 - t) ^ 2 * vz start + 2 * (1 - t) * t * vz control + t ^ 2 * vz end_).

End TrafficFlowBezier.


(** ** The global API: [window.nettopology.init] and auto-initialisation

    The entry script defines [nettopology.init], wraps it so that a call
    from the page is remembered, initialises by itself when the document
    is already parsed and otherwise waits for [DOMContentLoaded]. *)

Module Main.

Inductive ReadyState : Type := loading | interactive | complete.

(** [NetworkConfig]; an absent field is [None]. *)
Record NetworkConfig : Type := mkNetworkConfig {
  cfg_data : option Interaction.NetworkData;
  cfg_isDarkMode : option bool;
  cfg_showControlPanel : option bool
}.

(** The default argument [{}] of [init]. *)
Definition emptyConfig : NetworkConfig := mkNetworkConfig None None None.

(** The props of a rendered [<NetworkTopology>]. *)
Record Props : Type := mkProps {
  props_data : Interaction.NetworkData;
  props_isDarkMode : option bool;
  props_showControlPanel : option bool
}.

(** The document and the script's variables: whether an element with id
    [nettopology] exists, the two flags set by the wrapped [init], whether
    the [DOMContentLoaded] listener has been added, the calls of
    [ReactDOM.createRoot(container).render(...)] made so far (oldest
    first) and the number of calls of [console.error]. *)
Record State : Type := mkState {
  readyState : ReadyState;
  hasContainer : bool;
  manualInitCalled : bool;
  window_manualInitCalled : bool;
  listening : bool;
  rendered : list Props;
  errors : nat
}.

Section Script.

Variable defaultData : Interaction.NetworkData.

(** [config.data || defaultData] and the two flags handed on. *)
Definition propsOf (config : NetworkConfig) : Props :=
  mkProps (match cfg_data config with Some d => d | None => defaultData end)
          (cfg_isDarkMode config) (cfg_showControlPanel config).

(** [nettopology.init(config)] *)
Definition init (config : NetworkConfig) (s : State) : State :=
  if hasContainer s then
    mkState (readyState s) (hasContainer s) (manualInitCalled s)
      (window_manualInitCalled s) (listening s)
      (rendered s ++ [propsOf config]) (errors s)
  else
    mkState (readyState s) (hasContainer s) (manualInitCalled s)
      (window_manualInitCalled s) (listening s)
      (rendered s) (S (errors s)).

(** [wrappedNettopology.init(config)], what the page calls as
    [window.nettopology.init]. *)
Definition wrappedInit (config : NetworkConfig) (s : State) : State :=
  init config
    (mkState (readyState s) (hasContainer s) true true (listening s)
       (rendered s) (errors s)).

(** The document as the script finds it. *)
Definition fresh (rs : ReadyState) (container : bool) : State :=
  mkState rs container false false false [] 0.

(** The top level of the script. *)
Definition load (s : State) : State :=
  let s := mkState (readyState s) (hasContainer s) false
             (window_manualInitCalled s) (listening s)
             (rendered s) (errors s) in
  match readyState s with
  | complete | interactive =>
      if negb (manualInitCalled s) then init emptyConfig s else s
  | loading =>
      mkState (readyState s) (hasContainer s) (manualInitCalled s)
        (window_manualInitCalled s) true (rendered s) (errors s)
  end.

(** The listener added for [DOMContentLoaded]. *)
Definition onDOMContentLoaded (s : State) : State :=
  if negb (manualInitCalled s) && negb (window_manualInitCalled s)
  then init emptyConfig s
  else s.

(** What happens after the script has run: the page calls
    [window.nettopology.init(config)] ([None]: without argument), the
    document finishes parsing and fires [DOMContentLoaded], or the
    element with id [nettopology] appears or disappears. *)
Inductive Event : Type :=
  | ManualInit (config : option NetworkConfig)
  | DOMContentLoaded
  | SetContainer (present : bool).

Definition step (s : State) (e : Event) : State :=
  match e with
  | ManualInit config =>
      wrappedInit (match config with Some c => c | None => emptyConfig end) s
  | DOMContentLoaded =>
      let s := mkState interactive (hasContainer s) (manualInitCalled s)
                 (window_manualInitCalled s) (listening s)
                 (rendered s) (errors s) in
      if listening s then onDOMContentLoaded s else s
  | SetContainer present =>
      mkState (readyState s) present (manualInitCalled s)
        (window_manualInitCalled s) (listening s) (rendered s) (errors s)
  end.

Definition run (s : State) (events : list Event) : State :=
  fold_left step events s.

Definition isManualInit (e : Event) : bool :=
  match e with ManualInit _ => true | _ => false end.

End Script.

End Main.


(* ===================================================================== *)
(** * Part II. Properties                                                 *)
(* ===================================================================== *)

(** ** Tooltip auto-cycle *)

Section TooltipFacts.
Import NetworkTooltip.

Context (nodes : list Node) (links : list Link).

Let total : nat := (List.length nodes + List.length links)%nat.

Lemma length_entities : List.length (entities nodes links) = total.
Proof.
  unfold entities, total.
  rewrite List.length_app, !List.length_map. reflexivity.
Qed.

Lemma entities_lookup_node (i : nat) (n : Node) :
  nodes !! i = Some n -> entities nodes links !! i = Some (ENode n).
Proof.
  intros H. unfold entities.
  rewrite lookup_app_l.
  - rewrite list_lookup_fmap, H. reflexivity.
  - rewrite length_fmap. eapply lookup_lt_Some; eauto.
Qed.

Lemma entities_lookup_link (j : nat) (l : Link) :
  links !! j = Some l ->
  entities nodes links !! (List.length nodes + j)%nat = Some (ELink l).
Proof.
  intros H. unfold entities.
  rewrite lookup_app_r by (rewrite length_fmap; lia).
  rewrite length_fmap.
  replace (List.length nodes + j - List.length nodes)%nat with j by lia.
  rewrite list_lookup_fmap, H. reflexivity.
Qed.

(** One call of [moveTooltip] on a non-empty topology returns normally,
    moves the index one step round the circle and shows the tooltip of the
    entity it lands on, if that entity has one. *)
Lemma moveTooltip_step (st : HookState) :
  (0 < total)%nat ->
  exists e,
    entities nodes links !! ((currentIndex st + 1) mod total)%nat = Some e
    /\ moveTooltip nodes links st =
       Return (mkHookState ((currentIndex st + 1) mod total)%nat
                 (match entityTooltip nodes e with
                  | Some t => Some t
                  | None => tooltipData st
                  end)).
Proof.
  intros Hpos. unfold moveTooltip. fold total.
  destruct (Nat.eqb_spec total 0) as [E|_]; [lia|].
  set (idx := ((currentIndex st + 1) mod total)%nat).
  assert (Hidx : (idx < total)%nat) by (apply Nat.mod_upper_bound; lia).
  destruct (Nat.ltb_spec idx (List.length nodes)) as [Hlt|Hge].
  - destruct (lookup_lt_is_Some_2 nodes idx Hlt) as [n Hn].
    exists (ENode n). rewrite Hn. split.
    + apply entities_lookup_node; assumption.
    + reflexivity.
  - assert (Hj : (idx - List.length nodes < List.length links)%nat)
      by (unfold total in Hidx; lia).
    destruct (lookup_lt_is_Some_2 links _ Hj) as [l Hl].
    exists (ELink l). rewrite Hl. split.
    + replace idx with (List.length nodes + (idx - List.length nodes))%nat
        at 1 by lia.
      apply entities_lookup_link; assumption.
    + simpl. destruct (findNode nodes (source l)), (findNode nodes (target l));
        reflexivity.
Qed.

Lemma moveTooltip_index (st : HookState) :
  (0 < total)%nat ->
  exists st',
    moveTooltip nodes links st = Return st'
    /\ currentIndex st' = ((currentIndex st + 1) mod total)%nat.
Proof.
  intros Hpos. destruct (moveTooltip_step st Hpos) as (e & _ & ->).
  eexists; split; reflexivity.
Qed.

(** [k >= 1] calls never throw and leave the index at
    [(currentIndex + k) mod total]. *)
Lemma intervalTicks_index (k : nat) (st : HookState) :
  (0 < total)%nat ->
  exists st',
    intervalTicks nodes links (S k) st = Return st'
    /\ currentIndex st' = ((currentIndex st + S k) mod total)%nat.
Proof.
  intros Hpos. revert st. induction k as [|k IH]; intros st.
  - destruct (moveTooltip_index st Hpos) as (st' & E & Hi).
    exists st'. simpl. rewrite E. simpl. split; [reflexivity|exact Hi].
  - destruct (moveTooltip_index st Hpos) as (st1 & E & Hi).
    destruct (IH st1) as (st' & E' & Hi').
    exists st'. split.
    + change (intervalTicks nodes links (S (S k)) st)
        with (bindC (moveTooltip nodes links st)
                (intervalTicks nodes links (S k))).
      rewrite E. exact E'.
    + rewrite Hi', Hi.
      rewrite Nat.Div0.add_mod_idemp_l. f_equal. lia.
Qed.

Lemma useEffect_run_nonempty (k : nat) (st : HookState) :
  (0 < total)%nat ->
  useEffect_run nodes links k st = intervalTicks nodes links (S k) st.
Proof.
  intros Hpos. unfold useEffect_run, total in *.
  destruct (Nat.eqb_spec (List.length nodes) 0),
           (Nat.eqb_spec (List.length links) 0); simpl; try reflexivity; lia.
Qed.

Lemma indexAtCall_eq (k : nat) :
  (0 < total)%nat ->
  indexAtCall nodes links k = Some ((k + 1) mod total)%nat.
Proof.
  intros Hpos. unfold indexAtCall.
  rewrite useEffect_run_nonempty by assumption.
  destruct (intervalTicks_index k initialState Hpos) as (st' & -> & Hi).
  rewrite Hi. simpl. do 2 f_equal. lia.
Qed.

Lemma visitedAtCall_eq (k : nat) :
  (0 < total)%nat ->
  visitedAtCall nodes links k = entities nodes links !! ((k + 1) mod total)%nat.
Proof.
  intros Hpos. unfold visitedAtCall. rewrite indexAtCall_eq by assumption.
  reflexivity.
Qed.

End TooltipFacts.

Section TooltipCycle.
Import NetworkTooltip.

Context (nodes : list Node) (links : list Link).

Let total : nat := (List.length nodes + List.length links)%nat.

Lemma intervalTicks_S (k : nat) (st : HookState) :
  intervalTicks nodes links (S k) st =
  bindC (moveTooltip nodes links st) (intervalTicks nodes links k).
Proof. reflexivity. Qed.

Lemma intervalTicks_snoc (k : nat) (st : HookState) :
  intervalTicks nodes links (S k) st =
  bindC (intervalTicks nodes links k st) (moveTooltip nodes links).
Proof.
  revert st. induction k as [|k IH]; intros st.
  - simpl. destruct (moveTooltip nodes links st); reflexivity.
  - rewrite (intervalTicks_S (S k)), (intervalTicks_S k).
    destruct (moveTooltip nodes links st) as [st1|] eqn:E.
    + unfold bindC at 1 3. apply IH.
    + reflexivity.
Qed.

(** Any number of calls returns normally on a non-empty topology. *)
Lemma intervalTicks_returns (k : nat) (st : HookState) :
  (0 < total)%nat ->
  exists st',
    intervalTicks nodes links k st = Return st'
    /\ ((currentIndex st' + 1) mod total =
        (currentIndex st + k + 1) mod total)%nat.
Proof.
  intros Hpos. destruct k as [|k].
  - exists st. split; [reflexivity|]. f_equal. lia.
  - destruct (intervalTicks_index nodes links k st Hpos) as (st' & E & Hi).
    exists st'. split; [exact E|].
    fold total in Hi. rewrite Hi.
    now rewrite Nat.Div0.add_mod_idemp_l.
Qed.

(** The tooltip on display after call [k] is that of the entity visited
    by call [k] whenever that entity has one. *)
Lemma displayedAtCall_visited (k : nat) (e : Entity) (t : AutoTooltipState) :
  (0 < total)%nat ->
  visitedAtCall nodes links k = Some e ->
  entityTooltip nodes e = Some t ->
  displayedAtCall nodes links k = Some t.
Proof.
  intros Hpos Hv Ht.
  rewrite visitedAtCall_eq in Hv by assumption. fold total in Hv.
  unfold displayedAtCall.
  rewrite useEffect_run_nonempty by assumption.
  rewrite intervalTicks_snoc.
  destruct (intervalTicks_returns k initialState Hpos) as (st' & -> & Hi).
  simpl in Hi. simpl bindC.
  destruct (moveTooltip_step nodes links st' Hpos) as (e' & He' & ->).
  fold total in He'. rewrite Hi in He'.
  replace (k + 1)%nat with (0 + k + 1)%nat in Hv by lia.
  simpl in He'. simpl in Hv.
  replace (k + 1)%nat with (S k) in * by lia.
  assert (e' = e) by congruence. subst e'.
  rewrite Ht. reflexivity.
Qed.

(** A call landing on a link that has no tooltip leaves the display as it
    was. *)
Lemma displayedAtCall_skipped (k : nat) (e : Entity) :
  (0 < total)%nat ->
  visitedAtCall nodes links (S k) = Some e ->
  entityTooltip nodes e = None ->
  displayedAtCall nodes links (S k) = displayedAtCall nodes links k.
Proof.
  intros Hpos Hv Ht.
  rewrite visitedAtCall_eq in Hv by assumption. fold total in Hv.
  unfold displayedAtCall.
  rewrite !useEffect_run_nonempty by assumption.
  rewrite (intervalTicks_snoc (S k)).
  destruct (intervalTicks_returns (S k) initialState Hpos) as (st' & -> & Hi).
  simpl in Hi. simpl bindC.
  destruct (moveTooltip_step nodes links st' Hpos) as (e' & He' & ->).
  fold total in He'. rewrite Hi in He'.
  replace (S k + 1)%nat with (S (k + 1)) in Hv by lia.
  assert (e' = e) by congruence. subst e'.
  rewrite Ht. reflexivity.
Qed.

Lemma rotate_nat_add_mod (n i len : nat) :
  rotate_nat_add n i len = ((n + i) mod len)%nat.
Proof.
  unfold rotate_nat_add.
  rewrite <- Nat2Z.inj_add, <- Nat2Z.inj_mod, Nat2Z.id. reflexivity.
Qed.

(** The entities visited by [total] consecutive calls, from call [j] on,
    are the concatenated sequence rotated by [j + 1]. *)
Lemma visited_window (j : nat) :
  (0 < total)%nat ->
  map (visitedAtCall nodes links) (seq j total) =
  map Some (rotate (j + 1) (entities nodes links)).
Proof.
  intros Hpos. apply list_eq. intros i.
  rewrite !list_lookup_fmap.
  destruct (Nat.lt_ge_cases i total) as [Hi|Hi].
  - rewrite lookup_seq_lt by assumption. simpl.
    rewrite visitedAtCall_eq by assumption. fold total.
    rewrite lookup_rotate_r by (rewrite length_entities; exact Hi).
    rewrite rotate_nat_add_mod, length_entities. fold total.
    replace (j + i + 1)%nat with (j + 1 + i)%nat by lia.
    destruct (entities nodes links !! ((j + 1 + i) mod total)%nat) eqn:E.
    + reflexivity.
    + exfalso. apply lookup_ge_None in E. rewrite length_entities in E.
      fold total in E.
      pose proof (Nat.mod_upper_bound (j + 1 + i) total). lia.
  - rewrite lookup_seq_ge by assumption.
    rewrite (lookup_ge_None_2 (rotate (j + 1) (entities nodes links)))
      by (rewrite length_rotate, length_entities; exact Hi).
    reflexivity.
Qed.

Lemma rotate_Permutation {A : Type} (n : nat) (l : list A) :
  Permutation (rotate n l) l.
Proof.
  unfold rotate.
  etransitivity; [apply Permutation_app_comm|].
  rewrite take_drop. reflexivity.
Qed.

End TooltipCycle.

(** In a well-formed topology every entity has a tooltip. *)
Lemma wellFormed_entityTooltip
    (nodes : list Node) (links : list Link) (e : NetworkTooltip.Entity) :
  NetworkTooltip.wellFormed nodes links ->
  e ∈ NetworkTooltip.entities nodes links ->
  is_Some (NetworkTooltip.entityTooltip nodes e).
Proof.
  intros Hwf He. destruct e as [n|l]; simpl.
  - eexists. reflexivity.
  - unfold NetworkTooltip.entities in He.
    apply elem_of_app in He. destruct He as [He|He].
    + apply list_elem_of_fmap in He. destruct He as (n & Hn & _).
      discriminate Hn.
    + apply list_elem_of_fmap in He. destruct He as (l' & Hl & Hin).
      injection Hl as <-.
      unfold NetworkTooltip.wellFormed in Hwf.
      rewrite List.Forall_forall in Hwf.
      destruct (Hwf l) as [Hs Ht]; [apply list_elem_of_In; exact Hin|].
      destruct (findNode nodes (source l)); [|contradiction].
      destruct (findNode nodes (target l)); [|contradiction].
      eexists. reflexivity.
Qed.

(** C4.  On a non-empty topology the auto-cycle moves a circular index
    over the nodes followed by the links, one entity per call and one call
    every 3000 ms: no call throws, call [k] is made at [3000 * k] ms and
    leaves the index at [(k + 1) mod total]; the call after the one that
    lands on the last link lands on index 0; any [total] consecutive calls
    visit the concatenated sequence rotated, hence every node and every
    link exactly once and always in the same order; and what is shown
    after a call is the tooltip of the entity visited, when it has one,
    which is always the case when every link end names a node. *)
Theorem tooltip_auto_cycle_period (nodes : list Node) (links : list Link) :
  (0 < List.length nodes + List.length links)%nat ->
  let total := (List.length nodes + List.length links)%nat in
  let all := NetworkTooltip.entities nodes links in
  (forall k : nat,
      NetworkTooltip.callTime NetworkTooltip.default_intervalMs k
      = INR k * 3000
      /\ NetworkTooltip.indexAtCall nodes links k = Some ((k + 1) mod total)%nat
      /\ NetworkTooltip.visitedAtCall nodes links k
         = all !! ((k + 1) mod total)%nat
      /\ is_Some (NetworkTooltip.visitedAtCall nodes links k))
  /\ (forall k : nat,
         NetworkTooltip.indexAtCall nodes links k = Some (total - 1)%nat ->
         NetworkTooltip.indexAtCall nodes links (S k) = Some 0%nat)
  /\ (forall j : nat,
         map (NetworkTooltip.visitedAtCall nodes links) (seq j total)
         = map Some (rotate (j + 1) all)
         /\ Permutation (rotate (j + 1) all) all)
  /\ (forall k : nat,
         NetworkTooltip.visitedAtCall nodes links (k + total)
         = NetworkTooltip.visitedAtCall nodes links k)
  /\ (forall (k : nat) (e : NetworkTooltip.Entity)
             (t : NetworkTooltip.AutoTooltipState),
         NetworkTooltip.visitedAtCall nodes links k = Some e ->
         NetworkTooltip.entityTooltip nodes e = Some t ->
         NetworkTooltip.displayedAtCall nodes links k = Some t)
  /\ (NetworkTooltip.wellFormed nodes links ->
      forall k : nat,
      exists (e : NetworkTooltip.Entity) (t : NetworkTooltip.AutoTooltipState),
        NetworkTooltip.visitedAtCall nodes links k = Some e
        /\ NetworkTooltip.entityTooltip nodes e = Some t
        /\ NetworkTooltip.displayedAtCall nodes links k = Some t).
Proof.
  intros Hpos total all.
  assert (Hidx : forall k,
             NetworkTooltip.indexAtCall nodes links k
             = Some ((k + 1) mod total)%nat)
    by (intros k; apply indexAtCall_eq; exact Hpos).
  assert (Hvis : forall k,
             NetworkTooltip.visitedAtCall nodes links k
             = all !! ((k + 1) mod total)%nat)
    by (intros k; apply visitedAtCall_eq; exact Hpos).
  assert (Hsome : forall k,
             is_Some (NetworkTooltip.visitedAtCall nodes links k)).
  { intros k. rewrite Hvis. apply lookup_lt_is_Some_2.
    unfold all. rewrite length_entities.
    apply Nat.mod_upper_bound. fold total. lia. }
  split; [|split; [|split; [|split; [|split]]]].
  - intros k. split; [|split; [|split]].
    + unfold NetworkTooltip.callTime, NetworkTooltip.default_intervalMs.
      reflexivity.
    + apply Hidx.
    + apply Hvis.
    + apply Hsome.
  - intros k Hk. rewrite Hidx in Hk. rewrite Hidx.
    injection Hk as Hk. f_equal.
    replace (S k + 1)%nat with ((k + 1) + 1)%nat by lia.
    rewrite <- Nat.Div0.add_mod_idemp_l, Hk.
    replace (total - 1 + 1)%nat with total by (unfold total; lia).
    apply Nat.Div0.mod_same.
  - intros j. split.
    + apply visited_window. exact Hpos.
    + apply rotate_Permutation.
  - intros k. rewrite !Hvis. f_equal.
    replace (k + total + 1)%nat with (k + 1 + 1 * total)%nat by lia.
    apply Nat.Div0.mod_add.
  - intros k e t. apply displayedAtCall_visited. exact Hpos.
  - intros Hwf k.
    destruct (Hsome k) as [e He].
    assert (Hin : e ∈ all).
    { rewrite Hvis in He. eapply list_elem_of_lookup_2. exact He. }
    destruct (wellFormed_entityTooltip nodes links e Hwf Hin) as [t Ht].
    exists e, t. split; [exact He|]. split; [exact Ht|].
    apply (displayedAtCall_visited nodes links k e t Hpos He Ht).
Qed.

(** ** Links that name unknown nodes *)

Lemma findNode_unknown (nodes : list Node) (key : string) :
  key ∉ map id nodes -> findNode nodes key = None.
Proof.
  induction nodes as [|n nodes IH]; intros Hnot.
  - reflexivity.
  - unfold findNode. simpl.
    destruct (String.eqb_spec (id n) key) as [E|NE].
    + exfalso. apply Hnot. simpl. rewrite E. apply list_elem_of_here.
    + apply IH. intros Hin. apply Hnot. simpl.
      apply list_elem_of_further. exact Hin.
Qed.

Lemma findNode_Some_id (nodes : list Node) (key : string) (n : Node) :
  findNode nodes key = Some n -> id n = key /\ n ∈ nodes.
Proof.
  unfold findNode. intros H.
  destruct (List.find_some _ _ H) as [Hin Heq].
  split.
  - apply String.eqb_eq. exact Heq.
  - apply list_elem_of_In. exact Hin.
Qed.

Lemma nodeRefs_unknown
    (centre : string -> option Vector3) (nodes : list Node) (key : string) :
  key ∉ map id nodes -> Scene.nodeRefs centre nodes !! key = None.
Proof.
  intros Hnot. unfold Scene.nodeRefs.
  apply not_elem_of_list_to_map_1.
  intros Hin. apply Hnot.
  rewrite <- list_fmap_compose in Hin. exact Hin.
Qed.

Lemma updatePositions_unknown
    (centre : string -> option Vector3) (nodes : list Node) (key : string) :
  key ∉ map id nodes ->
  Scene.updatePositions (Scene.nodeRefs centre nodes) !! key = None.
Proof.
  intros Hnot. unfold Scene.updatePositions.
  rewrite lookup_omap, nodeRefs_unknown by exact Hnot. reflexivity.
Qed.

Lemma polledPositions_unknown
    (nodes : list Node) (m : gmap string Vector3) (key : string) :
  Scene.polledPositions nodes m -> key ∉ map id nodes -> m !! key = None.
Proof.
  intros [|centre] Hnot.
  - apply lookup_empty.
  - apply updatePositions_unknown. exact Hnot.
Qed.

(** C4, at a topology of two nodes and one link: the third call lands on
    the first node again. *)
Lemma tooltip_auto_cycle_period_witness :
  (0 < List.length [Sample.nodeA; Sample.nodeB]
       + List.length [Sample.linkAB])%nat
  /\ NetworkTooltip.visitedAtCall
       [Sample.nodeA; Sample.nodeB] [Sample.linkAB] 2
     = Some (NetworkTooltip.ENode Sample.nodeA).
Proof.
  assert (H : (0 < List.length [Sample.nodeA; Sample.nodeB]
                   + List.length [Sample.linkAB])%nat) by (simpl; lia).
  split; [exact H|].
  destruct (tooltip_auto_cycle_period _ _ H) as [H1 _].
  destruct (H1 2%nat) as (_ & _ & Hv & _).
  rewrite Hv. reflexivity.
Defined.

(** C6.  A link whose source or target id is the id of no node is passed
    over silently.  It is not rendered: whatever positions the scene has
    polled, [renderLink] takes its [return null] branch.  The tooltip call
    that lands on it returns normally, without throwing, and leaves the
    tooltip on display as it was; and the cycle goes on: any number of
    further calls return normally, the index advancing as usual. *)
Theorem unknown_node_link_skipped
    (nodes : list Node) (links : list Link) (j : nat) (l : Link) :
  links !! j = Some l ->
  source l ∉ map id nodes \/ target l ∉ map id nodes ->
  let total := (List.length nodes + List.length links)%nat in
  (forall (m : gmap string Vector3) (hovered : option (string * string))
          (dark : bool),
      Scene.polledPositions nodes m ->
      Scene.renderLink m hovered dark l = None
      /\ Scene.renderLinks m hovered dark links !! j = Some None)
  /\ (forall st : NetworkTooltip.HookState,
         ((NetworkTooltip.currentIndex st + 1) mod total
          = List.length nodes + j)%nat ->
         NetworkTooltip.moveTooltip nodes links st
         = Return (NetworkTooltip.mkHookState (List.length nodes + j)
                     (NetworkTooltip.tooltipData st)))
  /\ (forall (k : nat) (st : NetworkTooltip.HookState),
         exists st' : NetworkTooltip.HookState,
           NetworkTooltip.intervalTicks nodes links (S k) st = Return st'
           /\ NetworkTooltip.currentIndex st'
              = ((NetworkTooltip.currentIndex st + S k) mod total)%nat).
Proof.
  intros Hl Hunknown total.
  assert (Hj : (j < List.length links)%nat)
    by (eapply lookup_lt_Some; exact Hl).
  assert (Hpos : (0 < total)%nat) by (unfold total; lia).
  split; [|split].
  - intros m hovered dark Hm.
    assert (Hr : Scene.renderLink m hovered dark l = None).
    { unfold Scene.renderLink.
      destruct Hunknown as [Hs|Ht].
      - rewrite (polledPositions_unknown nodes m _ Hm Hs). reflexivity.
      - rewrite (polledPositions_unknown nodes m _ Hm Ht).
        destruct (m !! source l); reflexivity. }
    split; [exact Hr|].
    unfold Scene.renderLinks. rewrite list_lookup_fmap, Hl. simpl.
    rewrite Hr. reflexivity.
  - intros st Hidx. unfold NetworkTooltip.moveTooltip. fold total.
    destruct (Nat.eqb_spec total 0) as [E|_]; [lia|].
    rewrite Hidx.
    destruct (Nat.ltb_spec (List.length nodes + j) (List.length nodes))
      as [Hlt|_]; [lia|].
    replace (List.length nodes + j - List.length nodes)%nat with j by lia.
    rewrite Hl.
    destruct Hunknown as [Hs|Ht].
    + rewrite (findNode_unknown _ _ Hs). reflexivity.
    + rewrite (findNode_unknown _ _ Ht).
      destruct (findNode nodes (source l)); reflexivity.
  - intros k st. apply intervalTicks_index. exact Hpos.
Qed.

(** C6, at one node and one link to an unknown id. *)
Lemma unknown_node_link_skipped_witness :
  NetworkTooltip.moveTooltip [Sample.nodeA] [Sample.linkAZ]
    NetworkTooltip.initialState
  = Return (NetworkTooltip.mkHookState 1 None).
Proof.
  assert (Hl : [Sample.linkAZ] !! 0%nat = Some Sample.linkAZ) by reflexivity.
  assert (Hu : source Sample.linkAZ ∉ map id [Sample.nodeA]
               \/ target Sample.linkAZ ∉ map id [Sample.nodeA]).
  { right. simpl. intros Hin. apply list_elem_of_singleton in Hin.
    discriminate Hin. }
  destruct (unknown_node_link_skipped [Sample.nodeA] [Sample.linkAZ]
              0%nat Sample.linkAZ Hl Hu) as (_ & H2 & _).
  apply (H2 NetworkTooltip.initialState). reflexivity.
Defined.

(** ** The first tooltip *)

(** C10 as stated fails: with one node and one link to an unknown id
    there are two entities, the call of the effect lands on the link and
    shows nothing, and the first tooltip ever shown, after the next call,
    is that of the entity at index 0, the first node. *)
Lemma first_tooltip_not_second_entity :
  (2 <= List.length [Sample.nodeA] + List.length [Sample.linkAZ])%nat
  /\ NetworkTooltip.entities [Sample.nodeA] [Sample.linkAZ] !! 1%nat
     = Some (NetworkTooltip.ELink Sample.linkAZ)
  /\ NetworkTooltip.displayedAtCall [Sample.nodeA] [Sample.linkAZ] 0 = None
  /\ NetworkTooltip.visitedAtCall [Sample.nodeA] [Sample.linkAZ] 1
     = NetworkTooltip.entities [Sample.nodeA] [Sample.linkAZ] !! 0%nat
  /\ NetworkTooltip.displayedAtCall [Sample.nodeA] [Sample.linkAZ] 1
     = Some (NetworkTooltip.nodeTooltip Sample.nodeA).
Proof.
  split; [simpl; lia|].
  split; [reflexivity|].
  split; [reflexivity|].
  split; reflexivity.
Qed.

(** C10, amended.  With at least two entities the call made by the effect
    itself moves the index to 1, so the first tooltip shown is that of the
    second entity whenever that entity has a tooltip (it is a node, or a
    link both of whose ends are nodes); the index is not 0 after any of
    the first [total - 1] calls and is 0 after the [total]-th, which is
    when the first node is shown. *)
Theorem first_tooltip_is_second_entity
    (nodes : list Node) (links : list Link) :
  (2 <= List.length nodes + List.length links)%nat ->
  let total := (List.length nodes + List.length links)%nat in
  NetworkTooltip.indexAtCall nodes links 0 = Some 1%nat
  /\ (forall (e : NetworkTooltip.Entity) (t : NetworkTooltip.AutoTooltipState),
         NetworkTooltip.entities nodes links !! 1%nat = Some e ->
         NetworkTooltip.entityTooltip nodes e = Some t ->
         NetworkTooltip.displayedAtCall nodes links 0 = Some t)
  /\ (forall k : nat,
         (k < total - 1)%nat ->
         NetworkTooltip.indexAtCall nodes links k <> Some 0%nat)
  /\ NetworkTooltip.indexAtCall nodes links (total - 1) = Some 0%nat
  /\ (forall n : Node,
         nodes !! 0%nat = Some n ->
         NetworkTooltip.displayedAtCall nodes links (total - 1)
         = Some (NetworkTooltip.nodeTooltip n)).
Proof.
  intros Htwo total.
  assert (Hpos : (0 < List.length nodes + List.length links)%nat) by lia.
  assert (Hidx : forall k,
             NetworkTooltip.indexAtCall nodes links k
             = Some ((k + 1) mod total)%nat)
    by (intros k; apply indexAtCall_eq; exact Hpos).
  assert (Hlast : ((total - 1 + 1) mod total = 0)%nat).
  { replace (total - 1 + 1)%nat with total by (unfold total; lia).
    apply Nat.Div0.mod_same. }
  split; [|split; [|split; [|split]]].
  - rewrite Hidx. simpl. rewrite Nat.mod_small by (unfold total; lia).
    reflexivity.
  - intros e t He Ht.
    apply (displayedAtCall_visited nodes links 0 e t Hpos); [|exact Ht].
    rewrite visitedAtCall_eq by exact Hpos. simpl.
    fold total. rewrite Nat.mod_small by (unfold total; lia). exact He.
  - intros k Hk. rewrite Hidx. intros H. injection H as H.
    rewrite Nat.mod_small in H by lia. lia.
  - rewrite Hidx, Hlast. reflexivity.
  - intros n Hn.
    apply (displayedAtCall_visited nodes links (total - 1)
             (NetworkTooltip.ENode n) _ Hpos); [|reflexivity].
    rewrite visitedAtCall_eq by exact Hpos. fold total. rewrite Hlast.
    apply entities_lookup_node. exact Hn.
Qed.

(** C10 amended, at two nodes and one link: the first tooltip is that of
    the second node. *)
Lemma first_tooltip_is_second_entity_witness :
  NetworkTooltip.displayedAtCall
    [Sample.nodeA; Sample.nodeB] [Sample.linkAB] 0
  = Some (NetworkTooltip.nodeTooltip Sample.nodeB).
Proof.
  assert (H : (2 <= List.length [Sample.nodeA; Sample.nodeB]
                    + List.length [Sample.linkAB])%nat) by (simpl; lia).
  destruct (first_tooltip_is_second_entity _ _ H) as (_ & H2 & _).
  apply (H2 (NetworkTooltip.ENode Sample.nodeB)); reflexivity.
Defined.

(** ** Particle update *)

Section ParticleUpdate.
Import TrafficFlow.

Context (fround : R -> R) (random : RandomSource).
Context (start end_ : R * R * R) (intensity : Intensity).
Context (delta : R) (prog : list R) (offs : list Vector3) (calls : nat).

Hypothesis same_length : List.length prog = List.length offs.

Lemma wraps_before_S (i : nat) (p : R) :
  prog !! i = Some p ->
  wraps_before fround intensity delta prog (S i)
  = (wraps_before fround intensity delta prog i
     + (if wraps fround intensity delta p then 1 else 0))%nat.
Proof.
  intros Hp. unfold wraps_before.
  change (firstn (S i) prog) with (take (S i) prog).
  rewrite (take_S_r _ _ _ Hp), List.filter_app, List.length_app. simpl.
  destruct (wraps fround intensity delta p); reflexivity.
Qed.

Lemma processed_start (positions : list R) :
  processed_upto fround random intensity delta prog offs calls 0
    (mkBuffers positions prog offs calls).
Proof.
  constructor; simpl; try reflexivity.
  - unfold wraps_before. simpl. lia.
  - intros j p Hj. lia.
  - intros j p o Hj. lia.
Qed.

Lemma frame_body_step (i : nat) (b : Buffers) :
  (i < List.length prog)%nat ->
  processed_upto fround random intensity delta prog offs calls i b ->
  processed_upto fround random intensity delta prog offs calls (S i)
    (frame_body fround random start end_ intensity delta i b).
Proof.
  intros Hi [Hlp Hlo Hc Hdp Hdo Htp Hto].
  destruct (lookup_lt_is_Some_2 prog i Hi) as [p Hp].
  assert (Hi' : (i < List.length offs)%nat) by lia.
  destruct (lookup_lt_is_Some_2 offs i Hi') as [o Ho].
  unfold frame_body.
  rewrite (Htp i (Nat.le_refl i)), (Hto i (Nat.le_refl i)), Hp, Ho.
  assert (Hw : wraps fround intensity delta p
               = if Rlt_dec 1 (fround (p + speed (getIntensityParams intensity) * delta))
                 then true else false) by reflexivity.
  constructor; simpl.
  - rewrite length_insert. exact Hlp.
  - rewrite length_insert. exact Hlo.
  - rewrite (wraps_before_S i p Hp), Hw, Hc.
    destruct (Rlt_dec 1 _); simpl; lia.
  - intros j q Hj Hq.
    destruct (Nat.eq_dec j i) as [->|Hne].
    + rewrite list_lookup_insert_eq by lia.
      rewrite Hp in Hq. injection Hq as <-.
      rewrite Hw. unfold advanced.
      destruct (Rlt_dec 1 _); reflexivity.
    + rewrite list_lookup_insert_ne by congruence.
      apply Hdp; [lia|exact Hq].
  - intros j q r Hj Hq Hr.
    destruct (Nat.eq_dec j i) as [->|Hne].
    + rewrite list_lookup_insert_eq by lia.
      rewrite Hp in Hq. injection Hq as <-.
      rewrite Ho in Hr. injection Hr as <-.
      rewrite Hw, Hc.
      destruct (Rlt_dec 1 _); reflexivity.
    + rewrite list_lookup_insert_ne by congruence.
      apply Hdo; [lia|exact Hq|exact Hr].
  - intros j Hj. rewrite list_lookup_insert_ne by lia. apply Htp. lia.
  - intros j Hj. rewrite list_lookup_insert_ne by lia. apply Hto. lia.
Qed.

Lemma frame_loop_processed (n i : nat) (b : Buffers) :
  (i + n <= List.length prog)%nat ->
  processed_upto fround random intensity delta prog offs calls i b ->
  processed_upto fround random intensity delta prog offs calls (i + n)
    (frame_loop fround random start end_ intensity delta n i b).
Proof.
  revert i b. induction n as [|n IH]; intros i b Hle Hb.
  - rewrite Nat.add_0_r. exact Hb.
  - simpl. replace (i + S n)%nat with (S i + n)%nat by lia.
    apply IH; [lia|].
    apply frame_body_step; [lia|exact Hb].
Qed.

End ParticleUpdate.



(** ** Vectors and quaternions *)

Lemma Vector3_eq (a b : Vector3) :
  vx a = vx b -> vy a = vy b -> vz a = vz b -> a = b.
Proof. destruct a, b; simpl; intros -> -> ->; reflexivity. Qed.

Lemma Quaternion_eq (a b : Quaternion) :
  qx a = qx b -> qy a = qy b -> qz a = qz b -> qw a = qw b -> a = b.
Proof. destruct a, b; simpl; intros -> -> -> ->; reflexivity. Qed.

Lemma Vec3_lengthSq_nonneg (v : Vector3) : 0 <= Vec3.lengthSq v.
Proof. unfold Vec3.lengthSq. nra. Qed.

Lemma Vec3_length_sqrt (v : Vector3) :
  Vec3.length v = sqrt (Vec3.lengthSq v).
Proof. reflexivity. Qed.

Lemma Vec3_length_nonneg (v : Vector3) : 0 <= Vec3.length v.
Proof. apply sqrt_pos. Qed.

Lemma Vec3_length_sq (v : Vector3) :
  Vec3.length v * Vec3.length v = Vec3.lengthSq v.
Proof. apply sqrt_sqrt, Vec3_lengthSq_nonneg. Qed.

Lemma Vec3_length_of_sq (v : Vector3) (r : R) :
  0 <= r -> Vec3.lengthSq v = r * r -> Vec3.length v = r.
Proof.
  intros Hr H. rewrite Vec3_length_sqrt, H. apply sqrt_square, Hr.
Qed.

Lemma Vec3_length_zero_iff (v : Vector3) :
  Vec3.length v = 0 <-> v = Vec3.zero.
Proof.
  split.
  - intros H. pose proof (Vec3_length_sq v) as Hs. rewrite H in Hs.
    unfold Vec3.lengthSq in Hs. destruct v as [x y z]. simpl in Hs.
    apply Vector3_eq; simpl; nra.
  - intros ->. unfold Vec3.length, Vec3.zero. simpl.
    replace (0 * 0 + 0 * 0 + 0 * 0) with 0 by ring. apply sqrt_0.
Qed.

(** A non-zero vector is normalised by dividing by its length. *)
Lemma Vec3_normalize_nonzero (v : Vector3) :
  Vec3.length v <> 0 ->
  Vec3.normalize v = Vec3.multiplyScalar v (1 / Vec3.length v).
Proof.
  intros H. unfold Vec3.normalize, Vec3.divideScalar.
  destruct (Req_dec_T (Vec3.length v) 0); [contradiction|reflexivity].
Qed.

Lemma Vec3_normalize_zero : Vec3.normalize Vec3.zero = Vec3.zero.
Proof.
  unfold Vec3.normalize, Vec3.divideScalar, Vec3.multiplyScalar.
  apply Vector3_eq; simpl; ring.
Qed.

Lemma Vec3_lengthSq_multiplyScalar (v : Vector3) (s : R) :
  Vec3.lengthSq (Vec3.multiplyScalar v s) = s * s * Vec3.lengthSq v.
Proof. unfold Vec3.lengthSq, Vec3.multiplyScalar. simpl. ring. Qed.

Lemma Vec3_length_multiplyScalar (v : Vector3) (s : R) :
  Vec3.length (Vec3.multiplyScalar v s) = Rabs s * Vec3.length v.
Proof.
  rewrite !Vec3_length_sqrt, Vec3_lengthSq_multiplyScalar.
  rewrite sqrt_mult by (try apply Vec3_lengthSq_nonneg; nra).
  f_equal. fold (Rsqr s). apply sqrt_Rsqr_abs.
Qed.

(** The normalised form of a non-zero vector has length 1. *)
Lemma Vec3_normalize_lengthSq (v : Vector3) :
  v <> Vec3.zero -> Vec3.lengthSq (Vec3.normalize v) = 1.
Proof.
  intros Hv.
  assert (Hl : Vec3.length v <> 0)
    by (intros H; apply Hv, Vec3_length_zero_iff, H).
  rewrite Vec3_normalize_nonzero, Vec3_lengthSq_multiplyScalar by exact Hl.
  rewrite <- Vec3_length_sq. field. exact Hl.
Qed.

Lemma Vec3_normalize_length (v : Vector3) :
  v <> Vec3.zero -> Vec3.length (Vec3.normalize v) = 1.
Proof.
  intros Hv. apply Vec3_length_of_sq; [lra|].
  rewrite Vec3_normalize_lengthSq by exact Hv. ring.
Qed.

(** Scaling the normalised form of a vector by its length gives the
    vector back. *)
Lemma Vec3_normalize_scale (v : Vector3) :
  Vec3.multiplyScalar (Vec3.normalize v) (Vec3.length v) = v.
Proof.
  destruct (Req_dec_T (Vec3.length v) 0) as [E|NE].
  - apply Vec3_length_zero_iff in E. subst v.
    rewrite Vec3_normalize_zero. apply Vector3_eq; simpl; ring.
  - rewrite Vec3_normalize_nonzero by exact NE.
    apply Vector3_eq; simpl; field; exact NE.
Qed.

Lemma Quat_lengthSq_nonneg (q : Quaternion) : 0 <= Quat.lengthSq q.
Proof. unfold Quat.lengthSq. nra. Qed.

Lemma Quat_length_sq (q : Quaternion) :
  Quat.length q * Quat.length q = Quat.lengthSq q.
Proof. apply sqrt_sqrt, Quat_lengthSq_nonneg. Qed.

(** [normalize] always yields a unit quaternion. *)
Lemma Quat_normalize_isUnit (q : Quaternion) :
  Quat.isUnit (Quat.normalize q).
Proof.
  unfold Quat.isUnit, Quat.normalize.
  destruct (Req_dec_T (Quat.length q) 0) as [E|NE].
  - unfold Quat.lengthSq. simpl. ring.
  - unfold Quat.lengthSq. simpl.
    pose proof (Quat_length_sq q) as Hs. unfold Quat.lengthSq in Hs.
    set (l := Quat.length q) in *.
    replace (qx q * (1 / l) * (qx q * (1 / l)) + qy q * (1 / l) * (qy q * (1 / l))
             + qz q * (1 / l) * (qz q * (1 / l)) + qw q * (1 / l) * (qw q * (1 / l)))
      with ((qx q * qx q + qy q * qy q + qz q * qz q + qw q * qw q) / (l * l))
      by (field; exact NE).
    rewrite <- Hs. field. exact NE.
Qed.

Lemma Quat_normalize_of_unit (q : Quaternion) :
  Quat.isUnit q -> Quat.normalize q = q.
Proof.
  unfold Quat.isUnit. intros Hu.
  assert (Hl : Quat.length q = 1).
  { unfold Quat.length. fold (Quat.lengthSq q). rewrite Hu. apply sqrt_1. }
  unfold Quat.normalize. rewrite Hl.
  destruct (Req_dec_T 1 0) as [E|_]; [lra|].
  apply Quaternion_eq; simpl; field.
Qed.

Lemma setFromUnitVectors_isUnit (a b : Vector3) :
  Quat.isUnit (Quat.setFromUnitVectors a b).
Proof.
  unfold Quat.setFromUnitVectors.
  destruct (Rlt_dec _ _); [destruct (Rlt_dec _ _)|];
    apply Quat_normalize_isUnit.
Qed.

(** Rotating the reference vector by a unit quaternion gives a unit
    vector. *)
Lemma applyQuaternion_up_lengthSq (q : Quaternion) :
  Quat.isUnit q -> Vec3.lengthSq (applyQuaternion Vec3.up q) = 1.
Proof.
  unfold Quat.isUnit, Quat.lengthSq, Vec3.lengthSq, applyQuaternion, Vec3.up.
  destruct q as [x y z w]. simpl. intros Hu.
  assert (Hw : w * w = 1 - x * x - y * y - z * z) by lra.
  replace ((0 + w * (2 * (y * 0 - z * 1)) + y * (2 * (x * 1 - y * 0))
            - z * (2 * (z * 0 - x * 0)))
           * (0 + w * (2 * (y * 0 - z * 1)) + y * (2 * (x * 1 - y * 0))
              - z * (2 * (z * 0 - x * 0)))
           + (1 + w * (2 * (z * 0 - x * 0)) + z * (2 * (y * 0 - z * 1))
              - x * (2 * (x * 1 - y * 0)))
             * (1 + w * (2 * (z * 0 - x * 0)) + z * (2 * (y * 0 - z * 1))
                - x * (2 * (x * 1 - y * 0)))
           + (0 + w * (2 * (x * 1 - y * 0)) + x * (2 * (z * 0 - x * 0))
              - y * (2 * (y * 0 - z * 1)))
             * (0 + w * (2 * (x * 1 - y * 0)) + x * (2 * (z * 0 - x * 0))
                - y * (2 * (y * 0 - z * 1))))
    with (1 + 4 * (x * x + z * z) * (w * w + x * x + y * y + z * z - 1))
    by ring.
  rewrite Hw. ring.
Qed.

(** A quaternion and its opposite rotate alike. *)
Lemma applyQuaternion_opp (v : Vector3) (q : Quaternion) :
  applyQuaternion v (Quat.opp q) = applyQuaternion v q.
Proof.
  unfold applyQuaternion, Quat.opp. apply Vector3_eq; simpl; ring.
Qed.


(** ** Spherical interpolation *)

Lemma sin_cos_sq (a : R) : sin a * sin a + cos a * cos a = 1.
Proof. pose proof (sin2_cos2 a) as H. unfold Rsqr in H. exact H. Qed.

(** The identity behind slerp: the two weights, taken with the cosine of
    the whole angle, give a unit combination. *)
Lemma slerp_weights (a b : R) :
  sin a * sin a + sin b * sin b + 2 * sin a * sin b * cos (a + b)
  = sin (a + b) * sin (a + b).
Proof.
  rewrite cos_plus, sin_plus.
  pose proof (sin_cos_sq a) as Ha. pose proof (sin_cos_sq b) as Hb.
  assert (Ea : cos a * cos a = 1 - sin a * sin a) by lra.
  assert (Eb : cos b * cos b = 1 - sin b * sin b) by lra.
  replace ((sin a * cos b + cos a * sin b) * (sin a * cos b + cos a * sin b))
    with (sin a * sin a * (cos b * cos b) + (cos a * cos a) * (sin b * sin b)
          + 2 * sin a * sin b * (cos a * cos b)) by ring.
  rewrite Ea, Eb. ring.
Qed.

(** [Math.atan2] recovers the angle of a point of the unit circle in the
    upper right quadrant. *)
Lemma Math_atan2_unit_circle (s c : R) :
  0 < s -> 0 <= c -> s * s + c * c = 1 ->
  sin (Math_atan2 s c) = s /\ cos (Math_atan2 s c) = c.
Proof.
  intros Hs Hc Hu. unfold Math_atan2.
  destruct (Rlt_dec 0 c) as [Hpos|Hnpos].
  - assert (Hroot : sqrt (1 + (s / c)²) = / c).
    { apply sqrt_lem_1.
      - unfold Rsqr. assert (0 <= (s / c) * (s / c)) by nra. lra.
      - left. apply Rinv_0_lt_compat. exact Hpos.
      - unfold Rsqr.
        replace (1 + s / c * (s / c)) with ((s * s + c * c) / (c * c))
          by (field; lra).
        rewrite Hu. field. lra. }
    rewrite sin_atan, cos_atan, Hroot. split; field; lra.
  - assert (c = 0) by lra. subst c.
    destruct (Rlt_dec 0 0) as [F|_]; [lra|].
    destruct (Rlt_dec 0 s) as [_|F]; [|contradiction].
    rewrite sin_PI2, cos_PI2. split; [nra|reflexivity].
Qed.

Lemma Quat_opp_isUnit (q : Quaternion) :
  Quat.isUnit q -> Quat.isUnit (Quat.opp q).
Proof.
  unfold Quat.isUnit, Quat.lengthSq, Quat.opp. simpl. intros H. lra.
Qed.

(** The combination slerp forms in its general branch is a unit
    quaternion. *)
Lemma slerp_combination_isUnit (qa qb : Quaternion) (t theta : R) :
  Quat.isUnit qa -> Quat.isUnit qb ->
  sin theta <> 0 ->
  Quat.dot qa qb = cos theta ->
  let ratioA := sin ((1 - t) * theta) / sin theta in
  let ratioB := sin (t * theta) / sin theta in
  Quat.isUnit
    (mkQuaternion (qx qa * ratioA + qx qb * ratioB)
                  (qy qa * ratioA + qy qb * ratioB)
                  (qz qa * ratioA + qz qb * ratioB)
                  (qw qa * ratioA + qw qb * ratioB)).
Proof.
  intros Ha Hb Hsin Hdot ratioA ratioB.
  unfold Quat.isUnit, Quat.lengthSq, Quat.dot in *. simpl.
  replace ((qx qa * ratioA + qx qb * ratioB) * (qx qa * ratioA + qx qb * ratioB)
           + (qy qa * ratioA + qy qb * ratioB) * (qy qa * ratioA + qy qb * ratioB)
           + (qz qa * ratioA + qz qb * ratioB) * (qz qa * ratioA + qz qb * ratioB)
           + (qw qa * ratioA + qw qb * ratioB) * (qw qa * ratioA + qw qb * ratioB))
    with (ratioA * ratioA
            * (qx qa * qx qa + qy qa * qy qa + qz qa * qz qa + qw qa * qw qa)
          + ratioB * ratioB
            * (qx qb * qx qb + qy qb * qy qb + qz qb * qz qb + qw qb * qw qb)
          + 2 * ratioA * ratioB
            * (qx qa * qx qb + qy qa * qy qb + qz qa * qz qb + qw qa * qw qb))
    by ring.
  rewrite Ha, Hb, Hdot.
  pose proof (slerp_weights ((1 - t) * theta) (t * theta)) as Hw.
  replace ((1 - t) * theta + t * theta) with theta in Hw by ring.
  unfold ratioA, ratioB.
  replace (sin ((1 - t) * theta) / sin theta
           * (sin ((1 - t) * theta) / sin theta) * 1
           + sin (t * theta) / sin theta * (sin (t * theta) / sin theta) * 1
           + 2 * (sin ((1 - t) * theta) / sin theta)
             * (sin (t * theta) / sin theta) * cos theta)
    with ((sin ((1 - t) * theta) * sin ((1 - t) * theta)
           + sin (t * theta) * sin (t * theta)
           + 2 * sin ((1 - t) * theta) * sin (t * theta) * cos theta)
          / (sin theta * sin theta))
    by (field; exact Hsin).
  rewrite Hw. field. exact Hsin.
Qed.

(** Slerp of unit quaternions is a unit quaternion, for every [t]. *)
Lemma slerp_isUnit (qa qb : Quaternion) (t : R) :
  Quat.isUnit qa -> Quat.isUnit qb -> Quat.isUnit (Quat.slerp qa qb t).
Proof.
  intros Ha Hb. unfold Quat.slerp.
  destruct (Req_dec_T t 0); [exact Ha|].
  destruct (Req_dec_T t 1); [exact Hb|].
  set (c0 := qw qa * qw qb + qx qa * qx qb + qy qa * qy qb + qz qa * qz qb).
  set (this := if Rlt_dec c0 0
               then mkQuaternion (- qx qb) (- qy qb) (- qz qb) (- qw qb)
               else qb).
  set (c := if Rlt_dec c0 0 then - c0 else c0).
  assert (Hthis : Quat.isUnit this).
  { unfold this. destruct (Rlt_dec c0 0); [|exact Hb].
    apply (Quat_opp_isUnit qb Hb). }
  assert (Hdot : Quat.dot qa this = c).
  { unfold this, c, Quat.dot, c0. destruct (Rlt_dec _ 0); simpl; ring. }
  assert (Hc0 : 0 <= c).
  { unfold c. destruct (Rlt_dec c0 0); lra. }
  destruct (Rle_dec 1 c) as [|Hc1]; [exact Ha|].
  destruct (Rle_dec (1 - c * c) Number_EPSILON) as [|Hbig].
  - apply Quat_normalize_isUnit.
  - assert (Heps : 0 < Number_EPSILON).
    { unfold Number_EPSILON. apply Rinv_0_lt_compat. lra. }
    assert (Hs2 : 0 < 1 - c * c) by lra.
    pose proof (sqrt_lt_R0 _ Hs2) as Hs.
    pose proof (sqrt_sqrt (1 - c * c) (Rlt_le _ _ Hs2)) as Hss.
    destruct (Math_atan2_unit_circle (sqrt (1 - c * c)) c Hs Hc0) as [Hsin Hcos];
      [lra|].
    set (theta := Math_atan2 (sqrt (1 - c * c)) c) in *.
    rewrite <- Hsin.
    apply (slerp_combination_isUnit qa this t theta Ha Hthis).
    + rewrite Hsin. lra.
    + rewrite Hcos. exact Hdot.
Qed.

(** ** Points of the great circle lie on the sphere *)

Lemma Vec3_normalize_scalar (v : Vector3) :
  exists k : R, Vec3.normalize v = Vec3.multiplyScalar v k.
Proof.
  unfold Vec3.normalize, Vec3.divideScalar. eexists. reflexivity.
Qed.

Lemma crossVectors_normalize_orthogonal (a b : Vector3) :
  Vec3.dot a (Vec3.normalize (Vec3.crossVectors a b)) = 0.
Proof.
  destruct (Vec3_normalize_scalar (Vec3.crossVectors a b)) as [k ->].
  unfold Vec3.dot, Vec3.multiplyScalar, Vec3.crossVectors. simpl. ring.
Qed.

Lemma Vec3_lengthSq_add_scaled (p q : Vector3) (c : R) :
  Vec3.lengthSq (Vec3.add p (Vec3.multiplyScalar q c))
  = Vec3.lengthSq p + 2 * c * Vec3.dot p q + c * c * Vec3.lengthSq q.
Proof.
  unfold Vec3.lengthSq, Vec3.add, Vec3.multiplyScalar, Vec3.dot. simpl. ring.
Qed.

(** Before any offset the point is the rotated reference vector scaled by
    the radius. *)
Lemma slerp_point_lengthSq (start end_ : Vector3) (t radius : R) :
  Vec3.lengthSq
    (Vec3.multiplyScalar
       (applyQuaternion Vec3.up
          (Quat.slerpQuaternions
             (Quat.setFromUnitVectors Vec3.up (Vec3.normalize start))
             (Quat.setFromUnitVectors Vec3.up (Vec3.normalize end_)) t))
       radius)
  = radius * radius.
Proof.
  rewrite Vec3_lengthSq_multiplyScalar, applyQuaternion_up_lengthSq.
  - ring.
  - apply slerp_isUnit; apply setFromUnitVectors_isUnit.
Qed.

Lemma TrafficFlow_point_without_offset (start end_ : Vector3) (t radius : R) :
  TrafficFlow.getGreatCirclePoint start end_ t radius None
  = NetworkTopology.getGreatCirclePoint start end_ t radius.
Proof. reflexivity. Qed.

Lemma NetworkTooltip_point_same (start end_ : Vector3) (t radius : R) :
  NetworkTooltip.getGreatCirclePoint start end_ t radius
  = NetworkTopology.getGreatCirclePoint start end_ t radius.
Proof. reflexivity. Qed.

(** C5.  For every [t] in [[0, 1]] and every radius [R > 0] the point
    returned by the great-circle evaluation has magnitude [R], whatever
    the two end points; this holds without an offset and also with one,
    the displaced point being normalised and scaled by [R] again.  The
    copies of the function in [NetworkTopology.tsx] and
    [NetworkTooltip.tsx] are the case without offset. *)
Theorem great_circle_point_on_sphere
    (start end_ : Vector3) (t radius : R) (offset : option Vector3) :
  0 <= t <= 1 -> 0 < radius ->
  Vec3.length (TrafficFlow.getGreatCirclePoint start end_ t radius offset)
  = radius
  /\ Vec3.length (NetworkTopology.getGreatCirclePoint start end_ t radius)
     = radius
  /\ Vec3.length (NetworkTooltip.getGreatCirclePoint start end_ t radius)
     = radius.
Proof.
  intros _ Hr.
  assert (Hplain :
            Vec3.length (NetworkTopology.getGreatCirclePoint start end_ t radius)
            = radius).
  { apply Vec3_length_of_sq; [lra|].
    unfold NetworkTopology.getGreatCirclePoint.
    apply slerp_point_lengthSq. }
  split; [|split; [exact Hplain|exact Hplain]].
  destruct offset as [offset|]; [|exact Hplain].
  unfold TrafficFlow.getGreatCirclePoint.
  set (point := Vec3.multiplyScalar (applyQuaternion Vec3.up _) radius).
  set (tangent := Vec3.normalize (Vec3.sub end_ start)).
  set (perpendicular := Vec3.normalize (Vec3.crossVectors point tangent)).
  set (c := Vec3.length offset * (1 / 10)).
  set (moved := Vec3.add point (Vec3.multiplyScalar perpendicular c)).
  assert (Hpoint : Vec3.lengthSq point = radius * radius)
    by apply slerp_point_lengthSq.
  assert (Hmoved : moved <> Vec3.zero).
  { intros E.
    assert (Hsq : Vec3.lengthSq moved = 0)
      by (rewrite E; unfold Vec3.lengthSq, Vec3.zero; simpl; ring).
    unfold moved in Hsq.
    rewrite Vec3_lengthSq_add_scaled, Hpoint in Hsq.
    unfold perpendicular in Hsq at 1.
    rewrite crossVectors_normalize_orthogonal in Hsq.
    pose proof (Vec3_lengthSq_nonneg perpendicular).
    assert (0 <= c * c) by nra.
    assert (0 <= c * c * Vec3.lengthSq perpendicular) by nra.
    nra. }
  rewrite Vec3_length_multiplyScalar, Vec3_normalize_length by exact Hmoved.
  rewrite Rabs_pos_eq by lra. ring.
Qed.

(** The sample points of a rendered link lie on the sphere through the
    link's start. *)
Lemma curvePoints_on_sphere (start end_ p : Vector3) :
  p ∈ NetworkTopology.curvePoints start end_ ->
  Vec3.length p = Vec3.length start.
Proof.
  intros Hp. unfold NetworkTopology.curvePoints in Hp.
  apply list_elem_of_fmap in Hp. destruct Hp as (i & -> & _).
  apply Vec3_length_of_sq; [apply Vec3_length_nonneg|].
  unfold NetworkTopology.getGreatCirclePoint.
  apply slerp_point_lengthSq.
Qed.

(** C5, halfway along a quarter circle of the sphere of radius 8, with an
    offset. *)
Lemma great_circle_point_on_sphere_witness :
  Vec3.length
    (TrafficFlow.getGreatCirclePoint
       (mkVector3 8 0 0) (mkVector3 0 8 0) (1 / 2) 8
       (Some (mkVector3 (1 / 4) 0 0)))
  = 8.
Proof.
  apply (great_circle_point_on_sphere
           (mkVector3 8 0 0) (mkVector3 0 8 0) (1 / 2) 8
           (Some (mkVector3 (1 / 4) 0 0))); lra.
Defined.

(** ** End points of the great circle *)

Lemma Number_EPSILON_pos : 0 < Number_EPSILON.
Proof. unfold Number_EPSILON. apply Rinv_0_lt_compat. lra. Qed.

(** Away from the opposite of the reference vector, the quaternion of
    [setFromUnitVectors] turns the reference vector onto the direction. *)
Lemma setFromUnitVectors_up_regular (d : Vector3) :
  Vec3.lengthSq d = 1 ->
  Number_EPSILON <= 1 + vy d ->
  applyQuaternion Vec3.up (Quat.setFromUnitVectors Vec3.up d) = d.
Proof.
  intros Hd Hreg. pose proof Number_EPSILON_pos as Heps.
  unfold Quat.setFromUnitVectors.
  assert (Hr : Vec3.dot Vec3.up d + 1 = 1 + vy d)
    by (unfold Vec3.dot, Vec3.up; simpl; ring).
  rewrite Hr.
  destruct (Rlt_dec (1 + vy d) Number_EPSILON) as [F|_]; [lra|].
  unfold Vec3.lengthSq in Hd.
  set (q := mkQuaternion _ _ _ _).
  assert (Hq : Quat.lengthSq q = 2 * (1 + vy d)).
  { unfold q, Quat.lengthSq, Vec3.up. simpl. nra. }
  pose proof (Quat_length_sq q) as Hl. rewrite Hq in Hl.
  assert (Hl0 : Quat.length q <> 0) by (intros E; rewrite E in Hl; lra).
  unfold Quat.normalize.
  destruct (Req_dec_T (Quat.length q) 0) as [E|_]; [contradiction|].
  set (l := Quat.length q) in *.
  assert (Hinv : (1 / l) * (1 / l) = / (2 * (1 + vy d))).
  { rewrite <- Hl. field. exact Hl0. }
  unfold applyQuaternion, q, Vec3.up. simpl.
  destruct d as [dx dy dz]. simpl in *.
  apply Vector3_eq; simpl.
  - replace (0 + (1 + dy) * (1 / l)
                 * (2 * ((0 * dx - 0 * dz) * (1 / l) * 0
                         - (0 * dy - 1 * dx) * (1 / l) * 1))
             + (0 * dx - 0 * dz) * (1 / l)
               * (2 * ((1 * dz - 0 * dy) * (1 / l) * 1
                       - (0 * dx - 0 * dz) * (1 / l) * 0))
             - (0 * dy - 1 * dx) * (1 / l)
               * (2 * ((0 * dy - 1 * dx) * (1 / l) * 0
                       - (1 * dz - 0 * dy) * (1 / l) * 0)))
      with (2 * (1 + dy) * dx * ((1 / l) * (1 / l))) by ring.
    rewrite Hinv. field. lra.
  - replace (1 + (1 + dy) * (1 / l)
                 * (2 * ((0 * dy - 1 * dx) * (1 / l) * 0
                         - (1 * dz - 0 * dy) * (1 / l) * 0))
             + (0 * dy - 1 * dx) * (1 / l)
               * (2 * ((0 * dx - 0 * dz) * (1 / l) * 0
                       - (0 * dy - 1 * dx) * (1 / l) * 1))
             - (1 * dz - 0 * dy) * (1 / l)
               * (2 * ((1 * dz - 0 * dy) * (1 / l) * 1
                       - (0 * dx - 0 * dz) * (1 / l) * 0)))
      with (1 - 2 * (dx * dx + dz * dz) * ((1 / l) * (1 / l))) by ring.
    rewrite Hinv.
    replace (dx * dx + dz * dz) with ((1 - dy) * (1 + dy)) by nra.
    field. lra.
  - replace (0 + (1 + dy) * (1 / l)
                 * (2 * ((1 * dz - 0 * dy) * (1 / l) * 1
                         - (0 * dx - 0 * dz) * (1 / l) * 0))
             + (1 * dz - 0 * dy) * (1 / l)
               * (2 * ((0 * dy - 1 * dx) * (1 / l) * 0
                       - (1 * dz - 0 * dy) * (1 / l) * 0))
             - (0 * dx - 0 * dz) * (1 / l)
               * (2 * ((0 * dx - 0 * dz) * (1 / l) * 0
                       - (0 * dy - 1 * dx) * (1 / l) * 1)))
      with (2 * (1 + dy) * dz * ((1 / l) * (1 / l))) by ring.
    rewrite Hinv. field. lra.
Qed.

(** In the opposite-directions branch the reference vector is turned onto
    [(0, -1, 0)], whatever the direction asked for. *)
Lemma setFromUnitVectors_up_opposite (d : Vector3) :
  1 + vy d < Number_EPSILON ->
  applyQuaternion Vec3.up (Quat.setFromUnitVectors Vec3.up d)
  = mkVector3 0 (-1) 0.
Proof.
  intros Hopp. unfold Quat.setFromUnitVectors.
  assert (Hr : Vec3.dot Vec3.up d + 1 = 1 + vy d)
    by (unfold Vec3.dot, Vec3.up; simpl; ring).
  rewrite Hr.
  destruct (Rlt_dec (1 + vy d) Number_EPSILON) as [_|F]; [|contradiction].
  unfold Vec3.up. simpl.
  destruct (Rlt_dec (Rabs 0) (Rabs 0)) as [F|_]; [lra|].
  assert (Hl : Quat.length (mkQuaternion 0 (- 0) 1 0) = 1).
  { unfold Quat.length. simpl.
    replace (0 * 0 + - 0 * - 0 + 1 * 1 + 0 * 0) with 1 by ring.
    apply sqrt_1. }
  unfold Quat.normalize. rewrite Hl.
  destruct (Req_dec_T 1 0) as [F|_]; [lra|].
  unfold applyQuaternion. apply Vector3_eq; simpl; field.
Qed.

Lemma setFromUnitVectors_up_reachable (d : Vector3) :
  Vec3.lengthSq d = 1 ->
  NetworkTopology.reachable d ->
  applyQuaternion Vec3.up (Quat.setFromUnitVectors Vec3.up d) = d.
Proof.
  intros Hd [Hreg | ->].
  - apply setFromUnitVectors_up_regular; assumption.
  - apply setFromUnitVectors_up_opposite. simpl.
    pose proof Number_EPSILON_pos. lra.
Qed.

Lemma slerp_at_0 (qa qb : Quaternion) : Quat.slerp qa qb 0 = qa.
Proof.
  unfold Quat.slerp. destruct (Req_dec_T 0 0) as [_|F]; [reflexivity|].
  exfalso. apply F. reflexivity.
Qed.

Lemma slerp_at_1 (qa qb : Quaternion) : Quat.slerp qa qb 1 = qb.
Proof.
  unfold Quat.slerp. destruct (Req_dec_T 1 0) as [F|_]; [lra|].
  destruct (Req_dec_T 1 1) as [_|F]; [reflexivity|].
  exfalso. apply F. reflexivity.
Qed.

Lemma nonzero_of_length (v : Vector3) (r : R) :
  0 < r -> Vec3.length v = r -> v <> Vec3.zero.
Proof.
  intros Hr Hl E. apply Vec3_length_zero_iff in E. lra.
Qed.

(** C1 as stated fails.  [Sample.nearSouthPole] and [(1, 0, 0)] lie on the
    sphere of radius 1 and are not antipodal, yet the evaluation at
    [t = 0] returns the south pole [(0, -1, 0)], which is neither the
    start point nor its normalised form. *)
Lemma great_circle_start_near_pole :
  Vec3.length Sample.nearSouthPole = 1
  /\ Vec3.length (mkVector3 1 0 0) = 1
  /\ 0 < Vec3.dot Sample.nearSouthPole (mkVector3 1 0 0)
  /\ NetworkTopology.getGreatCirclePoint
       Sample.nearSouthPole (mkVector3 1 0 0) 0 1
     = mkVector3 0 (-1) 0
  /\ NetworkTopology.getGreatCirclePoint
       Sample.nearSouthPole (mkVector3 1 0 0) 0 1
     <> Sample.nearSouthPole
  /\ NetworkTopology.getGreatCirclePoint
       Sample.nearSouthPole (mkVector3 1 0 0) 0 1
     <> Vec3.multiplyScalar (Vec3.normalize Sample.nearSouthPole) 1.
Proof.
  assert (Hlen : Vec3.length Sample.nearSouthPole = 1).
  { apply Vec3_length_of_sq; [lra|].
    unfold Vec3.lengthSq, Sample.nearSouthPole. simpl. field. }
  assert (Hnorm : Vec3.normalize Sample.nearSouthPole = Sample.nearSouthPole).
  { rewrite Vec3_normalize_nonzero by lra. rewrite Hlen.
    apply Vector3_eq; simpl; field. }
  assert (Hval : NetworkTopology.getGreatCirclePoint
                   Sample.nearSouthPole (mkVector3 1 0 0) 0 1
                 = mkVector3 0 (-1) 0).
  { unfold NetworkTopology.getGreatCirclePoint, Quat.slerpQuaternions.
    rewrite slerp_at_0, Hnorm, setFromUnitVectors_up_opposite.
    - apply Vector3_eq; simpl; ring.
    - unfold Sample.nearSouthPole, Number_EPSILON. simpl. lra. }
  assert (Hne : mkVector3 0 (-1) 0 <> Sample.nearSouthPole).
  { intros E. apply (f_equal vx) in E. simpl in E. lra. }
  split; [exact Hlen|].
  split.
  { apply Vec3_length_of_sq; [lra|]. unfold Vec3.lengthSq. simpl. ring. }
  split.
  { unfold Vec3.dot, Sample.nearSouthPole. simpl. lra. }
  split; [exact Hval|].
  rewrite Hval. split; [exact Hne|].
  rewrite Hnorm. intros E. apply Hne. rewrite E.
  apply Vector3_eq; simpl; ring.
Qed.

(** C1, amended.  For [start] and [end] on the sphere of radius [R > 0]:
    when the direction of [start] is reachable, the evaluation at [t = 0]
    returns [start], which is its own normalisation to radius [R]; when
    the direction of [end] is reachable, the evaluation at [t = 1] returns
    [end].  No condition relates [start] to [end]. *)
Theorem great_circle_endpoints (start end_ : Vector3) (radius : R) :
  0 < radius ->
  Vec3.length start = radius ->
  Vec3.length end_ = radius ->
  (NetworkTopology.reachable (Vec3.normalize start) ->
     NetworkTopology.getGreatCirclePoint start end_ 0 radius = start
     /\ start = Vec3.multiplyScalar (Vec3.normalize start) radius)
  /\ (NetworkTopology.reachable (Vec3.normalize end_) ->
        NetworkTopology.getGreatCirclePoint start end_ 1 radius = end_
        /\ end_ = Vec3.multiplyScalar (Vec3.normalize end_) radius).
Proof.
  intros Hr Hs He.
  pose proof (nonzero_of_length start radius Hr Hs) as Hs0.
  pose proof (nonzero_of_length end_ radius Hr He) as He0.
  assert (Hss : Vec3.multiplyScalar (Vec3.normalize start) radius = start)
    by (rewrite <- Hs at 1; apply Vec3_normalize_scale).
  assert (Hee : Vec3.multiplyScalar (Vec3.normalize end_) radius = end_)
    by (rewrite <- He at 1; apply Vec3_normalize_scale).
  split; intros Hreach;
    unfold NetworkTopology.getGreatCirclePoint, Quat.slerpQuaternions.
  - rewrite slerp_at_0, setFromUnitVectors_up_reachable.
    + split; [exact Hss|symmetry; exact Hss].
    + apply Vec3_normalize_lengthSq. exact Hs0.
    + exact Hreach.
  - rewrite slerp_at_1, setFromUnitVectors_up_reachable.
    + split; [exact Hee|symmetry; exact Hee].
    + apply Vec3_normalize_lengthSq. exact He0.
    + exact Hreach.
Qed.

(** C1 amended, on the sphere of radius 8: a quarter circle from
    [(8, 0, 0)] starts at [(8, 0, 0)]. *)
Lemma great_circle_endpoints_witness :
  NetworkTopology.getGreatCirclePoint
    (mkVector3 8 0 0) (mkVector3 0 8 0) 0 8
  = mkVector3 8 0 0.
Proof.
  assert (Hs : Vec3.length (mkVector3 8 0 0) = 8)
    by (apply Vec3_length_of_sq; [lra|unfold Vec3.lengthSq; simpl; ring]).
  assert (He : Vec3.length (mkVector3 0 8 0) = 8)
    by (apply Vec3_length_of_sq; [lra|unfold Vec3.lengthSq; simpl; ring]).
  assert (Hr : 0 < 8) by lra.
  destruct (great_circle_endpoints (mkVector3 8 0 0) (mkVector3 0 8 0) 8
              Hr Hs He) as [H0 _].
  apply H0. left.
  rewrite Vec3_normalize_nonzero by lra. simpl.
  unfold Number_EPSILON. lra.
Defined.

(** ** Swap symmetry *)

Lemma sum_of_squares_zero (a b c d : R) :
  a * a + b * b + c * c + d * d <= 0 -> a = 0 /\ b = 0 /\ c = 0 /\ d = 0.
Proof. intros H. repeat split; nra. Qed.

(** Unit quaternions whose product is at least 1 are equal. *)
Lemma unit_dot_ge_1 (qa qb : Quaternion) :
  Quat.isUnit qa -> Quat.isUnit qb -> 1 <= Quat.dot qa qb -> qa = qb.
Proof.
  unfold Quat.isUnit, Quat.lengthSq, Quat.dot. intros Ha Hb Hd.
  destruct (sum_of_squares_zero (qx qa - qx qb) (qy qa - qy qb)
              (qz qa - qz qb) (qw qa - qw qb)) as (H1 & H2 & H3 & H4);
    [nra|].
  apply Quaternion_eq; lra.
Qed.

Lemma unit_dot_le_m1 (qa qb : Quaternion) :
  Quat.isUnit qa -> Quat.isUnit qb -> Quat.dot qa qb <= -1 ->
  qa = Quat.opp qb.
Proof.
  unfold Quat.isUnit, Quat.lengthSq, Quat.dot. intros Ha Hb Hd.
  destruct (sum_of_squares_zero (qx qa + qx qb) (qy qa + qy qb)
              (qz qa + qz qb) (qw qa + qw qb)) as (H1 & H2 & H3 & H4);
    [nra|].
  apply Quaternion_eq; simpl; lra.
Qed.

Lemma Quat_length_opp (q : Quaternion) :
  Quat.length (Quat.opp q) = Quat.length q.
Proof.
  unfold Quat.length, Quat.opp. simpl. f_equal. ring.
Qed.

(** Normalising the opposite quaternion gives the same rotation. *)
Lemma applyQuaternion_normalize_opp (v : Vector3) (q : Quaternion) :
  applyQuaternion v (Quat.normalize (Quat.opp q))
  = applyQuaternion v (Quat.normalize q).
Proof.
  unfold Quat.normalize. rewrite Quat_length_opp.
  destruct (Req_dec_T (Quat.length q) 0); [reflexivity|].
  rewrite <- (applyQuaternion_opp v (mkQuaternion (qx q * _) _ _ _)).
  f_equal. unfold Quat.opp. apply Quaternion_eq; simpl; ring.
Qed.

(** Slerp from [qb] to [qa] at [1 - t] is the rotation of slerp from [qa]
    to [qb] at [t]. *)
Lemma slerp_swap (v : Vector3) (qa qb : Quaternion) (t : R) :
  Quat.isUnit qa -> Quat.isUnit qb ->
  applyQuaternion v (Quat.slerp qb qa (1 - t))
  = applyQuaternion v (Quat.slerp qa qb t).
Proof.
  intros Ha Hb.
  destruct (Req_dec_T t 0) as [->|Ht0].
  { replace (1 - 0) with 1 by ring. rewrite slerp_at_0, slerp_at_1.
    reflexivity. }
  destruct (Req_dec_T t 1) as [->|Ht1].
  { replace (1 - 1) with 0 by ring. rewrite slerp_at_0, slerp_at_1.
    reflexivity. }
  unfold Quat.slerp.
  destruct (Req_dec_T (1 - t) 0) as [F|_]; [lra|].
  destruct (Req_dec_T (1 - t) 1) as [F|_]; [lra|].
  destruct (Req_dec_T t 0) as [F|_]; [contradiction|].
  destruct (Req_dec_T t 1) as [F|_]; [contradiction|].
  set (c0 := qw qa * qw qb + qx qa * qx qb + qy qa * qy qb + qz qa * qz qb).
  replace (qw qb * qw qa + qx qb * qx qa + qy qb * qy qa + qz qb * qz qa)
    with c0 by (unfold c0; ring).
  assert (Hdot : Quat.dot qa qb = c0) by (unfold Quat.dot, c0; ring).
  replace (1 - (1 - t)) with t by ring.
  destruct (Rlt_dec c0 0) as [Hneg|Hpos].
  - (* the second quaternion is negated on both sides *)
    destruct (Rle_dec 1 (- c0)) as [Hone|_].
    { rewrite (unit_dot_le_m1 qa qb Ha Hb) by lra.
      symmetry. apply applyQuaternion_opp. }
    destruct (Rle_dec (1 - - c0 * - c0) Number_EPSILON) as [_|_].
    + rewrite <- applyQuaternion_normalize_opp. f_equal. f_equal.
      unfold Quat.opp. apply Quaternion_eq; simpl; ring.
    + rewrite <- applyQuaternion_opp. f_equal.
      unfold Quat.opp. apply Quaternion_eq; simpl; ring.
  - destruct (Rle_dec 1 c0) as [Hone|_].
    { rewrite (unit_dot_ge_1 qa qb Ha Hb) by lra. reflexivity. }
    destruct (Rle_dec (1 - c0 * c0) Number_EPSILON) as [_|_].
    + f_equal. f_equal. apply Quaternion_eq; simpl; ring.
    + f_equal. apply Quaternion_eq; simpl; ring.
Qed.

(** C8.  For every pair of points [start], [end] and every [t] in
    [[0, 1]], the great-circle evaluation at [t] equals the evaluation at
    [1 - t] with [start] and [end] swapped. *)
Theorem great_circle_swap_symmetry
    (start end_ : Vector3) (t radius : R) :
  0 <= t <= 1 ->
  NetworkTopology.getGreatCirclePoint start end_ t radius
  = NetworkTopology.getGreatCirclePoint end_ start (1 - t) radius.
Proof.
  intros _. unfold NetworkTopology.getGreatCirclePoint, Quat.slerpQuaternions.
  f_equal. symmetry.
  apply slerp_swap; apply setFromUnitVectors_isUnit.
Qed.

(** C8, a quarter of the way along a quarter circle of radius 8. *)
Lemma great_circle_swap_symmetry_witness :
  NetworkTopology.getGreatCirclePoint
    (mkVector3 8 0 0) (mkVector3 0 8 0) (1 / 4) 8
  = NetworkTopology.getGreatCirclePoint
      (mkVector3 0 8 0) (mkVector3 8 0 0) (1 - 1 / 4) 8.
Proof.
  apply (great_circle_swap_symmetry
           (mkVector3 8 0 0) (mkVector3 0 8 0) (1 / 4) 8).
  lra.
Defined.

(** ** Spherical layout *)

Section LayoutFacts.
Import JsNumber Layout.

Lemma loop_map (count : nat) (radius : number) (n i : nat) (acc : list Point) :
  loop count radius n i acc = acc ++ map (body count radius) (seq i n).
Proof.
  revert i acc. induction n as [|n IH]; intros i acc.
  - simpl. rewrite app_nil_r. reflexivity.
  - simpl. rewrite IH, <- app_assoc. reflexivity.
Qed.

Lemma loop_main_map (count : nat) (n i : nat) (acc : list Point) :
  loop_main count n i acc = acc ++ map (body_main count) (seq i n).
Proof.
  revert i acc. induction n as [|n IH]; intros i acc.
  - simpl. rewrite app_nil_r. reflexivity.
  - simpl. rewrite IH, <- app_assoc. reflexivity.
Qed.

Lemma distributePointsOnSphere_map (count : nat) (radius : number) :
  distributePointsOnSphere count radius
  = map (body count radius) (seq 0 count).
Proof. unfold distributePointsOnSphere. apply loop_map. Qed.

Lemma distributePointsOnSphere_main_map (count : nat) :
  distributePointsOnSphere_main count = map (body_main count) (seq 0 count).
Proof. unfold distributePointsOnSphere_main. apply loop_main_map. Qed.

Lemma phi_finite : phi = Fin (PI * (3 + - sqrt 5)).
Proof.
  unfold phi, Math_PI, Math_sqrt, sub, add, neg, mul.
  destruct (Rlt_dec 5 0) as [F|_]; [lra|]. reflexivity.
Qed.

(** With at least two points the [y] of the code is finite and is the
    [y] of the formula. *)
Lemma body_y (N i : nat) :
  (2 <= N)%nat ->
  sub (Fin 1) (mul (div (ofNat i) (sub (ofNat N) (Fin 1))) (Fin 2))
  = Fin (spiral_y N i).
Proof.
  intros HN.
  assert (H2 : 2 <= INR N) by (apply (le_INR 2); exact HN).
  unfold ofNat, sub, add, neg, div, mul.
  destruct (Req_dec_T (INR N + - (1)) 0) as [F|Hne]; [lra|].
  unfold spiral_y. f_equal. field. lra.
Qed.

Lemma spiral_y_range (N i : nat) :
  (2 <= N)%nat -> (i < N)%nat -> -1 <= spiral_y N i <= 1.
Proof.
  intros HN Hi.
  assert (H2 : 2 <= INR N) by (apply (le_INR 2); exact HN).
  assert (Hi0 : 0 <= INR i) by apply pos_INR.
  assert (Hi1 : INR i <= INR N - 1).
  { assert (H : INR (S i) <= INR N) by (apply le_INR; lia).
    rewrite S_INR in H. lra. }
  unfold spiral_y.
  assert (Hq : 0 <= INR i / (INR N - 1) <= 1).
  { split.
    - apply Rmult_le_pos; [exact Hi0|].
      left. apply Rinv_0_lt_compat. lra.
    - apply (Rmult_le_reg_r (INR N - 1)); [lra|].
      replace (INR i / (INR N - 1) * (INR N - 1)) with (INR i)
        by (field; lra).
      lra. }
  replace (2 * INR i / (INR N - 1)) with (2 * (INR i / (INR N - 1)))
    by (field; lra).
  lra.
Qed.

Lemma spiral_radius_sq (N i : nat) :
  (2 <= N)%nat -> (i < N)%nat ->
  spiral_radius_at_y N i * spiral_radius_at_y N i
  = 1 - spiral_y N i * spiral_y N i.
Proof.
  intros HN Hi. pose proof (spiral_y_range N i HN Hi) as Hy.
  unfold spiral_radius_at_y. apply sqrt_sqrt. nra.
Qed.

(** The loop body computes the point of the formula. *)
Lemma body_spiral (N i : nat) (R0 : R) :
  (2 <= N)%nat -> (i < N)%nat ->
  body N (Fin R0) i = spiral_point N R0 i.
Proof.
  intros HN Hi. pose proof (spiral_y_range N i HN Hi) as Hy.
  unfold body. rewrite (body_y N i HN), phi_finite.
  unfold spiral_point, spiral_radius_at_y, spiral_theta.
  set (y := spiral_y N i) in *.
  unfold ofNat, sub, add, neg, mul, Math_sqrt, Math_cos, Math_sin.
  destruct (Rlt_dec (1 + - (y * y)) 0) as [F|_]; [nra|].
  replace (1 + - (y * y)) with (1 - y * y) by ring.
  replace (PI * (3 + - sqrt 5) * INR i) with (INR i * (PI * (3 - sqrt 5)))
    by ring.
  reflexivity.
Qed.

Lemma body_main_spiral (N i : nat) :
  (2 <= N)%nat -> (i < N)%nat ->
  body_main N i = spiral_point N 1 i.
Proof.
  intros HN Hi. pose proof (spiral_y_range N i HN Hi) as Hy.
  unfold body_main. rewrite (body_y N i HN), phi_finite.
  unfold spiral_point, spiral_radius_at_y, spiral_theta.
  set (y := spiral_y N i) in *.
  unfold ofNat, sub, add, neg, mul, Math_sqrt, Math_cos, Math_sin.
  destruct (Rlt_dec (1 + - (y * y)) 0) as [F|_]; [nra|].
  replace (1 + - (y * y)) with (1 - y * y) by ring.
  replace (PI * (3 + - sqrt 5) * INR i) with (INR i * (PI * (3 - sqrt 5)))
    by ring.
  rewrite !Rmult_1_r. reflexivity.
Qed.

Lemma spiral_point_magnitude (N i : nat) (R0 : R) :
  (2 <= N)%nat -> (i < N)%nat -> 0 < R0 ->
  magnitude (spiral_point N R0 i) = Fin R0.
Proof.
  intros HN Hi HR. pose proof (spiral_radius_sq N i HN Hi) as Hr.
  unfold magnitude, spiral_point, mul, add, Math_sqrt.
  set (r := spiral_radius_at_y N i) in *.
  set (y := spiral_y N i) in *.
  set (th := spiral_theta i).
  pose proof (sin_cos_sq th) as Htrig.
  assert (Hsum : cos th * r * R0 * (cos th * r * R0)
                 + y * R0 * (y * R0)
                 + sin th * r * R0 * (sin th * r * R0)
                 = R0 * R0).
  { replace (cos th * r * R0 * (cos th * r * R0) + y * R0 * (y * R0)
             + sin th * r * R0 * (sin th * r * R0))
      with (R0 * R0 * ((sin th * sin th + cos th * cos th) * (r * r) + y * y))
      by ring.
    rewrite Htrig, Hr. ring. }
  rewrite Hsum.
  destruct (Rlt_dec (R0 * R0) 0) as [F|_]; [nra|].
  f_equal. apply sqrt_square. lra.
Qed.

Lemma spiral_point_injective (N i j : nat) (R0 : R) :
  (2 <= N)%nat -> 0 < R0 ->
  spiral_point N R0 i = spiral_point N R0 j -> i = j.
Proof.
  intros HN HR E.
  assert (H2 : 2 <= INR N) by (apply (le_INR 2); exact HN).
  unfold spiral_point in E. injection E as _ Ey _.
  apply Rmult_eq_reg_r in Ey; [|lra].
  unfold spiral_y in Ey.
  apply INR_eq.
  assert (Hq : 2 * INR i / (INR N - 1) = 2 * INR j / (INR N - 1)) by lra.
  apply (Rmult_eq_compat_r (INR N - 1)) in Hq.
  replace (2 * INR i / (INR N - 1) * (INR N - 1)) with (2 * INR i) in Hq
    by (field; lra).
  replace (2 * INR j / (INR N - 1) * (INR N - 1)) with (2 * INR j) in Hq
    by (field; lra).
  lra.
Qed.

Lemma map_spiral_ext (N : nat) (f : nat -> Point) (g : nat -> Point) :
  (forall i, (i < N)%nat -> f i = g i) ->
  map f (seq 0 N) = map g (seq 0 N).
Proof.
  intros H. apply map_ext_in. intros i Hi.
  apply in_seq in Hi. apply H. lia.
Qed.

End LayoutFacts.

(** C2.  For [N >= 2] points and a radius [R > 0] the layout returns
    exactly [N] positions, no two of them equal, each at distance [R] from
    the origin, and they are the points of the golden-angle formula
    [y = 1 - 2i/(N-1)], [radius_at_y = sqrt(1 - y^2)],
    [theta = i * pi * (3 - sqrt 5)], scaled by [R]; the variant of
    [main.tsx] returns the same points for [R = 1]. *)
Theorem spherical_layout_on_sphere (N : nat) (R0 : R) :
  (2 <= N)%nat -> 0 < R0 ->
  let points := Layout.distributePointsOnSphere N (JsNumber.Fin R0) in
  List.length points = N
  /\ NoDup points
  /\ (forall p : Layout.Point,
         p ∈ points -> Layout.magnitude p = JsNumber.Fin R0)
  /\ points = map (Layout.spiral_point N R0) (seq 0 N)
  /\ Layout.distributePointsOnSphere_main N
     = map (Layout.spiral_point N 1) (seq 0 N).
Proof.
  intros HN HR points.
  assert (Hpts : points = map (Layout.spiral_point N R0) (seq 0 N)).
  { unfold points. rewrite distributePointsOnSphere_map.
    apply map_spiral_ext. intros i Hi. apply body_spiral; assumption. }
  split; [|split; [|split; [|split]]].
  - rewrite Hpts, List.length_map, List.length_seq. reflexivity.
  - rewrite Hpts. apply NoDup_fmap_2_strong; [|apply NoDup_seq].
    intros i j _ _ E. eapply spiral_point_injective; eassumption.
  - intros p Hp. rewrite Hpts in Hp.
    apply list_elem_of_fmap in Hp. destruct Hp as (i & -> & Hi).
    apply elem_of_seq in Hi.
    apply spiral_point_magnitude; [exact HN|lia|exact HR].
  - exact Hpts.
  - rewrite distributePointsOnSphere_main_map.
    apply map_spiral_ext. intros i Hi. apply body_main_spiral; assumption.
Qed.

(** C2, for the eight nodes of the built-in topology on the sphere of
    radius 8. *)
Lemma spherical_layout_on_sphere_witness :
  List.length (Layout.distributePointsOnSphere 8 (JsNumber.Fin 8)) = 8%nat
  /\ NoDup (Layout.distributePointsOnSphere 8 (JsNumber.Fin 8)).
Proof.
  assert (HN : (2 <= 8)%nat) by lia.
  assert (HR : 0 < 8) by lra.
  destruct (spherical_layout_on_sphere 8 8 HN HR) as (Hlen & Hnd & _).
  split; [exact Hlen|exact Hnd].
Defined.


(** ** Camera transition *)

Section CameraFacts.
Import TWEEN CameraController.








Context (tp tip : R * R * R) (start : Vector3) (now : R).







End CameraFacts.




(* ===================================================================== *)
(** * Part III. Further properties of the code                            *)
(* ===================================================================== *)

(** ** Tooltip anchors *)

Lemma Vec3_ofTuple_toTuple (v : Vector3) : Vec3.ofTuple (Vec3.toTuple v) = v.
Proof. destruct v. reflexivity. Qed.

Lemma Vec3_toTuple_ofTuple (p : R * R * R) : Vec3.toTuple (Vec3.ofTuple p) = p.
Proof. destruct p as [[x y] z]. reflexivity. Qed.

Lemma Vec3_multiplyScalar_assoc (v : Vector3) (a b : R) :
  Vec3.multiplyScalar (Vec3.multiplyScalar v a) b
  = Vec3.multiplyScalar v (a * b).
Proof. apply Vector3_eq; simpl; ring. Qed.

(** X1.  [ensureOutsideSphere] sends a non-zero position to the point of
    its own direction at distance [radius * offset] from the centre (for
    [radius * offset >= 0]); the zero position has no direction and is
    sent to the centre itself. *)
Theorem ensureOutsideSphere_distance
    (position : R * R * R) (radius offset : R) :
  (Vec3.ofTuple position <> Vec3.zero ->
     0 <= radius * offset ->
     Vec3.length
       (Vec3.ofTuple
          (NetworkTooltip.ensureOutsideSphere position radius offset))
     = radius * offset
     /\ Vec3.ofTuple
          (NetworkTooltip.ensureOutsideSphere position radius offset)
        = Vec3.multiplyScalar (Vec3.ofTuple position)
            (radius * offset / Vec3.length (Vec3.ofTuple position)))
  /\ (Vec3.ofTuple position = Vec3.zero ->
        NetworkTooltip.ensureOutsideSphere position radius offset
        = (0, 0, 0)).
Proof.
  unfold NetworkTooltip.ensureOutsideSphere.
  set (vec := Vec3.ofTuple position).
  split.
  - intros Hnz Hpos. rewrite Vec3_ofTuple_toTuple.
    assert (Hl : Vec3.length vec <> 0)
      by (intros E; apply Hnz, Vec3_length_zero_iff, E).
    split.
    + rewrite Vec3_length_multiplyScalar, Vec3_normalize_length by exact Hnz.
      rewrite Rabs_pos_eq by exact Hpos. ring.
    + rewrite Vec3_normalize_nonzero by exact Hl.
      rewrite Vec3_multiplyScalar_assoc. f_equal. field. exact Hl.
  - intros Hz. rewrite Hz, Vec3_normalize_zero.
    unfold Vec3.toTuple, Vec3.multiplyScalar, Vec3.zero. simpl.
    repeat f_equal; ring.
Qed.

(** X1, for a node at [(8, 0, 0)] on the sphere of radius 8. *)
Lemma ensureOutsideSphere_distance_witness :
  Vec3.length
    (Vec3.ofTuple (NetworkTooltip.ensureOutsideSphere (8, 0, 0) 8 (3 / 2)))
  = 8 * (3 / 2).
Proof.
  destruct (ensureOutsideSphere_distance (8, 0, 0) 8 (3 / 2)) as [H _].
  apply H.
  - intros E. apply (f_equal vx) in E. simpl in E. lra.
  - lra.
Defined.

Lemma nodeTooltip_position (n : Node) :
  NetworkTooltip.tooltip_position (NetworkTooltip.nodeTooltip n)
  = NetworkTooltip.ensureOutsideSphere (position n)
      (Vec3.length (Vec3.ofTuple (position n)))
      NetworkTooltip.default_offset.
Proof. destruct n as [nid [[p0 p1] p2]]. reflexivity. Qed.

Lemma nodeTooltip_target (n : Node) :
  NetworkTooltip.tooltip_targetPosition (NetworkTooltip.nodeTooltip n)
  = position n.
Proof. destruct n as [nid [[p0 p1] p2]]. reflexivity. Qed.

(** Scaling a position to its own length times [offset] multiplies it by
    [offset]. *)
Lemma ensureOutsideSphere_own_radius (p : R * R * R) (offset : R) :
  Vec3.ofTuple
    (NetworkTooltip.ensureOutsideSphere p (Vec3.length (Vec3.ofTuple p)) offset)
  = Vec3.multiplyScalar (Vec3.ofTuple p) offset.
Proof.
  unfold NetworkTooltip.ensureOutsideSphere.
  rewrite Vec3_ofTuple_toTuple.
  rewrite <- Vec3_multiplyScalar_assoc, Vec3_normalize_scale.
  reflexivity.
Qed.

(** X2.  The tooltip of a node is anchored at exactly one and a half
    times the node's position, hence half a radius outside the sphere
    through the node, and its connector points at the node itself. *)
Theorem nodeTooltip_anchor (n : Node) :
  Vec3.ofTuple (NetworkTooltip.tooltip_position (NetworkTooltip.nodeTooltip n))
  = Vec3.multiplyScalar (Vec3.ofTuple (position n)) (3 / 2)
  /\ Vec3.length
       (Vec3.ofTuple
          (NetworkTooltip.tooltip_position (NetworkTooltip.nodeTooltip n)))
     = 3 / 2 * Vec3.length (Vec3.ofTuple (position n))
  /\ NetworkTooltip.tooltip_targetPosition (NetworkTooltip.nodeTooltip n)
     = position n.
Proof.
  rewrite nodeTooltip_position, ensureOutsideSphere_own_radius.
  unfold NetworkTooltip.default_offset.
  split; [reflexivity|]. split; [|apply nodeTooltip_target].
  rewrite Vec3_length_multiplyScalar, Rabs_pos_eq by lra. reflexivity.
Qed.

(** ** The closest sample of a curve *)

Section ClosestSample.

Context (start end_ point : Vector3) (radius : R).

Let sample : nat -> Vector3 := Samples.pathPoint start end_ radius.
Let step := NetworkTooltip.closest_step start end_ point radius 32.

Lemma closest_step_first (c : Vector3) (i : nat) :
  step (c, None) i = (sample i, Some (Vec3.distanceTo point (sample i))).
Proof. reflexivity. Qed.

Lemma closest_step_next (c : Vector3) (d : R) (i : nat) :
  step (c, Some d) i
  = if Rlt_dec (Vec3.distanceTo point (sample i)) d
    then (sample i, Some (Vec3.distanceTo point (sample i)))
    else (c, Some d).
Proof. reflexivity. Qed.

(** Folding the step keeps the best candidate seen so far. *)
Lemma closest_fold (l : list nat) (c : Vector3) (d : R) :
  d = Vec3.distanceTo point c ->
  exists (c' : Vector3) (d' : R),
    fold_left step l (c, Some d) = (c', Some d')
    /\ d' = Vec3.distanceTo point c'
    /\ d' <= d
    /\ (c' = c \/ c' ∈ map sample l)
    /\ (forall i : nat, i ∈ l -> d' <= Vec3.distanceTo point (sample i)).
Proof.
  revert c d. induction l as [|i l IH]; intros c d Hd.
  - exists c, d. simpl. repeat split; auto; try lra.
    intros i Hi. inversion Hi.
  - simpl fold_left. rewrite closest_step_next.
    destruct (Rlt_dec (Vec3.distanceTo point (sample i)) d) as [Hlt|Hge].
    + destruct (IH (sample i) (Vec3.distanceTo point (sample i)) eq_refl)
        as (c' & d' & Hf & Hd' & Hle & Hin & Hmin).
      exists c', d'. split; [exact Hf|]. split; [exact Hd'|].
      split; [lra|]. split.
      * right. destruct Hin as [-> | Hin].
        -- simpl. apply list_elem_of_here.
        -- simpl. apply list_elem_of_further. exact Hin.
      * intros j Hj. apply elem_of_cons in Hj. destruct Hj as [-> | Hj].
        -- exact Hle.
        -- apply Hmin. exact Hj.
    + destruct (IH c d Hd) as (c' & d' & Hf & Hd' & Hle & Hin & Hmin).
      exists c', d'. split; [exact Hf|]. split; [exact Hd'|].
      split; [exact Hle|]. split.
      * destruct Hin as [-> | Hin]; [left; reflexivity|].
        right. simpl. apply list_elem_of_further. exact Hin.
      * intros j Hj. apply elem_of_cons in Hj. destruct Hj as [-> | Hj].
        -- lra.
        -- apply Hmin. exact Hj.
Qed.

Lemma seq_0_33 : seq 0 33 = 0%nat :: seq 1 32.
Proof. reflexivity. Qed.

Lemma fold_left_cons_eq {A B : Type} (f : A -> B -> A) (x : B) (l : list B) (a : A) :
  fold_left f (x :: l) a = fold_left f l (f a x).
Proof. reflexivity. Qed.

Lemma findClosest_fold :
  exists c' : Vector3,
    NetworkTooltip.findClosestPointOnGreatCircle start end_ point radius = c'
    /\ c' ∈ Samples.pathPoints start end_ radius
    /\ (forall i : nat,
           (i <= 32)%nat ->
           Vec3.distanceTo point c' <= Vec3.distanceTo point (sample i)).
Proof.
  unfold NetworkTooltip.findClosestPointOnGreatCircle.
  rewrite seq_0_33, fold_left_cons_eq.
  fold step. rewrite closest_step_first.
  destruct (closest_fold (seq 1 32) (sample 0)
              (Vec3.distanceTo point (sample 0)) eq_refl)
    as (c' & d' & Hf & Hd' & Hle & Hin & Hmin).
  exists c'. rewrite Hf. split; [reflexivity|]. split.
  - unfold Samples.pathPoints. change (seq 0 33) with (0%nat :: seq 1 32).
    destruct Hin as [-> | Hin].
    + simpl. apply list_elem_of_here.
    + simpl. apply list_elem_of_further. exact Hin.
  - intros i Hi. rewrite <- Hd'.
    destruct i as [|i]; [exact Hle|].
    apply Hmin. apply elem_of_seq. lia.
Qed.

End ClosestSample.

Lemma pathPoint_lengthSq (start end_ : Vector3) (radius : R) (i : nat) :
  Vec3.lengthSq (Samples.pathPoint start end_ radius i) = radius * radius.
Proof.
  unfold Samples.pathPoint, NetworkTooltip.getGreatCirclePoint.
  apply slerp_point_lengthSq.
Qed.

Lemma Vec3_length_of_sq_abs (v : Vector3) (r : R) :
  Vec3.lengthSq v = r * r -> Vec3.length v = Rabs r.
Proof.
  intros H. rewrite Vec3_length_sqrt, H. fold (Rsqr r). apply sqrt_Rsqr_abs.
Qed.

(** X3.  [findClosestPointOnGreatCircle] returns one of the 33 points it
    samples on the curve, none of the samples is closer to the given point
    than the one returned, and the point returned lies at distance
    [|radius|] from the centre. *)
Theorem findClosest_is_nearest_sample
    (start end_ point : Vector3) (radius : R) :
  let closest :=
    NetworkTooltip.findClosestPointOnGreatCircle start end_ point radius in
  closest ∈ Samples.pathPoints start end_ radius
  /\ (forall s : Vector3,
         s ∈ Samples.pathPoints start end_ radius ->
         Vec3.distanceTo point closest <= Vec3.distanceTo point s)
  /\ Vec3.length closest = Rabs radius
  /\ List.length (Samples.pathPoints start end_ radius) = 33%nat.
Proof.
  intros closest.
  destruct (findClosest_fold start end_ point radius) as (c' & Hc & Hin & Hmin).
  unfold closest. rewrite Hc.
  split; [exact Hin|]. split; [|split].
  - intros s Hs. unfold Samples.pathPoints in Hs.
    apply list_elem_of_fmap in Hs. destruct Hs as (i & -> & Hi).
    apply elem_of_seq in Hi. apply Hmin. lia.
  - unfold Samples.pathPoints in Hin.
    apply list_elem_of_fmap in Hin. destruct Hin as (i & -> & _).
    apply Vec3_length_of_sq_abs, pathPoint_lengthSq.
  - unfold Samples.pathPoints. rewrite List.length_map, List.length_seq.
    reflexivity.
Qed.

(** ** The tooltip of a link *)

Lemma ensureOutsideSphere_nonzero_length
    (position : R * R * R) (radius offset : R) :
  Vec3.ofTuple position <> Vec3.zero ->
  0 <= radius * offset ->
  Vec3.length
    (Vec3.ofTuple (NetworkTooltip.ensureOutsideSphere position radius offset))
  = radius * offset.
Proof.
  intros Hnz Hpos. unfold NetworkTooltip.ensureOutsideSphere.
  rewrite Vec3_ofTuple_toTuple.
  rewrite Vec3_length_multiplyScalar, Vec3_normalize_length by exact Hnz.
  rewrite Rabs_pos_eq by exact Hpos. ring.
Qed.

Lemma ensureOutsideSphere_zero (position : R * R * R) (radius offset : R) :
  Vec3.ofTuple position = Vec3.zero ->
  NetworkTooltip.ensureOutsideSphere position radius offset = (0, 0, 0).
Proof.
  intros Hz. unfold NetworkTooltip.ensureOutsideSphere.
  rewrite Hz, Vec3_normalize_zero.
  unfold Vec3.toTuple, Vec3.multiplyScalar, Vec3.zero. simpl.
  repeat f_equal; ring.
Qed.

Lemma linkTooltip_position (l : Link) (s t : Node) :
  NetworkTooltip.tooltip_position (NetworkTooltip.linkTooltip l s t)
  = NetworkTooltip.ensureOutsideSphere
      (Midpoint.midpoint (position s) (position t))
      (Vec3.length (Vec3.ofTuple (position s)))
      NetworkTooltip.default_offset.
Proof.
  destruct s as [sid [[s0 s1] s2]], t as [tid [[t0 t1] t2]]. reflexivity.
Qed.

Lemma linkTooltip_target (l : Link) (s t : Node) :
  NetworkTooltip.tooltip_targetPosition (NetworkTooltip.linkTooltip l s t)
  = Vec3.toTuple
      (NetworkTooltip.findClosestPointOnGreatCircle
         (Vec3.ofTuple (position s)) (Vec3.ofTuple (position t))
         (Vec3.ofTuple (Midpoint.midpoint (position s) (position t)))
         (Vec3.length (Vec3.ofTuple (position s)))).
Proof.
  destruct s as [sid [[s0 s1] s2]], t as [tid [[t0 t1] t2]]. reflexivity.
Qed.

(** X4.  The tooltip of a link between nodes [s] and [t], with [R] the
    distance of [s] from the centre: its connector ends on the sphere of
    radius [R], at the sample of the link's curve nearest to the midpoint
    of the chord; its anchor lies at distance [1.5 * R] when that midpoint
    is not the centre, and at the centre itself when it is (the two nodes
    are opposite each other). *)
Theorem linkTooltip_geometry (l : Link) (s t : Node) :
  let sourcePos := Vec3.ofTuple (position s) in
  let targetPos := Vec3.ofTuple (position t) in
  let radius := Vec3.length sourcePos in
  let mid := Midpoint.midpoint (position s) (position t) in
  let tip := NetworkTooltip.linkTooltip l s t in
  let target := Vec3.ofTuple (NetworkTooltip.tooltip_targetPosition tip) in
  target ∈ Samples.pathPoints sourcePos targetPos radius
  /\ Vec3.length target = radius
  /\ (forall p : Vector3,
         p ∈ Samples.pathPoints sourcePos targetPos radius ->
         Vec3.distanceTo (Vec3.ofTuple mid) target
         <= Vec3.distanceTo (Vec3.ofTuple mid) p)
  /\ (Vec3.ofTuple mid <> Vec3.zero ->
        Vec3.length (Vec3.ofTuple (NetworkTooltip.tooltip_position tip))
        = 3 / 2 * radius)
  /\ (Vec3.ofTuple mid = Vec3.zero ->
        NetworkTooltip.tooltip_position tip = (0, 0, 0)).
Proof.
  intros sourcePos targetPos radius mid tip target.
  assert (Hr : 0 <= radius) by apply Vec3_length_nonneg.
  destruct (findClosest_fold sourcePos targetPos (Vec3.ofTuple mid) radius)
    as (c' & Hc & Hin & Hmin).
  assert (Ht : target = c').
  { unfold target, tip. rewrite linkTooltip_target, Vec3_ofTuple_toTuple.
    exact Hc. }
  rewrite Ht.
  split; [exact Hin|]. split; [|split; [|split]].
  - unfold Samples.pathPoints in Hin.
    apply list_elem_of_fmap in Hin. destruct Hin as (i & -> & _).
    rewrite (Vec3_length_of_sq_abs _ radius (pathPoint_lengthSq _ _ _ _)).
    apply Rabs_pos_eq. exact Hr.
  - intros p Hp. unfold Samples.pathPoints in Hp.
    apply list_elem_of_fmap in Hp. destruct Hp as (i & -> & Hi).
    apply elem_of_seq in Hi. apply Hmin. lia.
  - intros Hnz. unfold tip. rewrite linkTooltip_position.
    rewrite ensureOutsideSphere_nonzero_length.
    + unfold NetworkTooltip.default_offset. fold sourcePos radius. ring.
    + exact Hnz.
    + unfold NetworkTooltip.default_offset. fold sourcePos radius. lra.
  - intros Hz. unfold tip. rewrite linkTooltip_position.
    apply ensureOutsideSphere_zero. exact Hz.
Qed.

(** X4, for the link between the two sample nodes. *)
Lemma linkTooltip_geometry_witness :
  Vec3.length
    (Vec3.ofTuple
       (NetworkTooltip.tooltip_position
          (NetworkTooltip.linkTooltip Sample.linkAB Sample.nodeA Sample.nodeB)))
  = 3 / 2 * Vec3.length (Vec3.ofTuple (position Sample.nodeA)).
Proof.
  destruct (linkTooltip_geometry Sample.linkAB Sample.nodeA Sample.nodeB)
    as (_ & _ & _ & H & _).
  apply H. intros E. apply (f_equal vx) in E. simpl in E. lra.
Defined.

(** ** The polyline of a link *)

Lemma curvePoints_lookup (start end_ : Vector3) (i : nat) :
  (i <= NetworkTopology.SEGMENTS_PER_CURVE)%nat ->
  NetworkTopology.curvePoints start end_ !! i
  = Some (NetworkTopology.getGreatCirclePoint start end_
            (INR i / INR NetworkTopology.SEGMENTS_PER_CURVE)
            (Vec3.length start)).
Proof.
  intros Hi. unfold NetworkTopology.curvePoints.
  rewrite list_lookup_fmap, lookup_seq_lt by lia. reflexivity.
Qed.

Lemma great_circle_at_0 (start end_ : Vector3) (radius : R) :
  start <> Vec3.zero ->
  NetworkTopology.reachable (Vec3.normalize start) ->
  NetworkTopology.getGreatCirclePoint start end_ 0 radius
  = Vec3.multiplyScalar (Vec3.normalize start) radius.
Proof.
  intros Hnz Hreach.
  unfold NetworkTopology.getGreatCirclePoint, Quat.slerpQuaternions.
  rewrite slerp_at_0, setFromUnitVectors_up_reachable.
  - reflexivity.
  - apply Vec3_normalize_lengthSq. exact Hnz.
  - exact Hreach.
Qed.

Lemma great_circle_at_1 (start end_ : Vector3) (radius : R) :
  end_ <> Vec3.zero ->
  NetworkTopology.reachable (Vec3.normalize end_) ->
  NetworkTopology.getGreatCirclePoint start end_ 1 radius
  = Vec3.multiplyScalar (Vec3.normalize end_) radius.
Proof.
  intros Hnz Hreach.
  unfold NetworkTopology.getGreatCirclePoint, Quat.slerpQuaternions.
  rewrite slerp_at_1, setFromUnitVectors_up_reachable.
  - reflexivity.
  - apply Vec3_normalize_lengthSq. exact Hnz.
  - exact Hreach.
Qed.

(** X5.  The polyline [NetworkLink] draws has 33 vertices, all at the
    distance of [start] from the centre.  When the direction of [start]
    is reachable its first vertex is [start]; when [end] is non-zero and
    its direction is reachable, its last vertex is [end] brought to the
    distance of [start] (the radius is taken from [start] alone). *)
Theorem curvePoints_shape (start end_ : Vector3) :
  List.length (NetworkTopology.curvePoints start end_) = 33%nat
  /\ (forall p : Vector3,
         p ∈ NetworkTopology.curvePoints start end_ ->
         Vec3.length p = Vec3.length start)
  /\ (start <> Vec3.zero ->
        NetworkTopology.reachable (Vec3.normalize start) ->
        NetworkTopology.curvePoints start end_ !! 0%nat = Some start)
  /\ (end_ <> Vec3.zero ->
        NetworkTopology.reachable (Vec3.normalize end_) ->
        NetworkTopology.curvePoints start end_ !! 32%nat
        = Some (Vec3.multiplyScalar (Vec3.normalize end_) (Vec3.length start))).
Proof.
  split; [|split; [|split]].
  - unfold NetworkTopology.curvePoints.
    rewrite List.length_map, List.length_seq. reflexivity.
  - intros p Hp. unfold NetworkTopology.curvePoints in Hp.
    apply list_elem_of_fmap in Hp. destruct Hp as (i & -> & _).
    apply Vec3_length_of_sq; [apply Vec3_length_nonneg|].
    unfold NetworkTopology.getGreatCirclePoint.
    apply slerp_point_lengthSq.
  - intros Hnz Hreach.
    rewrite curvePoints_lookup by (unfold NetworkTopology.SEGMENTS_PER_CURVE; lia).
    replace (INR 0 / INR NetworkTopology.SEGMENTS_PER_CURVE) with 0
      by (simpl INR at 1; unfold Rdiv; ring).
    rewrite great_circle_at_0 by assumption.
    rewrite Vec3_normalize_scale. reflexivity.
  - intros Hnz Hreach.
    rewrite curvePoints_lookup by (unfold NetworkTopology.SEGMENTS_PER_CURVE; lia).
    replace (INR 32 / INR NetworkTopology.SEGMENTS_PER_CURVE) with 1.
    + rewrite great_circle_at_1 by assumption. reflexivity.
    + unfold NetworkTopology.SEGMENTS_PER_CURVE. field.
      apply not_0_INR. discriminate.
Qed.

(** X5, for the quarter circle from [(8, 0, 0)] to [(0, 8, 0)]. *)
Lemma curvePoints_shape_witness :
  NetworkTopology.curvePoints (mkVector3 8 0 0) (mkVector3 0 8 0) !! 0%nat
  = Some (mkVector3 8 0 0).
Proof.
  destruct (curvePoints_shape (mkVector3 8 0 0) (mkVector3 0 8 0))
    as (_ & _ & H & _).
  assert (Hl : Vec3.length (mkVector3 8 0 0) = 8)
    by (apply Vec3_length_of_sq; [lra|unfold Vec3.lengthSq; simpl; ring]).
  apply H.
  - intros E. apply (f_equal vx) in E. simpl in E. lra.
  - left. rewrite Vec3_normalize_nonzero by lra. simpl.
    unfold Number_EPSILON. lra.
Defined.

(** ** Poles and latitudes of the layout *)

Lemma spiral_y_first (N : nat) : (2 <= N)%nat -> Layout.spiral_y N 0 = 1.
Proof.
  intros HN. assert (H2 : 2 <= INR N) by (apply (le_INR 2); exact HN).
  unfold Layout.spiral_y. simpl INR. field. lra.
Qed.

Lemma spiral_y_last (N : nat) :
  (2 <= N)%nat -> Layout.spiral_y N (N - 1) = -1.
Proof.
  intros HN. assert (H2 : 2 <= INR N) by (apply (le_INR 2); exact HN).
  unfold Layout.spiral_y. rewrite minus_INR by lia. simpl INR. field. lra.
Qed.

Lemma spiral_y_step (N i : nat) :
  (2 <= N)%nat ->
  Layout.spiral_y N i - Layout.spiral_y N (S i) = 2 / (INR N - 1).
Proof.
  intros HN. assert (H2 : 2 <= INR N) by (apply (le_INR 2); exact HN).
  unfold Layout.spiral_y. rewrite S_INR. field. lra.
Qed.

Lemma layout_lookup (N i : nat) (R0 : R) :
  (2 <= N)%nat -> (i < N)%nat ->
  Layout.distributePointsOnSphere N (JsNumber.Fin R0) !! i
  = Some (Layout.spiral_point N R0 i).
Proof.
  intros HN Hi. rewrite distributePointsOnSphere_map.
  rewrite list_lookup_fmap, lookup_seq_lt by exact Hi. simpl.
  rewrite body_spiral by assumption. reflexivity.
Qed.

(** X6.  With [N >= 2] points the layout starts at the north pole
    [(0, R, 0)] and ends at the south pole [(0, -R, 0)], so the first and
    the last node are always opposite each other; in between the points
    descend in equal steps of height [2R / (N - 1)]. *)
Theorem layout_poles_and_latitudes (N : nat) (R0 : R) :
  (2 <= N)%nat ->
  let points := Layout.distributePointsOnSphere N (JsNumber.Fin R0) in
  points !! 0%nat
  = Some (JsNumber.Fin 0, JsNumber.Fin R0, JsNumber.Fin 0)
  /\ points !! (N - 1)%nat
     = Some (JsNumber.Fin 0, JsNumber.Fin (- R0), JsNumber.Fin 0)
  /\ (forall i : nat,
         (S i < N)%nat ->
         exists x y z x' y' z' : R,
           points !! i
           = Some (JsNumber.Fin x, JsNumber.Fin y, JsNumber.Fin z)
           /\ points !! S i
              = Some (JsNumber.Fin x', JsNumber.Fin y', JsNumber.Fin z')
           /\ y - y' = 2 * R0 / (INR N - 1)).
Proof.
  intros HN points.
  assert (H2 : 2 <= INR N) by (apply (le_INR 2); exact HN).
  split; [|split].
  - unfold points. rewrite layout_lookup by lia.
    unfold Layout.spiral_point, Layout.spiral_radius_at_y.
    rewrite spiral_y_first by exact HN.
    replace (1 - 1 * 1) with 0 by ring. rewrite sqrt_0.
    f_equal. f_equal; [f_equal|]; f_equal; ring.
  - unfold points. rewrite layout_lookup by lia.
    unfold Layout.spiral_point, Layout.spiral_radius_at_y.
    rewrite spiral_y_last by exact HN.
    replace (1 - -1 * -1) with 0 by ring. rewrite sqrt_0.
    f_equal. f_equal; [f_equal|]; f_equal; ring.
  - intros i Hi. unfold points.
    rewrite !layout_lookup by lia.
    unfold Layout.spiral_point.
    do 6 eexists. split; [reflexivity|]. split; [reflexivity|].
    pose proof (spiral_y_step N i HN) as Hs.
    replace (Layout.spiral_y N i * R0 - Layout.spiral_y N (S i) * R0)
      with ((Layout.spiral_y N i - Layout.spiral_y N (S i)) * R0) by ring.
    rewrite Hs. field. lra.
Qed.

(** X6, for the eight nodes of the built-in topology. *)
Lemma layout_poles_and_latitudes_witness :
  Layout.distributePointsOnSphere 8 (JsNumber.Fin 8) !! 7%nat
  = Some (JsNumber.Fin 0, JsNumber.Fin (- 8), JsNumber.Fin 0).
Proof.
  assert (HN : (2 <= 8)%nat) by lia.
  destruct (layout_poles_and_latitudes 8 8 HN) as (_ & H & _).
  exact H.
Defined.

(** ** Changing a link's traffic intensity *)

Section TrafficIntensityFacts.
Import Interaction.

Context (sourceId targetId : string).

Let hit (l : Link) : bool :=
  String.eqb (source l) sourceId && String.eqb (target l) targetId.

Let set (intensity : Intensity) (l : Link) : Link :=
  if hit l then mkLink (source l) (target l) intensity else l.

Lemma set_source (i : Intensity) (l : Link) : source (set i l) = source l.
Proof. unfold set. destruct (hit l); reflexivity. Qed.

Lemma set_target (i : Intensity) (l : Link) : target (set i l) = target l.
Proof. unfold set. destruct (hit l); reflexivity. Qed.

Lemma set_hit (i : Intensity) (l : Link) : hit (set i l) = hit l.
Proof. unfold hit. rewrite set_source, set_target. reflexivity. Qed.

Lemma set_set (i j : Intensity) (l : Link) : set j (set i l) = set j l.
Proof.
  unfold set at 1. rewrite set_hit. unfold set.
  destruct (hit l); reflexivity.
Qed.

Lemma updateTrafficIntensity_map (i : Intensity) (d : NetworkData) :
  updateTrafficIntensity sourceId targetId i d
  = mkNetworkData (nodes d) (map (set i) (links d)).
Proof. reflexivity. Qed.

Lemma updateTrafficIntensity_twice (i j : Intensity) (d : NetworkData) :
  updateTrafficIntensity sourceId targetId j
    (updateTrafficIntensity sourceId targetId i d)
  = updateTrafficIntensity sourceId targetId j d.
Proof.
  rewrite !updateTrafficIntensity_map. simpl. f_equal.
  rewrite List.map_map. apply List.map_ext. intros l. apply set_set.
Qed.

End TrafficIntensityFacts.

(** X7.  [updateTrafficIntensity] never changes the nodes, the number or
    order of the links or the ends of any link: the link at each index
    keeps its source and target, gets the new intensity if it runs from
    [sourceId] to [targetId] and is otherwise untouched.  Setting the same
    link twice keeps the last value only (so the update is idempotent). *)
Theorem updateTrafficIntensity_effect
    (sourceId targetId : string) (intensity : Intensity)
    (d : Interaction.NetworkData) :
  let d' := Interaction.updateTrafficIntensity sourceId targetId intensity d in
  Interaction.nodes d' = Interaction.nodes d
  /\ List.length (Interaction.links d') = List.length (Interaction.links d)
  /\ map source (Interaction.links d') = map source (Interaction.links d)
  /\ map target (Interaction.links d') = map target (Interaction.links d)
  /\ (forall (i : nat) (l : Link),
         Interaction.links d !! i = Some l ->
         Interaction.links d' !! i
         = Some (if String.eqb (source l) sourceId
                    && String.eqb (target l) targetId
                 then mkLink (source l) (target l) intensity
                 else l))
  /\ (forall earlier : Intensity,
         Interaction.updateTrafficIntensity sourceId targetId intensity
           (Interaction.updateTrafficIntensity sourceId targetId earlier d)
         = d').
Proof.
  intros d'. unfold d'.
  split; [reflexivity|]. split; [|split; [|split; [|split]]].
  - simpl. apply List.length_map.
  - simpl. rewrite List.map_map. apply List.map_ext.
    intros l. apply set_source.
  - simpl. rewrite List.map_map. apply List.map_ext.
    intros l. apply set_target.
  - intros i l Hl. simpl. rewrite list_lookup_fmap, Hl. reflexivity.
  - intros earlier. apply updateTrafficIntensity_twice.
Qed.

(** ** Hovering, clicking and idling *)

Section InteractionFacts.
Import Interaction.

Context (data : NetworkData).

(** What every handler keeps true. *)
Let consistent (st : State) : Prop :=
  (hoveredNode st = None \/ hoveredLink st = None)
  /\ (selectedTarget st = None <-> selectedTooltip st = None).

Lemma initial_consistent : consistent initial.
Proof. split; [left; reflexivity|split; reflexivity]. Qed.

Lemma step_consistent (st : State) (e : Event) :
  consistent st -> consistent (step data st e).
Proof.
  intros [Hh Hs]. destruct e as [n|s t|n|s t|now|now|now]; simpl.
  - unfold handleNodeHover. destruct (autoTooltip st); [split; assumption|].
    split; [right; reflexivity|exact Hs].
  - unfold handleLinkHover. destruct (autoTooltip st); [split; assumption|].
    split; [left; reflexivity|exact Hs].
  - unfold handleNodeClick.
    destruct (CameraController.handleNodeClick (nodes data) n) as [[a b]|];
      [|split; assumption].
    split; [right; reflexivity|]. simpl. split; discriminate.
  - unfold handleLinkClick.
    destruct (CameraController.handleLinkClick (nodes data) s t) as [[a b]|];
      [|split; assumption].
    split; [left; reflexivity|]. simpl. split; discriminate.
  - split; assumption.
  - split; assumption.
  - unfold checkInactivity. destruct (Rlt_dec _ _); split; assumption.
Qed.

Lemma run_consistent (events : list Event) (st : State) :
  consistent st -> consistent (run data events st).
Proof.
  revert st. induction events as [|e events IH]; intros st Hst.
  - exact Hst.
  - apply IH. apply step_consistent. exact Hst.
Qed.

Lemma run_app (es1 es2 : list Event) (st : State) :
  run data (es1 ++ es2) st = run data es2 (run data es1 st).
Proof. unfold run. apply fold_left_app. Qed.

(** In auto mode pointing at things and checking for inactivity change
    nothing. *)
Lemma step_auto_ignored (st : State) (e : Event) :
  autoTooltip st = true ->
  isHoverEvent e = true \/ (exists now, e = CheckInactivity now) ->
  step data st e = st.
Proof.
  intros Ha [He|[now ->]].
  - destruct e; try discriminate He; simpl.
    + unfold handleNodeHover. rewrite Ha. reflexivity.
    + unfold handleLinkHover. rewrite Ha. reflexivity.
  - simpl. unfold checkInactivity.
    destruct (Rlt_dec _ _); [|reflexivity].
    destruct st; simpl in *. subst. reflexivity.
Qed.

(** Pointer events never touch the time of the last interaction, and can
    only switch auto mode off. *)
Lemma step_pointer_keeps_time (st : State) (e : Event) :
  isPointerEvent e = true ->
  lastInteraction (step data st e) = lastInteraction st
  /\ (autoTooltip st = false -> autoTooltip (step data st e) = false).
Proof.
  intros He. destruct e; try discriminate He; simpl.
  - unfold handleNodeHover.
    destruct (autoTooltip st) eqn:E;
      (split; [reflexivity|intros; simpl; congruence]).
  - unfold handleLinkHover.
    destruct (autoTooltip st) eqn:E;
      (split; [reflexivity|intros; simpl; congruence]).
  - unfold handleNodeClick.
    destruct (CameraController.handleNodeClick _ _) as [[a b]|];
      (split; [reflexivity|intros; simpl; congruence]).
  - unfold handleLinkClick.
    destruct (CameraController.handleLinkClick _ _ _) as [[a b]|];
      (split; [reflexivity|intros; simpl; congruence]).
Qed.

Lemma run_pointer_keeps_time (events : list Event) (st : State) :
  forallb isPointerEvent events = true ->
  autoTooltip st = false ->
  lastInteraction (run data events st) = lastInteraction st
  /\ autoTooltip (run data events st) = false.
Proof.
  revert st. induction events as [|e events IH]; intros st Hall Ha.
  - split; [reflexivity|exact Ha].
  - simpl in Hall. apply andb_true_iff in Hall. destruct Hall as [He Hall].
    destruct (step_pointer_keeps_time st e He) as [Ht Hoff].
    destruct (IH (step data st e) Hall (Hoff Ha)) as [Ht' Ha'].
    split; [|exact Ha'].
    change (run data (e :: events) st) with (run data events (step data st e)).
    rewrite Ht'. exact Ht.
Qed.

End InteractionFacts.

(** X8.  Whatever sequence of hover, click, mouse and timer events the
    view receives after its first render, a node and a link are never
    hovered at the same time, and the camera's target and tooltip
    positions are either both set or both unset. *)
Theorem hover_is_exclusive
    (data : Interaction.NetworkData) (events : list Interaction.Event) :
  let st := Interaction.run data events Interaction.initial in
  (Interaction.hoveredNode st = None \/ Interaction.hoveredLink st = None)
  /\ (Interaction.selectedTarget st = None
      <-> Interaction.selectedTooltip st = None).
Proof.
  intros st. apply (run_consistent data events Interaction.initial).
  apply initial_consistent.
Qed.

(** X9.  While the auto tooltip is on, pointing at nodes and links and
    the inactivity timer have no effect at all: after any sequence of such
    events the state is what it was, and the tooltip on show is still the
    auto-cycling one. *)
Theorem auto_mode_ignores_hover
    (data : Interaction.NetworkData) (events : list Interaction.Event)
    (st : Interaction.State)
    (autoTooltipData : option NetworkTooltip.AutoTooltipState) :
  Interaction.autoTooltip st = true ->
  Forall (fun e => Interaction.isHoverEvent e = true
                   \/ exists now, e = Interaction.CheckInactivity now) events ->
  Interaction.run data events st = st
  /\ Interaction.tooltipData data autoTooltipData
       (Interaction.run data events st)
     = autoTooltipData.
Proof.
  intros Ha Hall.
  assert (Hrun : Interaction.run data events st = st).
  { induction Hall as [|e events He Hall IH]; [reflexivity|].
    change (Interaction.run data (e :: events) st)
      with (Interaction.run data events (Interaction.step data st e)).
    rewrite (step_auto_ignored data st e Ha He). exact IH. }
  split; [exact Hrun|].
  rewrite Hrun. unfold Interaction.tooltipData. rewrite Ha. reflexivity.
Qed.

(** X9, at the first render of the sample topology. *)
Lemma auto_mode_ignores_hover_witness :
  Interaction.run
    (Interaction.mkNetworkData [Sample.nodeA; Sample.nodeB] [Sample.linkAB])
    [Interaction.NodeHover (Some "A"%string);
     Interaction.LinkHover "A" (Some "B"%string)]
    Interaction.initial
  = Interaction.initial.
Proof.
  apply (auto_mode_ignores_hover
           (Interaction.mkNetworkData [Sample.nodeA; Sample.nodeB]
              [Sample.linkAB])
           [Interaction.NodeHover (Some "A"%string);
            Interaction.LinkHover "A" (Some "B"%string)]
           Interaction.initial None).
  - reflexivity.
  - repeat constructor.
Defined.

(** X10.  After the mouse has moved at time [t0], events that point at or
    click on nodes and links neither bring back nor postpone the auto
    tooltip: the next inactivity check, at time [T], switches it on
    exactly when [T - t0 > 5000], however recent the last click was. *)
Theorem inactivity_ignores_clicks
    (data : Interaction.NetworkData) (events : list Interaction.Event)
    (st : Interaction.State) (t0 T : R) :
  forallb Interaction.isPointerEvent events = true ->
  let st1 :=
    Interaction.run data events (Interaction.handleMouseMove t0 st) in
  Interaction.autoTooltip st1 = false
  /\ Interaction.lastInteraction st1 = t0
  /\ (5000 < T - t0 ->
        Interaction.autoTooltip (Interaction.checkInactivity T st1) = true)
  /\ (T - t0 <= 5000 ->
        Interaction.checkInactivity T st1 = st1).
Proof.
  intros Hall st1.
  destruct (run_pointer_keeps_time data events
              (Interaction.handleMouseMove t0 st) Hall eq_refl) as [Ht Ha].
  fold st1 in Ht, Ha. simpl in Ht.
  split; [exact Ha|]. split; [exact Ht|]. split.
  - intros Hlate. unfold Interaction.checkInactivity. rewrite Ht.
    destruct (Rlt_dec 5000 (T - t0)); [reflexivity|contradiction].
  - intros Hearly. unfold Interaction.checkInactivity. rewrite Ht.
    destruct (Rlt_dec 5000 (T - t0)); [lra|reflexivity].
Qed.

(** X10, for a click on a node right after a mouse move at time 1000. *)
Lemma inactivity_ignores_clicks_witness :
  Interaction.autoTooltip
    (Interaction.run
       (Interaction.mkNetworkData [Sample.nodeA; Sample.nodeB] [Sample.linkAB])
       [Interaction.NodeClick "A"]
       (Interaction.handleMouseMove 1000 Interaction.initial))
  = false.
Proof.
  destruct (inactivity_ignores_clicks
              (Interaction.mkNetworkData [Sample.nodeA; Sample.nodeB]
                 [Sample.linkAB])
              [Interaction.NodeClick "A"] Interaction.initial 1000 7000
              eq_refl) as [H _].
  exact H.
Defined.

(** ** A click on a node *)

Lemma Vec3_normalize_multiplyScalar (v : Vector3) (c : R) :
  0 < c -> Vec3.normalize (Vec3.multiplyScalar v c) = Vec3.normalize v.
Proof.
  intros Hc.
  destruct (Req_dec_T (Vec3.length v) 0) as [E|NE].
  - apply Vec3_length_zero_iff in E. subst v.
    replace (Vec3.multiplyScalar Vec3.zero c) with Vec3.zero
      by (apply Vector3_eq; simpl; ring).
    reflexivity.
  - assert (Hl : Vec3.length (Vec3.multiplyScalar v c) = c * Vec3.length v).
    { rewrite Vec3_length_multiplyScalar, Rabs_pos_eq by lra. reflexivity. }
    pose proof (Vec3_length_nonneg v) as Hpos.
    rewrite (Vec3_normalize_nonzero v NE).
    rewrite Vec3_normalize_nonzero by (rewrite Hl; nra).
    rewrite Hl. apply Vector3_eq; simpl; field; split; lra.
Qed.

Lemma handleNodeClick_found (nodes : list Node) (nodeId : string) (n : Node) :
  findNode nodes nodeId = Some n ->
  CameraController.handleNodeClick nodes nodeId
  = Some (position n,
          NetworkTooltip.ensureOutsideSphere (position n)
            (Vec3.length (Vec3.ofTuple (position n)))
            NetworkTooltip.default_offset).
Proof.
  intros Hn. unfold CameraController.handleNodeClick. rewrite Hn.
  destruct (position n) as [[p0 p1] p2]. reflexivity.
Qed.

Lemma getHoverTooltipData_node
    (data : Interaction.NetworkData) (st : Interaction.State)
    (nodeId : string) (n : Node) :
  Interaction.hoveredNode st = Some nodeId ->
  nodeId <> ""%string ->
  findNode (Interaction.nodes data) nodeId = Some n ->
  exists tip : NetworkTooltip.AutoTooltipState,
    Interaction.getHoverTooltipData data st = Some tip
    /\ NetworkTooltip.tooltip_position tip
       = NetworkTooltip.ensureOutsideSphere (position n)
           (Vec3.length (Vec3.ofTuple (position n)))
           NetworkTooltip.default_offset
    /\ NetworkTooltip.tooltip_targetPosition tip = position n
    /\ NetworkTooltip.title (NetworkTooltip.tooltip_data tip)
       = ("Node " +:+ id n)%string.
Proof.
  intros Hh Hne Hn. unfold Interaction.getHoverTooltipData.
  rewrite Hh. simpl Interaction.truthy.
  destruct (String.eqb_spec nodeId "") as [E|_]; [contradiction|].
  simpl. rewrite Hn.
  destruct (position n) as [[p0 p1] p2] eqn:Hp.
  eexists. split; [reflexivity|]. simpl. repeat split; reflexivity.
Qed.

(** The camera position for a point and the point scaled by a positive
    factor is set by the direction of the point alone. *)
Lemma cameraPosition_radial (p : R * R * R) (c : R) :
  0 < c ->
  CameraController.cameraPosition p
    (Vec3.toTuple (Vec3.multiplyScalar (Vec3.ofTuple p) c))
  = Vec3.add
      (Vec3.multiplyScalar (Vec3.normalize (Vec3.ofTuple p)) (- 25))
      (mkVector3 0 10 0).
Proof.
  intros Hc. unfold CameraController.cameraPosition.
  rewrite Vec3_ofTuple_toTuple.
  replace (Vec3.multiplyScalar
             (Vec3.add (Vec3.ofTuple p)
                (Vec3.multiplyScalar (Vec3.ofTuple p) c)) (1 / 2))
    with (Vec3.multiplyScalar (Vec3.ofTuple p) ((1 + c) / 2))
    by (apply Vector3_eq; simpl; field).
  rewrite Vec3_normalize_multiplyScalar by lra.
  unfold CameraController.distance, CameraController.heightBias.
  apply Vector3_eq; simpl; ring.
Qed.

(** X11.  A click on a node with a known, non-empty id switches the auto
    tooltip off and pins the node: the tooltip on show is then the
    node's, anchored at one and a half times its position and pointing at
    it, and the camera is sent to [-25 * direction + (0, 10, 0)], where
    [direction] is the unit vector from the centre to the node, that is,
    to the far side of the sphere from the node. *)
Theorem node_click_pins_node
    (data : Interaction.NetworkData) (st : Interaction.State)
    (nodeId : string) (n : Node)
    (autoTooltipData : option NetworkTooltip.AutoTooltipState) :
  findNode (Interaction.nodes data) nodeId = Some n ->
  nodeId <> ""%string ->
  let st' := Interaction.handleNodeClick data nodeId st in
  Interaction.autoTooltip st' = false
  /\ Interaction.hoveredNode st' = Some nodeId
  /\ Interaction.hoveredLink st' = None
  /\ id n = nodeId
  /\ (exists tip : NetworkTooltip.AutoTooltipState,
         Interaction.tooltipData data autoTooltipData st' = Some tip
         /\ Vec3.ofTuple (NetworkTooltip.tooltip_position tip)
            = Vec3.multiplyScalar (Vec3.ofTuple (position n)) (3 / 2)
         /\ NetworkTooltip.tooltip_targetPosition tip = position n)
  /\ (exists targetPosition tooltipPosition : R * R * R,
         Interaction.selectedTarget st' = Some targetPosition
         /\ Interaction.selectedTooltip st' = Some tooltipPosition
         /\ CameraController.cameraPosition targetPosition tooltipPosition
            = Vec3.add
                (Vec3.multiplyScalar
                   (Vec3.normalize (Vec3.ofTuple (position n))) (- 25))
                (mkVector3 0 10 0)).
Proof.
  intros Hn Hne st'.
  assert (Hst : st' = Interaction.mkState (Some nodeId) None false
                        (Some (position n))
                        (Some (NetworkTooltip.ensureOutsideSphere (position n)
                                 (Vec3.length (Vec3.ofTuple (position n)))
                                 NetworkTooltip.default_offset))
                        (Interaction.lastInteraction st)).
  { unfold st', Interaction.handleNodeClick.
    rewrite (handleNodeClick_found _ _ _ Hn). reflexivity. }
  rewrite Hst. simpl.
  split; [reflexivity|]. split; [reflexivity|]. split; [reflexivity|].
  split; [apply (findNode_Some_id _ _ _ Hn)|]. split.
  - destruct (getHoverTooltipData_node data
                (Interaction.mkState (Some nodeId) None false
                   (Some (position n))
                   (Some (NetworkTooltip.ensureOutsideSphere (position n)
                            (Vec3.length (Vec3.ofTuple (position n)))
                            NetworkTooltip.default_offset))
                   (Interaction.lastInteraction st))
                nodeId n eq_refl Hne Hn) as (tip & Htip & Hpos & Htgt & _).
    exists tip. unfold Interaction.tooltipData. simpl.
    split; [exact Htip|]. split; [|exact Htgt].
    rewrite Hpos, ensureOutsideSphere_own_radius. reflexivity.
  - do 2 eexists. split; [reflexivity|]. split; [reflexivity|].
    rewrite <- (cameraPosition_radial (position n) (3 / 2)) by lra.
    f_equal. rewrite <- ensureOutsideSphere_own_radius.
    rewrite Vec3_toTuple_ofTuple. reflexivity.
Qed.

(** X11, for a click on node A of the sample topology. *)
Lemma node_click_pins_node_witness :
  Interaction.autoTooltip
    (Interaction.handleNodeClick
       (Interaction.mkNetworkData [Sample.nodeA; Sample.nodeB] [Sample.linkAB])
       "A" Interaction.initial)
  = false.
Proof.
  assert (Hne : "A"%string <> ""%string) by discriminate.
  destruct (node_click_pins_node
              (Interaction.mkNetworkData [Sample.nodeA; Sample.nodeB]
                 [Sample.linkAB])
              Interaction.initial "A" Sample.nodeA None eq_refl Hne)
    as [H _].
  exact H.
Defined.

(** ** Automatic rotation *)

Section AutoRotateFacts.
Import AutoRotate.

Lemma frame_on (now : R) (st : State) :
  autoRotate st = true -> isAutoRotating st = true -> frame now st = st.
Proof.
  intros Ha Hi. unfold frame. rewrite Hi. reflexivity.
Qed.

Lemma run_cons (e : Event) (events : list Event) (st : State) :
  run (e :: events) st = run events (step st e).
Proof. reflexivity. Qed.

Lemma frames_on (times : list R) (st : State) :
  autoRotate st = true -> isAutoRotating st = true ->
  run (map Frame times) st = st.
Proof.
  intros Ha Hi. induction times as [|t times IH]; [reflexivity|].
  simpl map. rewrite run_cons. simpl step.
  rewrite (frame_on t st Ha Hi). exact IH.
Qed.

Lemma frame_late (t t0 : R) :
  5000 < t - t0 ->
  frame t (mkState false false t0) = mkState true true t0.
Proof.
  intros H. unfold frame. simpl.
  destruct (Rlt_dec 5000 (t - t0)); [reflexivity|contradiction].
Qed.

Lemma frame_early (t t0 : R) :
  ~ 5000 < t - t0 ->
  frame t (mkState false false t0) = mkState false false t0.
Proof.
  intros H. unfold frame. simpl.
  destruct (Rlt_dec 5000 (t - t0)); [contradiction|reflexivity].
Qed.

(** After an interaction the rotation is back on exactly when one of the
    frames since came more than 5000 ms after it. *)
Lemma frames_after_interaction (times : list R) (t0 : R) :
  lastInteraction (run (map Frame times) (mkState false false t0)) = t0
  /\ (autoRotate (run (map Frame times) (mkState false false t0)) = true
      <-> Exists (fun t => 5000 < t - t0) times).
Proof.
  induction times as [|t times IH].
  - split; [reflexivity|].
    split; [discriminate|]. intros H. inversion H.
  - simpl map. rewrite run_cons. simpl step.
    destruct (Rlt_dec 5000 (t - t0)) as [Hlate|Hearly].
    + rewrite (frame_late t t0 Hlate).
      rewrite frames_on by reflexivity. simpl.
      split; [reflexivity|].
      split; [intros _; apply Exists_cons_hd; exact Hlate|reflexivity].
    + rewrite (frame_early t t0 Hearly).
      destruct IH as (Hl & Hiff).
      split; [exact Hl|].
      rewrite Hiff. split.
      * intros H. apply Exists_cons_tl. exact H.
      * intros H. inversion H; subst; [contradiction|assumption].
Qed.

Lemma step_sync (st : State) (e : Event) :
  isAutoRotating st = autoRotate st ->
  isAutoRotating (step st e) = autoRotate (step st e).
Proof.
  intros Hs. destruct e as [now|now]; simpl.
  - unfold handleInteraction. destruct (autoRotate st) eqn:E; simpl.
    + reflexivity.
    + exact Hs.
  - unfold frame.
    destruct (negb (isAutoRotating st) && _); [reflexivity|exact Hs].
Qed.

Lemma run_sync (events : list Event) (st : State) :
  isAutoRotating st = autoRotate st ->
  isAutoRotating (run events st) = autoRotate (run events st).
Proof.
  revert st. induction events as [|e events IH]; intros st Hs.
  - exact Hs.
  - apply (IH (step st e)). apply step_sync. exact Hs.
Qed.

End AutoRotateFacts.

(** X12.  From the moment [AutoRotate] is mounted, the [isAutoRotating]
    ref always agrees with [controls.autoRotate].  An interaction at time
    [t0] stops the rotation, and after any frames that follow it the
    rotation is on again exactly when one of them came more than 5000 ms
    after [t0]; frames leave the time of the last interaction alone. *)
Theorem auto_rotation_resumes_after_idle
    (events : list AutoRotate.Event) (mountTime t0 : R) (times : list R) :
  let st := AutoRotate.run events (AutoRotate.mounted mountTime) in
  let stopped := AutoRotate.handleInteraction t0 st in
  let later := AutoRotate.run (map AutoRotate.Frame times) stopped in
  AutoRotate.isAutoRotating st = AutoRotate.autoRotate st
  /\ AutoRotate.autoRotate stopped = false
  /\ AutoRotate.lastInteraction later = t0
  /\ (AutoRotate.autoRotate later = true
      <-> Exists (fun t => 5000 < t - t0) times).
Proof.
  intros st stopped later.
  assert (Hsync : AutoRotate.isAutoRotating st = AutoRotate.autoRotate st)
    by (apply run_sync; reflexivity).
  assert (Hstop : stopped = AutoRotate.mkState false false t0).
  { unfold stopped, AutoRotate.handleInteraction.
    destruct (AutoRotate.autoRotate st) eqn:E; [reflexivity|].
    rewrite Hsync. reflexivity. }
  split; [exact Hsync|]. split; [rewrite Hstop; reflexivity|].
  unfold later. rewrite Hstop.
  destruct (frames_after_interaction times t0) as (Hl & Hiff).
  split; [exact Hl|exact Hiff].
Qed.

(** ** Which links are rendered *)

Lemma nodeRefs_known
    (centre : string -> option Vector3) (nodes : list Node) (key : string) :
  key ∈ map id nodes -> Scene.nodeRefs centre nodes !! key = Some (centre key).
Proof.
  intros Hin. unfold Scene.nodeRefs.
  apply list_elem_of_fmap in Hin. destruct Hin as (n & -> & Hn).
  apply elem_of_list_to_map_1'.
  - intros y Hy. apply list_elem_of_fmap in Hy.
    destruct Hy as (n' & E & _). injection E as E1 E2.
    rewrite E2, E1. reflexivity.
  - apply list_elem_of_fmap. exists n. split; [reflexivity|exact Hn].
Qed.

Lemma updatePositions_known
    (centre : string -> option Vector3) (nodes : list Node) (key : string) :
  key ∈ map id nodes ->
  Scene.updatePositions (Scene.nodeRefs centre nodes) !! key = centre key.
Proof.
  intros Hin. unfold Scene.updatePositions.
  rewrite lookup_omap, nodeRefs_known by exact Hin. reflexivity.
Qed.

Lemma updatePositions_Some
    (centre : string -> option Vector3) (nodes : list Node)
    (key : string) (v : Vector3) :
  Scene.updatePositions (Scene.nodeRefs centre nodes) !! key = Some v ->
  key ∈ map id nodes /\ centre key = Some v.
Proof.
  intros H.
  destruct (decide (key ∈ map id nodes)) as [Hin|Hnot].
  - split; [exact Hin|]. rewrite updatePositions_known in H by exact Hin.
    exact H.
  - rewrite updatePositions_unknown in H by exact Hnot. discriminate H.
Qed.

(** X13.  After a poll of the node refs a link is rendered exactly when
    both its ends are ids of nodes whose refs are attached, and it is then
    drawn between the centres those two nodes report, with the link's own
    intensity; before the first poll no link is rendered. *)
Theorem link_rendered_iff
    (centre : string -> option Vector3) (nodes : list Node)
    (hovered : option (string * string)) (dark : bool) (l : Link) :
  let polled := Scene.updatePositions (Scene.nodeRefs centre nodes) in
  (is_Some (Scene.renderLink polled hovered dark l)
   <-> source l ∈ map id nodes /\ target l ∈ map id nodes
       /\ is_Some (centre (source l)) /\ is_Some (centre (target l)))
  /\ (forall props : Scene.NetworkLinkProps,
         Scene.renderLink polled hovered dark l = Some props ->
         centre (source l) = Some (Scene.link_start props)
         /\ centre (target l) = Some (Scene.link_end props)
         /\ Scene.link_trafficIntensity props = trafficIntensity l
         /\ Scene.link_sourceId props = source l
         /\ Scene.link_targetId props = target l)
  /\ Scene.renderLink Scene.initialNodePositions hovered dark l = None.
Proof.
  intros polled. split; [|split].
  - unfold Scene.renderLink. split.
    + intros [props H].
      destruct (polled !! source l) as [a|] eqn:Ea; [|discriminate H].
      destruct (polled !! target l) as [b|] eqn:Eb; [|discriminate H].
      apply updatePositions_Some in Ea. apply updatePositions_Some in Eb.
      destruct Ea as [Hs Hcs], Eb as [Ht Hct].
      rewrite Hcs, Hct. repeat split; try assumption; eexists; reflexivity.
    + intros (Hs & Ht & [a Ha] & [b Hb]).
      unfold polled. rewrite !updatePositions_known by assumption.
      rewrite Ha, Hb. eexists. reflexivity.
  - intros props H. unfold Scene.renderLink in H.
    destruct (polled !! source l) as [a|] eqn:Ea; [|discriminate H].
    destruct (polled !! target l) as [b|] eqn:Eb; [|discriminate H].
    apply updatePositions_Some in Ea. apply updatePositions_Some in Eb.
    destruct Ea as [Hs Hcs], Eb as [Ht Hct].
    injection H as <-. simpl. repeat split; assumption.
  - unfold Scene.renderLink, Scene.initialNodePositions.
    rewrite lookup_empty. reflexivity.
Qed.

(** ** Topologies without links *)

(** X14.  With at least one node and no links the auto-cycle runs over
    the nodes alone: no call throws, and after call [k] the tooltip on
    show is that of node [(k + 1) mod n], [n] being the number of nodes.
    With neither nodes nor links the effect schedules nothing and the hook
    keeps returning [null]. *)
Theorem tooltip_cycle_without_links (nodes : list Node) (k : nat) :
  ((0 < List.length nodes)%nat ->
     exists n : Node,
       nodes !! ((k + 1) mod List.length nodes)%nat = Some n
       /\ NetworkTooltip.indexAtCall nodes [] k
          = Some ((k + 1) mod List.length nodes)%nat
       /\ NetworkTooltip.displayedAtCall nodes [] k
          = Some (NetworkTooltip.nodeTooltip n))
  /\ NetworkTooltip.useEffect_run [] [] k NetworkTooltip.initialState
     = Return NetworkTooltip.initialState
  /\ NetworkTooltip.displayedAtCall [] [] k = None.
Proof.
  split; [|split; reflexivity].
  intros Hpos.
  assert (Htot : (0 < List.length nodes + List.length (@nil Link))%nat)
    by (simpl; lia).
  assert (Hlen : (List.length nodes + List.length (@nil Link))%nat
                 = List.length nodes) by (simpl; lia).
  assert (Hlt : ((k + 1) mod List.length nodes < List.length nodes)%nat)
    by (apply Nat.mod_upper_bound; lia).
  destruct (lookup_lt_is_Some_2 nodes _ Hlt) as [n Hn].
  exists n. split; [exact Hn|]. split.
  - rewrite (indexAtCall_eq nodes [] k Htot), Hlen. reflexivity.
  - apply (displayedAtCall_visited nodes [] k (NetworkTooltip.ENode n) _ Htot);
      [|reflexivity].
    rewrite (visitedAtCall_eq nodes [] k Htot), Hlen.
    apply entities_lookup_node. exact Hn.
Qed.

(** X14, for a single node: every call shows that node. *)
Lemma tooltip_cycle_without_links_witness :
  NetworkTooltip.displayedAtCall [Sample.nodeA] [] 5
  = Some (NetworkTooltip.nodeTooltip Sample.nodeA).
Proof.
  destruct (tooltip_cycle_without_links [Sample.nodeA] 5) as [H _].
  destruct H as (n & Hn & _ & Hd); [simpl; lia|].
  rewrite Hd. simpl in Hn. injection Hn as <-. reflexivity.
Defined.

(** ** The particles memo *)

Section MemoFacts.
Import TrafficFlow Particles.

Context (fround : R -> R) (random : RandomSource).
Context (start end_ : R * R * R) (intensity : Intensity).

Let n : nat := count (getIntensityParams intensity).






(** Three writes at [3i], [3i + 1], [3i + 2] read back, and leave the
    entries of the other particles alone. *)
Lemma triple_insert_lookup (positions : list R) (i : nat) (x y z : R) :
  (i * 3 + 2 < List.length positions)%nat ->
  let positions' :=
    <[(i * 3 + 2)%nat := z]>
      (<[(i * 3 + 1)%nat := y]> (<[(i * 3)%nat := x]> positions)) in
  positions' !! (i * 3)%nat = Some x
  /\ positions' !! (i * 3 + 1)%nat = Some y
  /\ positions' !! (i * 3 + 2)%nat = Some z
  /\ (forall (j c : nat), j <> i -> (c < 3)%nat ->
         positions' !! (j * 3 + c)%nat = positions !! (j * 3 + c)%nat).
Proof.
  clear n.
  intros Hlen positions'. unfold positions'.
  split; [|split; [|split]].
  - rewrite !list_lookup_insert_ne by lia.
    apply list_lookup_insert_eq. lia.
  - rewrite list_lookup_insert_ne by lia.
    apply list_lookup_insert_eq. rewrite length_insert. lia.
  - apply list_lookup_insert_eq. rewrite !length_insert. lia.
  - intros j c Hj Hc. rewrite !list_lookup_insert_ne by lia. reflexivity.
Qed.




End MemoFacts.


(** ** What a frame keeps true *)

Section FrameFacts.
Import TrafficFlow Particles.

Context (fround : R -> R) (random : RandomSource).
Context (start end_ : R * R * R) (intensity : Intensity).

Lemma length_frame_body (delta : R) (i : nat) (b : Buffers) :
  List.length (b_positions (frame_body fround random start end_ intensity delta i b))
  = List.length (b_positions b)
  /\ List.length (b_progress (frame_body fround random start end_ intensity delta i b))
     = List.length (b_progress b)
  /\ List.length (b_offsets (frame_body fround random start end_ intensity delta i b))
     = List.length (b_offsets b).
Proof.
  unfold frame_body.
  destruct (b_progress b !! i), (b_offsets b !! i); simpl;
    rewrite ?length_insert; repeat split; reflexivity.
Qed.

Lemma frame_body_written (delta : R) (i : nat) (b : Buffers) :
  (i < List.length (b_progress b))%nat ->
  (i < List.length (b_offsets b))%nat ->
  (i * 3 + 2 < List.length (b_positions b))%nat ->
  written_upto fround start end_
    (b_progress b) (b_offsets b) (b_positions b) i ->
  let b' := frame_body fround random start end_ intensity delta i b in
  written_upto fround start end_
    (b_progress b') (b_offsets b') (b_positions b') (S i).
Proof.
  intros Hp Ho Hlen Hw b'.
  destruct (lookup_lt_is_Some_2 _ i Hp) as [p Ep].
  destruct (lookup_lt_is_Some_2 _ i Ho) as [o Eo].
  unfold b', frame_body. rewrite Ep, Eo.
  cbv zeta. cbn [b_progress b_offsets b_positions].
  set (p2 := if Rlt_dec 1 _ then 0 else _).
  set (o2 := if Rlt_dec 1 _ then fst _ else o).
  set (point := getGreatCirclePoint _ _ p2 _ (Some o2)).
  replace (S (S (i * 3))) with (i * 3 + 2)%nat by lia.
  replace (S (i * 3)) with (i * 3 + 1)%nat by lia.
  destruct (triple_insert_lookup (b_positions b) i
              (fround (vx point)) (fround (vy point)) (fround (vz point)) Hlen)
    as (H0 & H1 & H2 & Hother).
  intros j Hj. destruct (Nat.eq_dec j i) as [-> | Hne].
  - exists p2, o2.
    split; [apply list_lookup_insert_eq; exact Hp|].
    split; [apply list_lookup_insert_eq; exact Ho|].
    split; [exact H0|]. split; [exact H1|exact H2].
  - destruct (Hw j ltac:(lia)) as (p' & o' & Ep' & Eo' & W0 & W1 & W2).
    exists p', o'.
    split; [rewrite list_lookup_insert_ne by lia; exact Ep'|].
    split; [rewrite list_lookup_insert_ne by lia; exact Eo'|].
    pose proof (Hother j 0%nat Hne ltac:(lia)) as O0.
    pose proof (Hother j 1%nat Hne ltac:(lia)) as O1.
    pose proof (Hother j 2%nat Hne ltac:(lia)) as O2.
    rewrite Nat.add_0_r in O0.
    cbv zeta.
    split; [rewrite O0; exact W0|].
    split; [rewrite O1; exact W1|rewrite O2; exact W2].
Qed.

Lemma frame_loop_written (delta : R) (m k i : nat) (b : Buffers) :
  List.length (b_progress b) = m ->
  List.length (b_offsets b) = m ->
  List.length (b_positions b) = (m * 3)%nat ->
  (i + k <= m)%nat ->
  written_upto fround start end_
    (b_progress b) (b_offsets b) (b_positions b) i ->
  let b' := frame_loop fround random start end_ intensity delta k i b in
  List.length (b_positions b') = (m * 3)%nat
  /\ written_upto fround start end_
       (b_progress b') (b_offsets b') (b_positions b') (i + k).
Proof.
  revert i b. induction k as [|k IH]; intros i b Hp Ho Hl Hle Hw.
  - simpl. rewrite Nat.add_0_r. split; assumption.
  - simpl.
    destruct (length_frame_body delta i b) as (L1 & L2 & L3).
    replace (i + S k)%nat with (S i + k)%nat by lia.
    apply IH; try lia.
    apply frame_body_written; try lia. exact Hw.
Qed.

End FrameFacts.

(** With an offset the point is pushed sideways, then brought back to the
    sphere. *)
Lemma offset_point_length
    (start end_ : Vector3) (t radius : R) (offset : Vector3) :
  0 < radius ->
  Vec3.length
    (TrafficFlow.getGreatCirclePoint start end_ t radius (Some offset))
  = radius.
Proof.
  intros Hr. unfold TrafficFlow.getGreatCirclePoint.
  set (point := Vec3.multiplyScalar (applyQuaternion Vec3.up _) radius).
  set (tangent := Vec3.normalize (Vec3.sub end_ start)).
  set (perpendicular := Vec3.normalize (Vec3.crossVectors point tangent)).
  set (c := Vec3.length offset * (1 / 10)).
  set (moved := Vec3.add point (Vec3.multiplyScalar perpendicular c)).
  assert (Hpoint : Vec3.lengthSq point = radius * radius)
    by apply slerp_point_lengthSq.
  assert (Hmoved : moved <> Vec3.zero).
  { intros E.
    assert (Hsq : Vec3.lengthSq moved = 0)
      by (rewrite E; unfold Vec3.lengthSq, Vec3.zero; simpl; ring).
    unfold moved in Hsq.
    rewrite Vec3_lengthSq_add_scaled, Hpoint in Hsq.
    unfold perpendicular in Hsq at 1.
    rewrite crossVectors_normalize_orthogonal in Hsq.
    pose proof (Vec3_lengthSq_nonneg perpendicular).
    assert (0 <= c * c) by nra.
    assert (0 <= c * c * Vec3.lengthSq perpendicular) by nra.
    nra. }
  rewrite Vec3_length_multiplyScalar, Vec3_normalize_length by exact Hmoved.
  rewrite Rabs_pos_eq by lra. ring.
Qed.

(** X16.  A frame keeps every particle's progress at most 1, whatever it
    was before: a value above 1 is replaced by 0 and any other is kept.
    If moreover rounding keeps non-negative numbers non-negative, the
    clock has not gone back and progress was non-negative, it stays
    non-negative; so progress lives in the closed interval [[0, 1]]. *)
Theorem frame_keeps_progress_in_unit_interval
    (fround : R -> R) (random : TrafficFlow.RandomSource)
    (start end_ : R * R * R) (intensity : Intensity)
    (time : R) (s : TrafficFlow.Refs)
    (positions prog : list R) (offs : list Vector3) :
  TrafficFlow.points s = Some positions ->
  TrafficFlow.progress s = Some prog ->
  TrafficFlow.offsets s = Some offs ->
  List.length prog = TrafficFlow.count (TrafficFlow.getIntensityParams intensity) ->
  List.length offs = TrafficFlow.count (TrafficFlow.getIntensityParams intensity) ->
  let s' :=
    TrafficFlow.useFrame_callback fround random start end_ intensity time s in
  exists prog' : list R,
    TrafficFlow.progress s' = Some prog'
    /\ Forall (fun p => p <= 1) prog'
    /\ ((forall x : R, 0 <= x -> 0 <= fround x) ->
        TrafficFlow.lastTime s <= time ->
        Forall (fun p => 0 <= p) prog ->
        Forall (fun p => 0 <= p <= 1) prog').
Proof.
  intros Hpts Hprog Hoffs Hlp Hlo s'.
  assert (Hsame : List.length prog = List.length offs) by congruence.
  set (delta := TrafficFlow.frameDelta s time).
  pose proof (frame_loop_processed fround random start end_ intensity
                delta prog offs (TrafficFlow.randomCalls s) Hsame
                (List.length prog) 0
                (TrafficFlow.mkBuffers positions prog offs
                   (TrafficFlow.randomCalls s))
                (Nat.le_refl _)
                (processed_start fround random intensity delta prog offs
                   (TrafficFlow.randomCalls s) Hsame positions)) as Hinv.
  simpl in Hinv.
  set (b := TrafficFlow.frame_loop fround random start end_ intensity delta
              (List.length prog) 0
              (TrafficFlow.mkBuffers positions prog offs
                 (TrafficFlow.randomCalls s))) in Hinv.
  assert (Hs' : TrafficFlow.progress s' = Some (TrafficFlow.b_progress b)).
  { unfold s', TrafficFlow.useFrame_callback.
    rewrite Hpts, Hprog, Hoffs, <- Hlp. reflexivity. }
  destruct Hinv as [Hbl _ _ Hdp _ _ _].
  exists (TrafficFlow.b_progress b). split; [exact Hs'|].
  assert (Hvalue : forall j q,
             TrafficFlow.b_progress b !! j = Some q ->
             exists p, prog !! j = Some p
               /\ q = if TrafficFlow.wraps fround intensity delta p then 0
                      else TrafficFlow.advanced fround intensity delta p).
  { intros j q Hq.
    assert (Hj : (j < List.length prog)%nat)
      by (rewrite <- Hbl; eapply lookup_lt_Some; exact Hq).
    destruct (lookup_lt_is_Some_2 prog j Hj) as [p Hp].
    exists p. split; [exact Hp|].
    rewrite (Hdp j p Hj Hp) in Hq. injection Hq as <-. reflexivity. }
  split.
  - apply Forall_lookup. intros j q Hq.
    destruct (Hvalue j q Hq) as (p & _ & ->).
    unfold TrafficFlow.wraps, TrafficFlow.advanced.
    destruct (Rlt_dec 1 _); lra.
  - intros Hround Htime Hnonneg.
    apply Forall_lookup. intros j q Hq.
    destruct (Hvalue j q Hq) as (p & Hp & ->).
    assert (H0 : 0 <= p)
      by (rewrite Forall_lookup in Hnonneg; apply (Hnonneg j p Hp)).
    assert (Hd : 0 <= delta).
    { unfold delta, TrafficFlow.frameDelta.
      destruct (Req_dec_T (TrafficFlow.lastTime s) 0); lra. }
    assert (Hs : 0 <= TrafficFlow.speed (TrafficFlow.getIntensityParams intensity))
      by (destruct intensity; simpl; lra).
    unfold TrafficFlow.wraps, TrafficFlow.advanced.
    destruct (Rlt_dec 1 _) as [|Hle]; [lra|].
    split; [|lra]. apply Hround.
    assert (0 <= TrafficFlow.speed (TrafficFlow.getIntensityParams intensity)
                 * delta) by (apply Rmult_le_pos; assumption).
    lra.
Qed.

(** X16, at the first frame of the sample flow. *)
Lemma frame_keeps_progress_in_unit_interval_witness :
  exists prog' : list R,
    TrafficFlow.progress
      (TrafficFlow.useFrame_callback (fun x => x) (fun _ => 1 / 2)
         (1, 0, 0) (0, 1, 0) low 1 Sample.flowRefs)
    = Some prog'
    /\ Forall (fun p => p <= 1) prog'.
Proof.
  destruct (frame_keeps_progress_in_unit_interval
              (fun x => x) (fun _ => 1 / 2)
              (1, 0, 0) (0, 1, 0) low 1 Sample.flowRefs
              (replicate 60 0) (replicate 20 (1 / 2))
              (replicate 20 Vec3.zero)
              eq_refl eq_refl eq_refl eq_refl eq_refl)
    as (prog' & Hp & Hle & _).
  exists prog'. split; [exact Hp|exact Hle].
Defined.

(** X17.  After a frame of a mounted flow whose position array has
    [3 * count] entries, the array holds for every particle the rounded
    coordinates of the point computed from the particle's new progress
    and offset, and when the flow's start point is not the centre every
    such point lies on the sphere through the start point. *)
Theorem frame_writes_positions
    (fround : R -> R) (random : TrafficFlow.RandomSource)
    (start end_ : R * R * R) (intensity : Intensity)
    (time : R) (s : TrafficFlow.Refs)
    (positions prog : list R) (offs : list Vector3) :
  let n := TrafficFlow.count (TrafficFlow.getIntensityParams intensity) in
  TrafficFlow.points s = Some positions ->
  TrafficFlow.progress s = Some prog ->
  TrafficFlow.offsets s = Some offs ->
  List.length prog = n -> List.length offs = n ->
  List.length positions = (n * 3)%nat ->
  let s' :=
    TrafficFlow.useFrame_callback fround random start end_ intensity time s in
  exists (positions' prog' : list R) (offs' : list Vector3),
    TrafficFlow.points s' = Some positions'
    /\ TrafficFlow.progress s' = Some prog'
    /\ TrafficFlow.offsets s' = Some offs'
    /\ List.length positions' = (n * 3)%nat
    /\ Particles.written_upto fround start end_ prog' offs' positions' n
    /\ (0 < TrafficFlow.sphereRadius start ->
        forall (p : R) (o : Vector3),
          Vec3.length
            (TrafficFlow.getGreatCirclePoint
               (TrafficFlow.startVec start) (TrafficFlow.endVec end_) p
               (TrafficFlow.sphereRadius start) (Some o))
          = TrafficFlow.sphereRadius start).
Proof.
  intros n Hpts Hprog Hoffs Hlp Hlo Hlpos s'.
  set (delta := if Req_dec_T (TrafficFlow.lastTime s) 0 then 0
                else time - TrafficFlow.lastTime s).
  set (b0 := TrafficFlow.mkBuffers positions prog offs
               (TrafficFlow.randomCalls s)).
  set (b := TrafficFlow.frame_loop fround random start end_ intensity delta
              n 0 b0).
  assert (Hs' : s' = TrafficFlow.mkRefs
                       (Some (TrafficFlow.b_positions b)) time
                       (Some (TrafficFlow.b_progress b))
                       (Some (TrafficFlow.b_offsets b))
                       (TrafficFlow.b_calls b)).
  { unfold s', TrafficFlow.useFrame_callback.
    rewrite Hpts, Hprog, Hoffs. reflexivity. }
  destruct (frame_loop_written fround random start end_ intensity delta
              n n 0 b0 Hlp Hlo Hlpos (Nat.le_refl _))
    as [Hlen Hw].
  { intros j Hj. lia. }
  exists (TrafficFlow.b_positions b), (TrafficFlow.b_progress b),
         (TrafficFlow.b_offsets b).
  rewrite Hs'. simpl.
  split; [reflexivity|]. split; [reflexivity|]. split; [reflexivity|].
  split; [exact Hlen|]. split; [exact Hw|].
  intros Hr p o. apply offset_point_length. exact Hr.
Qed.

(** X17, at the first frame of the sample flow. *)
Lemma frame_writes_positions_witness :
  exists positions' : list R,
    TrafficFlow.points
      (TrafficFlow.useFrame_callback (fun x => x) (fun _ => 1 / 2)
         (1, 0, 0) (0, 1, 0) low 1 Sample.flowRefs)
    = Some positions'
    /\ List.length positions' = 60%nat.
Proof.
  destruct (frame_writes_positions
              (fun x => x) (fun _ => 1 / 2)
              (1, 0, 0) (0, 1, 0) low 1 Sample.flowRefs
              (replicate 60 0) (replicate 20 (1 / 2))
              (replicate 20 Vec3.zero)
              eq_refl eq_refl eq_refl eq_refl eq_refl eq_refl)
    as (positions' & prog' & offs' & Hp & _ & _ & Hl & _).
  exists positions'. split; [exact Hp|exact Hl].
Defined.


(** ** The floating motion of a node *)

Lemma floatOffset_bound (t : R) : Rabs (NetworkNode.floatOffset t) <= 1 / 10.
Proof.
  unfold NetworkNode.floatOffset.
  pose proof (SIN_bound (t * (1 / 2))) as [Hlo Hhi].
  apply Rabs_le. lra.
Qed.

Lemma framePosition_scaled (position : R * R * R) (t : R) :
  Vec3.ofTuple position <> Vec3.zero ->
  NetworkNode.framePosition position t
  = Vec3.multiplyScalar (Vec3.ofTuple position)
      (1 + NetworkNode.floatOffset t / Vec3.length (Vec3.ofTuple position)).
Proof.
  intros Hnz.
  assert (Hl : Vec3.length (Vec3.ofTuple position) <> 0)
    by (intros E; apply Hnz, Vec3_length_zero_iff, E).
  unfold NetworkNode.framePosition.
  rewrite (Vec3_normalize_nonzero _ Hl).
  destruct position as [[x y] z].
  apply Vector3_eq; simpl in *; field; exact Hl.
Qed.

(** X18.  A mounted node floats along its own radius: at every time its
    group sits on the line through the centre and the node's position, at
    distance [|sin(t / 2)| / 10], hence at most 0.1, from that position;
    for a node at least 0.1 from the centre the distance of the group from
    the centre is the node's plus [sin(t / 2) / 10].  A node placed at the
    centre does not move. *)
Theorem node_floats_along_radius (position : R * R * R) (t : R) :
  let p := Vec3.ofTuple position in
  let L := Vec3.length p in
  p <> Vec3.zero ->
  NetworkNode.framePosition position t
  = Vec3.multiplyScalar p (1 + NetworkNode.floatOffset t / L)
  /\ Vec3.distanceTo (NetworkNode.framePosition position t) p
     = Rabs (NetworkNode.floatOffset t)
  /\ Rabs (NetworkNode.floatOffset t) <= 1 / 10
  /\ (1 / 10 <= L ->
      Vec3.length (NetworkNode.framePosition position t)
      = L + NetworkNode.floatOffset t)
  /\ (forall t' : R, NetworkNode.framePosition (0, 0, 0) t' = Vec3.zero).
Proof.
  intros p L Hnz.
  assert (HL : L <> 0) by (intros E; apply Hnz, Vec3_length_zero_iff, E).
  assert (HLpos : 0 < L) by (pose proof (Vec3_length_nonneg p); fold L in H; lra).
  pose proof (floatOffset_bound t) as Hb.
  set (f := NetworkNode.floatOffset t) in *.
  assert (Hsc : NetworkNode.framePosition position t
                = Vec3.multiplyScalar p (1 + f / L))
    by (apply framePosition_scaled; exact Hnz).
  split; [exact Hsc|].
  split.
  { rewrite Hsc. unfold Vec3.distanceTo, Vec3.multiplyScalar. simpl.
    replace ((vx p * (1 + f / L) - vx p) * (vx p * (1 + f / L) - vx p)
             + (vy p * (1 + f / L) - vy p) * (vy p * (1 + f / L) - vy p)
             + (vz p * (1 + f / L) - vz p) * (vz p * (1 + f / L) - vz p))
      with ((f / L) * (f / L) * Vec3.lengthSq p)
      by (unfold Vec3.lengthSq; ring).
    rewrite <- Vec3_length_sq. fold L.
    replace (f / L * (f / L) * (L * L)) with (f * f) by (field; exact HL).
    replace (f * f) with (Rsqr f) by reflexivity.
    apply sqrt_Rsqr_abs. }
  split; [exact Hb|].
  split.
  { intros Hfar. rewrite Hsc, Vec3_length_multiplyScalar. fold L.
    assert (Hf : - (1 / 10) <= f) by (unfold Rabs in Hb; destruct (Rcase_abs f); lra).
    assert (Hq : 0 <= 1 + f / L).
    { apply Rmult_le_reg_r with L; [exact HLpos|].
      replace ((1 + f / L) * L) with (L + f) by (field; exact HL). lra. }
    rewrite Rabs_pos_eq by exact Hq. field. exact HL. }
  intros t'. unfold NetworkNode.framePosition.
  change (Vec3.ofTuple (0, 0, 0)) with Vec3.zero.
  rewrite Vec3_normalize_zero.
  apply Vector3_eq; simpl; ring.
Qed.

(** X18, for the node at [(0, 5, 0)] at time [0]. *)
Lemma node_floats_along_radius_witness :
  Vec3.ofTuple (0, 5, 0) <> Vec3.zero
  /\ Rabs (NetworkNode.floatOffset 0) <= 1 / 10.
Proof.
  assert (Hnz : Vec3.ofTuple (0, 5, 0) <> Vec3.zero).
  { intros E. apply (f_equal vy) in E. simpl in E. lra. }
  split; [exact Hnz|].
  exact (proj1 (proj2 (proj2 (node_floats_along_radius (0, 5, 0) 0 Hnz)))).
Defined.


(** ** The chord-interpolating revision of [TrafficFlow] *)

Lemma Vec3_normalize_pos_scalar (v : Vector3) :
  exists k : R, 0 < k /\ Vec3.normalize v = Vec3.multiplyScalar v k.
Proof.
  unfold Vec3.normalize, Vec3.divideScalar.
  destruct (Req_dec_T (Vec3.length v) 0) as [E | N].
  - exists (1 / 1). split; [lra|reflexivity].
  - exists (1 / Vec3.length v). split; [|reflexivity].
    pose proof (Vec3_length_nonneg v).
    apply Rdiv_lt_0_compat; lra.
Qed.

Lemma Vec3_normalize_unit (v : Vector3) :
  Vec3.lengthSq v = 1 -> Vec3.normalize v = v.
Proof.
  intros H.
  assert (Hl : Vec3.length v = 1)
    by (apply Vec3_length_of_sq; [lra|rewrite H; ring]).
  rewrite Vec3_normalize_nonzero by (rewrite Hl; lra).
  rewrite Hl. destruct v as [x y z].
  apply Vector3_eq; simpl; field.
Qed.

Lemma lerp_zero_only_at_opposite_midpoint (u v : Vector3) (t : R) :
  Vec3.lengthSq u = 1 -> Vec3.lengthSq v = 1 ->
  TrafficFlowLerp.lerpVectors u v t = Vec3.zero ->
  t = 1 / 2 /\ v = Vec3.multiplyScalar u (- 1).
Proof.
  intros Hu Hv E.
  pose proof (f_equal vx E) as Ex.
  pose proof (f_equal vy E) as Ey.
  pose proof (f_equal vz E) as Ez.
  destruct u as [ux uy uz], v as [wx wy wz].
  unfold Vec3.lengthSq in Hu, Hv. simpl in *.
  assert (Ht : (1 - t) * (1 - t) = t * t).
  { assert (Ax : (1 - t) * ux = - (t * wx)) by lra.
    assert (Ay : (1 - t) * uy = - (t * wy)) by lra.
    assert (Az : (1 - t) * uz = - (t * wz)) by lra.
    assert (Hs : ((1 - t) * ux) * ((1 - t) * ux)
                 + ((1 - t) * uy) * ((1 - t) * uy)
                 + ((1 - t) * uz) * ((1 - t) * uz)
                 = (t * wx) * (t * wx) + (t * wy) * (t * wy)
                   + (t * wz) * (t * wz))
      by (rewrite Ax, Ay, Az; ring).
    replace (((1 - t) * ux) * ((1 - t) * ux)
             + ((1 - t) * uy) * ((1 - t) * uy)
             + ((1 - t) * uz) * ((1 - t) * uz))
      with ((1 - t) * (1 - t) * (ux * ux + uy * uy + uz * uz)) in Hs by ring.
    replace ((t * wx) * (t * wx) + (t * wy) * (t * wy) + (t * wz) * (t * wz))
      with (t * t * (wx * wx + wy * wy + wz * wz)) in Hs by ring.
    rewrite Hu, Hv in Hs. lra. }
  assert (Hhalf : t = 1 / 2) by lra.
  split; [exact Hhalf|].
  subst t. apply Vector3_eq; simpl; lra.
Qed.

(** X19.  The chord-interpolating [getGreatCirclePoint], for non-zero
    [start] and [end]: at [t = 0] and [t = 1] it returns the directions of
    [start] and [end] at distance [radius]; swapping the ends and
    replacing [t] by [1 - t] gives the same point; the point is always a
    combination [a * start + b * end], with [a, b >= 0] when
    [0 <= t <= 1] and [radius >= 0], so it lies on the great-circle arc
    between the two directions; and it lies on the sphere of radius
    [|radius|] except in exactly one case, [t = 1/2] with [start] and
    [end] in opposite directions, where it is the centre. *)
Theorem lerp_great_circle_point (start end_ : Vector3) (t radius : R) :
  start <> Vec3.zero -> end_ <> Vec3.zero ->
  let point := TrafficFlowLerp.getGreatCirclePoint start end_ t radius in
  TrafficFlowLerp.getGreatCirclePoint start end_ 0 radius
  = Vec3.multiplyScalar (Vec3.normalize start) radius
  /\ TrafficFlowLerp.getGreatCirclePoint start end_ 1 radius
     = Vec3.multiplyScalar (Vec3.normalize end_) radius
  /\ TrafficFlowLerp.getGreatCirclePoint end_ start (1 - t) radius = point
  /\ (exists a b : R,
        point = Vec3.add (Vec3.multiplyScalar start a)
                         (Vec3.multiplyScalar end_ b)
        /\ (0 <= t <= 1 -> 0 <= radius -> 0 <= a /\ 0 <= b))
  /\ (Vec3.length point = Rabs radius
      \/ (t = 1 / 2
          /\ Vec3.normalize end_
             = Vec3.multiplyScalar (Vec3.normalize start) (- 1)
          /\ point = Vec3.zero)).
Proof.
  intros Hs He point.
  pose proof (Vec3_normalize_lengthSq start Hs) as Hu.
  pose proof (Vec3_normalize_lengthSq end_ He) as Hv.
  split.
  { unfold TrafficFlowLerp.getGreatCirclePoint.
    replace (TrafficFlowLerp.lerpVectors (Vec3.normalize start)
               (Vec3.normalize end_) 0)
      with (Vec3.normalize start)
      by (unfold TrafficFlowLerp.lerpVectors;
          apply Vector3_eq; simpl; ring).
    rewrite (Vec3_normalize_unit _ Hu). reflexivity. }
  split.
  { unfold TrafficFlowLerp.getGreatCirclePoint.
    replace (TrafficFlowLerp.lerpVectors (Vec3.normalize start)
               (Vec3.normalize end_) 1)
      with (Vec3.normalize end_)
      by (unfold TrafficFlowLerp.lerpVectors;
          apply Vector3_eq; simpl; ring).
    rewrite (Vec3_normalize_unit _ Hv). reflexivity. }
  split.
  { unfold point, TrafficFlowLerp.getGreatCirclePoint.
    replace (TrafficFlowLerp.lerpVectors (Vec3.normalize end_)
               (Vec3.normalize start) (1 - t))
      with (TrafficFlowLerp.lerpVectors (Vec3.normalize start)
              (Vec3.normalize end_) t)
      by (unfold TrafficFlowLerp.lerpVectors;
          apply Vector3_eq; simpl; ring).
    reflexivity. }
  split.
  { unfold point, TrafficFlowLerp.getGreatCirclePoint.
    destruct (Vec3_normalize_pos_scalar start) as (ks & Hks & ->).
    destruct (Vec3_normalize_pos_scalar end_) as (ke & Hke & ->).
    destruct (Vec3_normalize_pos_scalar
                (TrafficFlowLerp.lerpVectors
                   (Vec3.multiplyScalar start ks)
                   (Vec3.multiplyScalar end_ ke) t)) as (k & Hk & ->).
    exists (ks * (1 - t) * k * radius), (ke * t * k * radius).
    split.
    - apply Vector3_eq; simpl; ring.
    - intros [Ht0 Ht1] Hr.
      split.
      + apply Rmult_le_pos; [|exact Hr].
        apply Rmult_le_pos; [|lra].
        apply Rmult_le_pos; lra.
      + apply Rmult_le_pos; [|exact Hr].
        apply Rmult_le_pos; [|lra].
        apply Rmult_le_pos; lra. }
  unfold point, TrafficFlowLerp.getGreatCirclePoint.
  set (l := TrafficFlowLerp.lerpVectors (Vec3.normalize start)
              (Vec3.normalize end_) t).
  destruct (Req_dec_T (Vec3.length l) 0) as [E | N].
  - right. apply Vec3_length_zero_iff in E.
    destruct (lerp_zero_only_at_opposite_midpoint _ _ t Hu Hv E) as [Ht Hopp].
    split; [exact Ht|]. split; [exact Hopp|].
    rewrite E, Vec3_normalize_zero.
    apply Vector3_eq; simpl; ring.
  - left.
    assert (Hl : l <> Vec3.zero)
      by (intros E; apply N, Vec3_length_zero_iff, E).
    rewrite Vec3_length_multiplyScalar, (Vec3_normalize_length l Hl). ring.
Qed.

(** X19, between the directions [(1, 0, 0)] and [(0, 0, 2)]. *)
Lemma lerp_great_circle_point_witness :
  TrafficFlowLerp.getGreatCirclePoint
    (mkVector3 1 0 0) (mkVector3 0 0 2) 0 5
  = Vec3.multiplyScalar (Vec3.normalize (mkVector3 1 0 0)) 5.
Proof.
  assert (H1 : mkVector3 1 0 0 <> Vec3.zero)
    by (intros E; apply (f_equal vx) in E; simpl in E; lra).
  assert (H2 : mkVector3 0 0 2 <> Vec3.zero)
    by (intros E; apply (f_equal vz) in E; simpl in E; lra).
  exact (proj1 (lerp_great_circle_point
                  (mkVector3 1 0 0) (mkVector3 0 0 2) (1 / 2) 5 H1 H2)).
Defined.


Lemma Vec3_normalize_lengthSq_le (v : Vector3) :
  Vec3.lengthSq (Vec3.normalize v) <= 1.
Proof.
  destruct (Req_dec_T (Vec3.length v) 0) as [E | N].
  - apply Vec3_length_zero_iff in E. rewrite E, Vec3_normalize_zero.
    unfold Vec3.lengthSq, Vec3.zero. simpl. lra.
  - rewrite Vec3_normalize_lengthSq; [lra|].
    intros E. apply N, Vec3_length_zero_iff, E.
Qed.

Lemma crossVectors_lengthSq_le (a b : Vector3) :
  Vec3.lengthSq (Vec3.crossVectors a b) <= Vec3.lengthSq a * Vec3.lengthSq b.
Proof.
  destruct a as [ax ay az], b as [bx by_ bz].
  unfold Vec3.lengthSq, Vec3.crossVectors. simpl.
  assert (H : (ay * bz - az * by_) * (ay * bz - az * by_)
              + (az * bx - ax * bz) * (az * bx - ax * bz)
              + (ax * by_ - ay * bx) * (ax * by_ - ay * bx)
              = (ax * ax + ay * ay + az * az) * (bx * bx + by_ * by_ + bz * bz)
                - (ax * bx + ay * by_ + az * bz) * (ax * bx + ay * by_ + az * bz))
    by ring.
  rewrite H.
  pose proof (Rle_0_sqr (ax * bx + ay * by_ + az * bz)) as Hsq.
  unfold Rsqr in Hsq. lra.
Qed.

Lemma Vec3_add_zero_lengthSq (a b : Vector3) :
  Vec3.add a b = Vec3.zero -> Vec3.lengthSq b = Vec3.lengthSq a.
Proof.
  intros E.
  pose proof (f_equal vx E) as Ex.
  pose proof (f_equal vy E) as Ey.
  pose proof (f_equal vz E) as Ez.
  destruct a as [ax ay az], b as [bx by_ bz].
  unfold Vec3.lengthSq. simpl in *.
  replace bx with (- ax) by lra.
  replace by_ with (- ay) by lra.
  replace bz with (- az) by lra.
  ring.
Qed.

Lemma lerp_point_on_sphere (start end_ : Vector3) (t radius : R) :
  start <> Vec3.zero -> end_ <> Vec3.zero ->
  ~ (t = 1 / 2
     /\ Vec3.normalize end_ = Vec3.multiplyScalar (Vec3.normalize start) (- 1)) ->
  Vec3.length (TrafficFlowLerp.getGreatCirclePoint start end_ t radius)
  = Rabs radius.
Proof.
  intros Hs He Hno.
  unfold TrafficFlowLerp.getGreatCirclePoint.
  set (l := TrafficFlowLerp.lerpVectors (Vec3.normalize start)
              (Vec3.normalize end_) t).
  assert (Hl : l <> Vec3.zero).
  { intros E. apply Hno.
    apply (lerp_zero_only_at_opposite_midpoint _ _ t
             (Vec3_normalize_lengthSq start Hs)
             (Vec3_normalize_lengthSq end_ He) E). }
  rewrite Vec3_length_multiplyScalar, (Vec3_normalize_length l Hl). ring.
Qed.

(** X20.  In the chord-interpolating revision the offset of a particle is
    perpendicular to the chord from [start] to [end], costs four random
    numbers and, the random numbers being in [[0, 1)], is at most
    [|maxOffset| / 2] long.  Hence on a sphere of a larger radius a
    particle whose base point is on the sphere (every case but the
    midpoint of opposite ends) is itself put on the sphere. *)
Theorem lerp_offset_particle
    (random : TrafficFlow.RandomSource) (calls : nat)
    (start end_ : Vector3) (maxOffset t sphereRadius : R) :
  (forall k : nat, 0 <= random k < 1) ->
  let offset :=
    fst (TrafficFlowLerp.createRandomOffset random calls start end_ maxOffset) in
  Vec3.dot offset (Vec3.sub end_ start) = 0
  /\ Vec3.length offset <= Rabs maxOffset / 2
  /\ snd (TrafficFlowLerp.createRandomOffset random calls start end_ maxOffset)
     = (calls + 4)%nat
  /\ (start <> Vec3.zero -> end_ <> Vec3.zero ->
      ~ (t = 1 / 2
         /\ Vec3.normalize end_
            = Vec3.multiplyScalar (Vec3.normalize start) (- 1)) ->
      Rabs maxOffset / 2 < sphereRadius ->
      Vec3.length
        (TrafficFlowLerp.offsetPoint start end_ t sphereRadius offset)
      = sphereRadius).
Proof.
  intros Hrand offset.
  set (rnd := mkVector3 (random calls - 1 / 2)
                (random (S calls) - 1 / 2)
                (random (S (S calls)) - 1 / 2)).
  set (perp := Vec3.crossVectors (Vec3.normalize rnd)
                 (Vec3.normalize (Vec3.sub end_ start))).
  set (c := maxOffset * (random (S (S (S calls))) - 1 / 2)).
  assert (Hoff : offset = Vec3.multiplyScalar perp c) by reflexivity.
  assert (Hlen : Vec3.length offset <= Rabs maxOffset / 2).
  { rewrite Hoff, Vec3_length_multiplyScalar.
    assert (Hc : Rabs c <= Rabs maxOffset / 2).
    { unfold c. rewrite Rabs_mult.
      assert (Hr : Rabs (random (S (S (S calls))) - 1 / 2) <= 1 / 2).
      { destruct (Hrand (S (S (S calls)))) as [H0 H1].
        apply Rabs_le. lra. }
      pose proof (Rabs_pos maxOffset). nra. }
    assert (Hp : Vec3.length perp <= 1).
    { rewrite Vec3_length_sqrt. rewrite <- sqrt_1.
      apply sqrt_le_1_alt.
      pose proof (crossVectors_lengthSq_le (Vec3.normalize rnd)
                    (Vec3.normalize (Vec3.sub end_ start))) as Hx.
      pose proof (Vec3_normalize_lengthSq_le rnd) as Ha.
      pose proof (Vec3_normalize_lengthSq_le (Vec3.sub end_ start)) as Hb.
      pose proof (Vec3_lengthSq_nonneg (Vec3.normalize rnd)).
      pose proof (Vec3_lengthSq_nonneg (Vec3.normalize (Vec3.sub end_ start))).
      fold perp in Hx. nra. }
    pose proof (Vec3_length_nonneg perp).
    pose proof (Rabs_pos c). nra. }
  split.
  { rewrite Hoff. unfold perp.
    destruct (Vec3_normalize_scalar (Vec3.sub end_ start)) as [k ->].
    unfold Vec3.dot, Vec3.multiplyScalar, Vec3.crossVectors. simpl. ring. }
  split; [exact Hlen|].
  split; [unfold TrafficFlowLerp.createRandomOffset; simpl; lia|].
  intros Hs He Hno Hbig.
  assert (Hr : 0 < sphereRadius) by (pose proof (Rabs_pos maxOffset); lra).
  pose proof (lerp_point_on_sphere start end_ t sphereRadius Hs He Hno) as Hbase.
  rewrite Rabs_pos_eq in Hbase by lra.
  unfold TrafficFlowLerp.offsetPoint.
  set (base := TrafficFlowLerp.getGreatCirclePoint start end_ t sphereRadius)
    in *.
  assert (Hnz : Vec3.add base offset <> Vec3.zero).
  { intros E.
    pose proof (Vec3_add_zero_lengthSq base offset E) as Hsame.
    assert (Hl : Vec3.length offset = Vec3.length base)
      by (rewrite !Vec3_length_sqrt, Hsame; reflexivity).
    lra. }
  rewrite Vec3_length_multiplyScalar, (Vec3_normalize_length _ Hnz).
  rewrite Rabs_pos_eq by lra. ring.
Qed.

(** X20, for a constant random source. *)
Lemma lerp_offset_particle_witness :
  (forall k : nat, 0 <= (fun _ : nat => 1 / 4) k < 1)
  /\ Vec3.dot
       (fst (TrafficFlowLerp.createRandomOffset (fun _ => 1 / 4) 0
               (mkVector3 1 0 0) (mkVector3 0 1 0) (1 / 2)))
       (Vec3.sub (mkVector3 0 1 0) (mkVector3 1 0 0)) = 0.
Proof.
  assert (H : forall k : nat, 0 <= (fun _ : nat => 1 / 4) k < 1)
    by (intros k; simpl; lra).
  split; [exact H|].
  exact (proj1 (lerp_offset_particle (fun _ => 1 / 4) 0
                  (mkVector3 1 0 0) (mkVector3 0 1 0) (1 / 2) 0 1 H)).
Defined.


(** ** The parabolic revision of [TrafficFlow] *)

Lemma distanceTo_le (a b : Vector3) (r : R) :
  0 <= r ->
  (vx a - vx b) * (vx a - vx b) + (vy a - vy b) * (vy a - vy b)
  + (vz a - vz b) * (vz a - vz b) <= r * r ->
  Vec3.distanceTo a b <= r.
Proof.
  intros Hr H. unfold Vec3.distanceTo. cbv zeta.
  rewrite <- (sqrt_square r Hr).
  apply sqrt_le_1_alt. exact H.
Qed.

Lemma scaled_components_le (p : Vector3) (a b c : R) :
  Vec3.lengthSq p <= 1 ->
  Rabs a <= 1 -> Rabs b <= 1 -> Rabs c <= 1 ->
  (vx p * 2 * a) * (vx p * 2 * a) + (vy p * 2 * b) * (vy p * 2 * b)
  + (vz p * 2 * c) * (vz p * 2 * c) <= 2 * 2.
Proof.
  intros Hp Ha Hb Hc.
  assert (Ha2 : a * a <= 1) by (apply Rabs_le_inv in Ha || (unfold Rabs in Ha; destruct (Rcase_abs a); nra)).
  assert (Hb2 : b * b <= 1) by (unfold Rabs in Hb; destruct (Rcase_abs b); nra).
  assert (Hc2 : c * c <= 1) by (unfold Rabs in Hc; destruct (Rcase_abs c); nra).
  destruct p as [px py pz]. unfold Vec3.lengthSq in Hp. simpl in *.
  assert (0 <= px * px) by nra.
  assert (0 <= py * py) by nra.
  assert (0 <= pz * pz) by nra.
  assert (0 <= a * a) by nra.
  assert (0 <= b * b) by nra.
  assert (0 <= c * c) by nra.
  assert (px * px * (a * a) <= px * px) by nra.
  assert (py * py * (b * b) <= py * py) by nra.
  assert (pz * pz * (c * c) <= pz * pz) by nra.
  nra.
Qed.

(** X21.  In the parabolic revision, the random numbers being in
    [[0, 1)], the control point of a particle is at most 2 from the
    midpoint of the chord, and for [0 <= t <= 1] the particle is at most
    [4 t (1 - t)], hence at most 1, from the point of the straight chord
    at the same [t]; it starts at [start] and arrives at [end].  Drawing
    a control point costs six random numbers. *)
Theorem bezier_particle_near_chord
    (random : TrafficFlow.RandomSource) (calls : nat)
    (start end_ : R * R * R) (t : R) :
  (forall k : nat, 0 <= random k < 1) ->
  0 <= t <= 1 ->
  let s := Vec3.ofTuple start in
  let e := Vec3.ofTuple end_ in
  let control :=
    fst (TrafficFlowBezier.createRandomControlPoint random calls start end_) in
  let point := TrafficFlowBezier.getQuadraticBezierPoint s control e t in
  TrafficFlowBezier.getQuadraticBezierPoint s control e 0 = s
  /\ TrafficFlowBezier.getQuadraticBezierPoint s control e 1 = e
  /\ Vec3.distanceTo control (Vec3.multiplyScalar (Vec3.add s e) (1 / 2)) <= 2
  /\ Vec3.distanceTo point
       (Vec3.add (Vec3.multiplyScalar s (1 - t)) (Vec3.multiplyScalar e t))
     <= 4 * t * (1 - t)
  /\ 4 * t * (1 - t) <= 1
  /\ snd (TrafficFlowBezier.createRandomControlPoint random calls start end_)
     = (calls + 6)%nat.
Proof.
  intros Hrand Ht s e control point.
  destruct start as [[sx sy] sz], end_ as [[ex ey] ez].
  set (perp := Vec3.crossVectors
                 (Vec3.normalize
                    (mkVector3 (random calls - 1 / 2)
                       (random (S calls) - 1 / 2)
                       (random (S (S calls)) - 1 / 2)))
                 (Vec3.normalize (mkVector3 (ex - sx) (ey - sy) (ez - sz)))).
  set (a := (random (3 + calls)%nat - 1 / 2) * 2).
  set (b := (random (4 + calls)%nat - 1 / 2) * 2).
  set (c := (random (5 + calls)%nat - 1 / 2) * 2).
  assert (Hcontrol : control
                     = mkVector3 ((sx + ex) / 2 + vx perp * 2 * a)
                         ((sy + ey) / 2 + vy perp * 2 * b)
                         ((sz + ez) / 2 + vz perp * 2 * c)).
  { unfold control, TrafficFlowBezier.createRandomControlPoint.
    cbv zeta. cbn [fst vx vy vz]. fold perp.
    apply Vector3_eq; cbn [vx vy vz]; unfold a, b, c; ring. }
  assert (Hperp : Vec3.lengthSq perp <= 1).
  { pose proof (crossVectors_lengthSq_le
                  (Vec3.normalize
                     (mkVector3 (random calls - 1 / 2)
                        (random (S calls) - 1 / 2)
                        (random (S (S calls)) - 1 / 2)))
                  (Vec3.normalize (mkVector3 (ex - sx) (ey - sy) (ez - sz))))
      as Hx.
    fold perp in Hx.
    pose proof (Vec3_normalize_lengthSq_le
                  (mkVector3 (random calls - 1 / 2)
                     (random (S calls) - 1 / 2)
                     (random (S (S calls)) - 1 / 2))) as H1.
    pose proof (Vec3_normalize_lengthSq_le
                  (mkVector3 (ex - sx) (ey - sy) (ez - sz))) as H2.
    pose proof (Vec3_lengthSq_nonneg
                  (Vec3.normalize
                     (mkVector3 (random calls - 1 / 2)
                        (random (S calls) - 1 / 2)
                        (random (S (S calls)) - 1 / 2)))).
    pose proof (Vec3_lengthSq_nonneg
                  (Vec3.normalize (mkVector3 (ex - sx) (ey - sy) (ez - sz)))).
    nra. }
  assert (Ha : Rabs a <= 1)
    by (unfold a; destruct (Hrand (3 + calls)%nat); apply Rabs_le; lra).
  assert (Hb : Rabs b <= 1)
    by (unfold b; destruct (Hrand (4 + calls)%nat); apply Rabs_le; lra).
  assert (Hc : Rabs c <= 1)
    by (unfold c; destruct (Hrand (5 + calls)%nat); apply Rabs_le; lra).
  pose proof (scaled_components_le perp a b c Hperp Ha Hb Hc) as Hbox.
  clearbody perp a b c.
  split.
  { unfold TrafficFlowBezier.getQuadraticBezierPoint, s.
    apply Vector3_eq; simpl; ring. }
  split.
  { unfold TrafficFlowBezier.getQuadraticBezierPoint, e.
    apply Vector3_eq; simpl; ring. }
  split.
  { apply distanceTo_le; [lra|].
    rewrite Hcontrol. unfold s, e. simpl.
    replace ((sx + ex) / 2 + vx perp * 2 * a - (sx + ex) * (1 / 2))
      with (vx perp * 2 * a) by field.
    replace ((sy + ey) / 2 + vy perp * 2 * b - (sy + ey) * (1 / 2))
      with (vy perp * 2 * b) by field.
    replace ((sz + ez) / 2 + vz perp * 2 * c - (sz + ez) * (1 / 2))
      with (vz perp * 2 * c) by field.
    exact Hbox. }
  split.
  { apply distanceTo_le; [nra|].
    unfold point, TrafficFlowBezier.getQuadraticBezierPoint.
    rewrite Hcontrol. unfold s, e. simpl.
    set (w := 2 * (1 - t) * t).
    replace (4 * t * (1 - t)) with (w * 2) by (unfold w; ring).
    assert (Hw : 0 <= w * w) by nra.
    match goal with
    | |- ?lhs <= _ =>
        replace lhs
          with (w * w * ((vx perp * 2 * a) * (vx perp * 2 * a)
                         + (vy perp * 2 * b) * (vy perp * 2 * b)
                         + (vz perp * 2 * c) * (vz perp * 2 * c)))
          by (unfold w; field)
    end.
    replace (w * 2 * (w * 2)) with (w * w * (2 * 2)) by ring.
    apply Rmult_le_compat_l; [exact Hw|exact Hbox]. }
  split.
  { clear -Ht. pose proof (Rle_0_sqr (2 * t - 1)) as Hsq.
    unfold Rsqr in Hsq. lra. }
  unfold TrafficFlowBezier.createRandomControlPoint. simpl. lia.
Qed.

(** X21, for a constant random source and the midpoint of the path. *)
Lemma bezier_particle_near_chord_witness :
  (forall k : nat, 0 <= (fun _ : nat => 1 / 4) k < 1)
  /\ 0 <= 1 / 2 <= 1
  /\ TrafficFlowBezier.getQuadraticBezierPoint
       (Vec3.ofTuple (1, 0, 0))
       (fst (TrafficFlowBezier.createRandomControlPoint
               (fun _ => 1 / 4) 0 (1, 0, 0) (0, 1, 0)))
       (Vec3.ofTuple (0, 1, 0)) 0
     = Vec3.ofTuple (1, 0, 0).
Proof.
  assert (H : forall k : nat, 0 <= (fun _ : nat => 1 / 4) k < 1)
    by (intros k; simpl; lra).
  assert (Ht : 0 <= 1 / 2 <= 1) by lra.
  split; [exact H|]. split; [exact Ht|].
  exact (proj1 (bezier_particle_near_chord (fun _ => 1 / 4) 0
                  (1, 0, 0) (0, 1, 0) (1 / 2) H Ht)).
Defined.


(** ** Initialisation of the widget *)

Section MainFacts.
Import Main.

Variable defaultData : Interaction.NetworkData.

Lemma step_after_manual (s : State) (e : Event) :
  manualInitCalled s = true ->
  isManualInit e = false ->
  manualInitCalled (step defaultData s e) = true
  /\ rendered (step defaultData s e) = rendered s
  /\ errors (step defaultData s e) = errors s.
Proof.
  intros Hm He. destruct e as [config | | present]; [discriminate| |].
  - simpl. destruct (listening s); simpl.
    + unfold onDOMContentLoaded. simpl. rewrite Hm. simpl. auto.
    + auto.
  - simpl. auto.
Qed.

Lemma run_after_manual (events : list Event) (s : State) :
  manualInitCalled s = true ->
  forallb (fun e => negb (isManualInit e)) events = true ->
  rendered (run defaultData s events) = rendered s
  /\ errors (run defaultData s events) = errors s.
Proof.
  revert s. induction events as [|e events IH]; intros s Hm Hev.
  - simpl. auto.
  - simpl in Hev. apply andb_true_iff in Hev as [He Hev].
    apply negb_true_iff in He.
    destruct (step_after_manual s e Hm He) as (Hm' & Hr & Her).
    destruct (IH _ Hm' Hev) as [Hr' Her'].
    change (run defaultData s (e :: events))
      with (run defaultData (step defaultData s e) events).
    rewrite Hr', Her'. auto.
Qed.

Lemma wrappedInit_sets_flag (config : NetworkConfig) (s : State) :
  manualInitCalled (wrappedInit defaultData config s) = true.
Proof.
  unfold wrappedInit, init. simpl. destruct (hasContainer s); reflexivity.
Qed.

End MainFacts.

(** X22.  When the script is loaded while the document is still being
    parsed and the page then calls [window.nettopology.init], that call
    is the only thing ever rendered until the next call: it renders the
    page's configuration if the element exists at that moment, and logs
    an error and renders nothing if it does not; in both cases the
    automatic initialisation is cancelled, so whatever follows short of
    another call ([DOMContentLoaded], the element appearing) renders
    nothing more.  In particular a call made before the element exists
    leaves the page without any view. *)
Theorem manual_init_cancels_auto_init
    (defaultData : Interaction.NetworkData)
    (container : bool) (config : Main.NetworkConfig)
    (before after : list Main.Event) :
  forallb (fun e => match e with Main.SetContainer _ => true | _ => false end)
    before = true ->
  forallb (fun e => negb (Main.isManualInit e)) after = true ->
  let s0 := Main.load defaultData (Main.fresh Main.loading container) in
  let s1 := Main.run defaultData s0 before in
  let s2 := Main.step defaultData s1 (Main.ManualInit (Some config)) in
  let s3 := Main.run defaultData s2 after in
  Main.rendered s3
  = (if Main.hasContainer s1 then [Main.propsOf defaultData config] else [])
  /\ Main.errors s3 = (if Main.hasContainer s1 then 0%nat else 1%nat).
Proof.
  intros Hbefore Hafter s0 s1 s2 s3.
  assert (Hs1 : Main.rendered s1 = [] /\ Main.errors s1 = 0%nat).
  { unfold s1. clear s1 s2 s3.
    assert (H0 : Main.rendered s0 = [] /\ Main.errors s0 = 0%nat)
      by (split; reflexivity).
    revert H0. generalize s0. clear s0.
    induction before as [|e before IH]; intros s H0.
    - exact H0.
    - simpl in Hbefore. apply andb_true_iff in Hbefore as [He Hb].
      destruct e as [c | | present]; try discriminate.
      simpl. apply (IH Hb). exact H0. }
  destruct Hs1 as [Hr1 He1].
  assert (Hs2 : Main.rendered s2
                = (if Main.hasContainer s1
                   then [Main.propsOf defaultData config] else [])
                /\ Main.errors s2
                   = (if Main.hasContainer s1 then 0%nat else 1%nat)).
  { unfold s2. simpl. unfold Main.wrappedInit, Main.init. simpl.
    destruct (Main.hasContainer s1); simpl; rewrite Hr1, He1; auto. }
  destruct Hs2 as [Hr2 He2].
  destruct (run_after_manual defaultData after s2
              (wrappedInit_sets_flag defaultData config s1) Hafter)
    as [Hr3 He3].
  unfold s3. rewrite Hr3, He3. auto.
Qed.

(** X22, for a call made before the element exists. *)
Lemma manual_init_cancels_auto_init_witness :
  Main.rendered
    (Main.run (Interaction.mkNetworkData [] [])
       (Main.step (Interaction.mkNetworkData [] [])
          (Main.run (Interaction.mkNetworkData [] [])
             (Main.load (Interaction.mkNetworkData [] [])
                (Main.fresh Main.loading false)) [])
          (Main.ManualInit (Some Main.emptyConfig)))
       [Main.SetContainer true; Main.DOMContentLoaded])
  = [].
Proof.
  exact (proj1 (manual_init_cancels_auto_init
                  (Interaction.mkNetworkData [] []) false Main.emptyConfig
                  [] [Main.SetContainer true; Main.DOMContentLoaded]
                  eq_refl eq_refl)).
Defined.

(** X23.  When the script is loaded into a document that is already
    parsed ([interactive] or [complete]) it initialises at once, with the
    default data, and adds no listener; the test of the manual flag at
    that point can never fail.  A later call of [window.nettopology.init]
    on the same element therefore creates a second root beside the first.
    When the script is loaded earlier nothing is rendered at load, and
    with no call from the page [DOMContentLoaded] renders the default view
    exactly when the element exists by then. *)
Theorem auto_init_at_load
    (defaultData : Interaction.NetworkData)
    (rs : Main.ReadyState) (container : bool) (config : Main.NetworkConfig) :
  let s0 := Main.load defaultData (Main.fresh rs container) in
  let default := Main.propsOf defaultData Main.emptyConfig in
  (rs <> Main.loading ->
     Main.listening s0 = false
     /\ Main.rendered s0 = (if container then [default] else [])
     /\ Main.errors s0 = (if container then 0%nat else 1%nat)
     /\ Main.rendered
          (Main.step defaultData s0 (Main.ManualInit (Some config)))
        = (if container
           then [default; Main.propsOf defaultData config] else []))
  /\ (rs = Main.loading ->
      Main.listening s0 = true
      /\ Main.rendered s0 = []
      /\ forall present : bool,
           Main.rendered
             (Main.run defaultData s0
                [Main.SetContainer present; Main.DOMContentLoaded])
           = (if present then [default] else [])).
Proof.
  intros s0 default. split.
  - intros Hrs. unfold s0.
    destruct rs; [contradiction| |]; destruct container; simpl; auto.
  - intros ->. unfold s0. simpl.
    split; [reflexivity|]. split; [reflexivity|].
    intros [|]; reflexivity.
Qed.

(** X23, for a script loaded when the document is complete. *)
Lemma auto_init_at_load_witness :
  Main.rendered
    (Main.load (Interaction.mkNetworkData [] [])
       (Main.fresh Main.complete true))
  = [Main.propsOf (Interaction.mkNetworkData [] []) Main.emptyConfig].
Proof.
  assert (H : Main.complete <> Main.loading) by discriminate.
  exact (proj1 (proj2 (proj1 (auto_init_at_load
                                (Interaction.mkNetworkData [] [])
                                Main.complete true Main.emptyConfig) H))).
Defined.


(** ** The curve of a link is not the great-circle arc *)

Lemma Math_atan2_first_quadrant (s c : R) :
  0 < s -> 0 <= c -> 0 < Math_atan2 s c <= PI / 2.
Proof.
  intros Hs Hc. unfold Math_atan2.
  destruct (Rlt_dec 0 c) as [Hpos | Hn].
  - pose proof (atan_bound (s / c)) as [_ Hhi].
    assert (Hq : 0 < s / c) by (apply Rdiv_lt_0_compat; lra).
    pose proof (atan_increasing 0 (s / c) Hq) as Hinc.
    rewrite atan_0 in Hinc. lra.
  - destruct (Rlt_dec c 0); [lra|].
    destruct (Rlt_dec 0 s); [|lra].
    pose proof PI_RGT_0. lra.
Qed.

Lemma slerp_positive_combination (qa qb : Quaternion) (t : R) :
  Quat.isUnit qa -> Quat.isUnit qb ->
  0 <= Quat.dot qa qb < 1 -> 0 < t < 1 ->
  exists a b : R,
    0 < a /\ 0 < b
    /\ Quat.slerp qa qb t
       = mkQuaternion (qx qa * a + qx qb * b) (qy qa * a + qy qb * b)
                      (qz qa * a + qz qb * b) (qw qa * a + qw qb * b).
Proof.
  intros Ha Hb [Hc0 Hc1] [Ht0 Ht1].
  unfold Quat.isUnit in Ha, Hb.
  unfold Quat.slerp.
  destruct (Req_dec_T t 0); [lra|]. destruct (Req_dec_T t 1); [lra|].
  cbv zeta.
  replace (qw qa * qw qb + qx qa * qx qb + qy qa * qy qb + qz qa * qz qb)
    with (Quat.dot qa qb) by (unfold Quat.dot; ring).
  set (c := Quat.dot qa qb) in *.
  destruct (Rlt_dec c 0); [lra|].
  destruct (Rle_dec 1 c); [lra|].
  destruct (Rle_dec (1 - c * c) Number_EPSILON) as [Hsmall | Hbig].
  - set (lerped := mkQuaternion ((1 - t) * qx qa + t * qx qb)
                     ((1 - t) * qy qa + t * qy qb)
                     ((1 - t) * qz qa + t * qz qb)
                     ((1 - t) * qw qa + t * qw qb)).
    assert (Hsq : Quat.lengthSq lerped
                  = (1 - t) * (1 - t) + t * t + 2 * (1 - t) * t * c).
    { transitivity ((1 - t) * (1 - t) * Quat.lengthSq qa
                    + t * t * Quat.lengthSq qb
                    + 2 * (1 - t) * t * Quat.dot qa qb).
      - unfold lerped, Quat.lengthSq, Quat.dot. simpl. ring.
      - rewrite Ha, Hb. fold c. ring. }
    assert (Hlen : 0 < Quat.length lerped).
    { change (Quat.length lerped) with (sqrt (Quat.lengthSq lerped)).
      apply sqrt_lt_R0. rewrite Hsq.
      assert (0 <= (1 - t) * t * c)
        by (apply Rmult_le_pos; [apply Rmult_le_pos; lra|lra]).
      nra. }
    unfold Quat.normalize. fold lerped.
    destruct (Req_dec_T (Quat.length lerped) 0) as [E | _]; [lra|].
    exists ((1 - t) * (1 / Quat.length lerped)),
           (t * (1 / Quat.length lerped)).
    split; [apply Rmult_lt_0_compat; [lra|apply Rdiv_lt_0_compat; lra]|].
    split; [apply Rmult_lt_0_compat; [lra|apply Rdiv_lt_0_compat; lra]|].
    apply Quaternion_eq; simpl; ring.
  - pose proof Number_EPSILON_pos as Heps.
    assert (Hs2 : 0 < 1 - c * c) by lra.
    set (sinHalfTheta := sqrt (1 - c * c)).
    assert (Hsin : 0 < sinHalfTheta) by (apply sqrt_lt_R0; exact Hs2).
    destruct (Math_atan2_first_quadrant sinHalfTheta c Hsin Hc0)
      as [Hth0 Hth1].
    set (halfTheta := Math_atan2 sinHalfTheta c) in *.
    pose proof PI_RGT_0 as Hpi.
    exists (sin ((1 - t) * halfTheta) / sinHalfTheta),
           (sin (t * halfTheta) / sinHalfTheta).
    split.
    { apply Rdiv_lt_0_compat; [|exact Hsin].
      apply sin_gt_0; nra. }
    split.
    { apply Rdiv_lt_0_compat; [|exact Hsin].
      apply sin_gt_0; nra. }
    reflexivity.
Qed.

Lemma setFromUnitVectors_equator (d : Vector3) :
  vy d = 0 -> Vec3.lengthSq d = 1 ->
  Quat.setFromUnitVectors Vec3.up d
  = mkQuaternion (vz d * / sqrt 2) 0 (- vx d * / sqrt 2) (/ sqrt 2).
Proof.
  intros Hy Hl.
  assert (Hs2 : 0 < sqrt 2) by (apply sqrt_lt_R0; lra).
  unfold Quat.setFromUnitVectors, Vec3.dot, Vec3.up. cbn [vx vy vz].
  cbv zeta. rewrite Hy.
  destruct (Rlt_dec (0 * vx d + 1 * 0 + 0 * vz d + 1) Number_EPSILON) as [Hlt | _].
  { exfalso. unfold Number_EPSILON in Hlt. lra. }
  set (q := mkQuaternion _ _ _ _).
  assert (Hlen : Quat.length q = sqrt 2).
  { unfold Quat.length, q. simpl. f_equal.
    unfold Vec3.lengthSq in Hl. rewrite Hy in Hl. lra. }
  unfold Quat.normalize. rewrite Hlen.
  destruct (Req_dec_T (sqrt 2) 0) as [E | _]; [lra|].
  unfold q. apply Quaternion_eq; simpl; field; lra.
Qed.

Lemma applyQuaternion_up_vy (q : Quaternion) :
  vy (applyQuaternion Vec3.up q) = 1 - 2 * (qx q * qx q + qz q * qz q).
Proof.
  unfold applyQuaternion, Vec3.up. simpl. ring.
Qed.

(** X24.  The curve [getGreatCirclePoint] draws between two nodes on the
    equator (the plane [y = 0]) in different directions leaves the
    equator: every point strictly between the ends ([0 < t < 1]) lies
    strictly above it.  The great circle through the two nodes being the
    equator itself, the curve is not the great-circle arc: it bulges
    towards [(0, 1, 0)], the direction the rotations are taken from. *)
Theorem equatorial_link_leaves_equator
    (start end_ : Vector3) (t radius : R) :
  start <> Vec3.zero -> end_ <> Vec3.zero ->
  vy start = 0 -> vy end_ = 0 ->
  Vec3.normalize start <> Vec3.normalize end_ ->
  0 < t < 1 -> 0 < radius ->
  0 < vy (NetworkTopology.getGreatCirclePoint start end_ t radius).
Proof.
  intros Hs He Hys Hye Hdiff Ht Hr.
  pose proof (Vec3_normalize_lengthSq start Hs) as Hu.
  pose proof (Vec3_normalize_lengthSq end_ He) as Hv.
  assert (Huy : vy (Vec3.normalize start) = 0).
  { destruct (Vec3_normalize_scalar start) as [k ->]. simpl.
    rewrite Hys. ring. }
  assert (Hvy : vy (Vec3.normalize end_) = 0).
  { destruct (Vec3_normalize_scalar end_) as [k ->]. simpl.
    rewrite Hye. ring. }
  unfold NetworkTopology.getGreatCirclePoint. cbv zeta.
  set (u := Vec3.normalize start) in *.
  set (v := Vec3.normalize end_) in *.
  rewrite (setFromUnitVectors_equator u Huy Hu).
  rewrite (setFromUnitVectors_equator v Hvy Hv).
  set (r2 := / sqrt 2).
  assert (Hs2 : 0 < sqrt 2) by (apply sqrt_lt_R0; lra).
  assert (Hr2 : r2 * r2 = 1 / 2).
  { unfold r2. rewrite <- Rinv_mult, sqrt_sqrt by lra. lra. }
  clearbody u v r2.
  set (qa := mkQuaternion (vz u * r2) 0 (- vx u * r2) r2).
  set (qb := mkQuaternion (vz v * r2) 0 (- vx v * r2) r2).
  set (d := vx u * vx v + vz u * vz v).
  assert (Hu' : vx u * vx u + vz u * vz u = 1)
    by (unfold Vec3.lengthSq in Hu; rewrite Huy in Hu; lra).
  assert (Hv' : vx v * vx v + vz v * vz v = 1)
    by (unfold Vec3.lengthSq in Hv; rewrite Hvy in Hv; lra).
  assert (Hd_lo : -1 <= d).
  { pose proof (Rle_0_sqr (vx u + vx v)) as H1.
    pose proof (Rle_0_sqr (vz u + vz v)) as H2.
    unfold Rsqr in H1, H2. unfold d. lra. }
  assert (Hd_hi : d < 1).
  { assert (Hle : d <= 1).
    { pose proof (Rle_0_sqr (vx u - vx v)) as H1.
      pose proof (Rle_0_sqr (vz u - vz v)) as H2.
      unfold Rsqr in H1, H2. unfold d. lra. }
    destruct (Rle_lt_or_eq_dec _ _ Hle) as [Hlt | Heq]; [exact Hlt|].
    exfalso. apply Hdiff.
    assert (Hx : (vx u - vx v) * (vx u - vx v)
                 + (vz u - vz v) * (vz u - vz v) = 0)
      by (unfold d in Heq; lra).
    pose proof (Rle_0_sqr (vx u - vx v)) as H1.
    pose proof (Rle_0_sqr (vz u - vz v)) as H2.
    unfold Rsqr in H1, H2.
    assert (Hxx : vx u - vx v = 0)
      by (apply Rsqr_0_uniq; unfold Rsqr; lra).
    assert (Hzz : vz u - vz v = 0)
      by (apply Rsqr_0_uniq; unfold Rsqr; lra).
    apply Vector3_eq; lra. }
  assert (Hqa : Quat.isUnit qa).
  { unfold Quat.isUnit, Quat.lengthSq, qa. simpl.
    match goal with
    | |- ?l = 1 =>
        replace l with (r2 * r2 * ((vx u * vx u + vz u * vz u) + 1))
          by ring
    end.
    rewrite Hr2, Hu'. lra. }
  assert (Hqb : Quat.isUnit qb).
  { unfold Quat.isUnit, Quat.lengthSq, qb. simpl.
    match goal with
    | |- ?l = 1 =>
        replace l with (r2 * r2 * ((vx v * vx v + vz v * vz v) + 1))
          by ring
    end.
    rewrite Hr2, Hv'. lra. }
  assert (Hdot : Quat.dot qa qb = (1 + d) / 2).
  { unfold Quat.dot, qa, qb. simpl.
    match goal with
    | |- ?l = _ =>
        replace l with (r2 * r2 * (d + 1)) by (unfold d; ring)
    end.
    rewrite Hr2. lra. }
  pose proof (slerp_isUnit qa qb t Hqa Hqb) as Hunit.
  destruct (slerp_positive_combination qa qb t Hqa Hqb
              ltac:(rewrite Hdot; lra) Ht) as (a & b & Ha & Hb & Hq).
  unfold Quat.slerpQuaternions.
  rewrite Hq in *.
  unfold Vec3.multiplyScalar. cbn [vy].
  apply Rmult_lt_0_compat; [|exact Hr].
  rewrite applyQuaternion_up_vy.
  unfold Quat.isUnit, Quat.lengthSq in Hunit.
  unfold qa, qb in *. cbn [qx qy qz qw] in *.
  assert (Hsum : a * a + b * b + a * b * (1 + d) = 1).
  { match type of Hunit with
    | ?l = 1 =>
        replace l
          with (r2 * r2 * (a * a * (vx u * vx u + vz u * vz u)
                           + b * b * (vx v * vx v + vz v * vz v)
                           + 2 * a * b * d + (a + b) * (a + b)))
          in Hunit by (unfold d; ring)
    end.
    rewrite Hr2, Hu', Hv' in Hunit. lra. }
  match goal with
  | |- 0 < 1 - 2 * ?l =>
      replace l
        with (r2 * r2 * (a * a * (vx u * vx u + vz u * vz u)
                         + b * b * (vx v * vx v + vz v * vz v)
                         + 2 * a * b * d))
        by (unfold d; ring)
  end.
  rewrite Hr2, Hu', Hv'.
  assert (Hab : 0 < a * b) by (apply Rmult_lt_0_compat; assumption).
  assert (Hgain : 0 < a * b * (1 - d)) by (apply Rmult_lt_0_compat; lra).
  lra.
Qed.

(** X24, a quarter of the equator apart, halfway. *)
Lemma equatorial_link_leaves_equator_witness :
  0 < vy (NetworkTopology.getGreatCirclePoint
            (mkVector3 1 0 0) (mkVector3 0 0 1) (1 / 2) 1).
Proof.
  apply equatorial_link_leaves_equator.
  - intros E. apply (f_equal vx) in E. simpl in E. lra.
  - intros E. apply (f_equal vz) in E. simpl in E. lra.
  - reflexivity.
  - reflexivity.
  - intros E.
    assert (H1 : Vec3.lengthSq (mkVector3 1 0 0) = 1)
      by (unfold Vec3.lengthSq; simpl; lra).
    assert (H2 : Vec3.lengthSq (mkVector3 0 0 1) = 1)
      by (unfold Vec3.lengthSq; simpl; lra).
    rewrite (Vec3_normalize_unit _ H1), (Vec3_normalize_unit _ H2) in E.
    apply (f_equal vx) in E. simpl in E. lra.
  - lra.
  - lra.
Defined.


(** ** How far a particle strays from the curve of its link *)

Lemma renormalized_shift_bound (B u : Vector3) (r c : R) :
  0 < r -> Vec3.lengthSq B = r * r -> Vec3.dot B u = 0 ->
  Vec3.lengthSq u <= 1 -> 0 <= c ->
  Vec3.distanceTo
    (Vec3.multiplyScalar
       (Vec3.normalize (Vec3.add B (Vec3.multiplyScalar u c))) r) B
  <= c.
Proof.
  intros Hr HB Hdot Hu Hc.
  set (M := Vec3.add B (Vec3.multiplyScalar u c)).
  pose proof (Vec3_lengthSq_nonneg u) as Hu0.
  assert (HM : Vec3.lengthSq M = r * r + c * c * Vec3.lengthSq u).
  { unfold M. rewrite Vec3_lengthSq_add_scaled, HB, Hdot. ring. }
  pose proof (Vec3_length_sq M) as HL.
  pose proof (Vec3_length_nonneg M) as HL0.
  set (L := Vec3.length M) in *.
  assert (Hcw : 0 <= c * c * Vec3.lengthSq u)
    by (apply Rmult_le_pos; [nra|exact Hu0]).
  assert (Hcw1 : c * c * Vec3.lengthSq u <= c * c).
  { assert (0 <= c * c) by nra.
    replace (c * c) with (c * c * 1) at 2 by ring.
    apply Rmult_le_compat_l; assumption. }
  assert (HLr : r <= L) by nra.
  assert (HLpos : 0 < L) by lra.
  assert (HLne : L <> 0) by lra.
  rewrite (Vec3_normalize_nonzero M HLne). fold L.
  assert (HMB : Vec3.dot M B = r * r).
  { transitivity (Vec3.lengthSq B + c * Vec3.dot B u).
    - unfold M, Vec3.dot, Vec3.lengthSq, Vec3.add, Vec3.multiplyScalar.
      simpl. ring.
    - rewrite HB, Hdot. ring. }
  apply distanceTo_le; [exact Hc|].
  set (k := 1 / L).
  assert (Hk : k * L = 1) by (unfold k; field; exact HLne).
  transitivity ((k * r) * (k * r) * Vec3.lengthSq M
                - 2 * (k * r) * Vec3.dot M B + Vec3.lengthSq B).
  { right. unfold Vec3.lengthSq, Vec3.dot, Vec3.multiplyScalar.
    cbn [vx vy vz]. ring. }
  rewrite HMB, HB, <- HL.
  replace (k * r * (k * r) * (L * L)) with ((k * L) * (k * L) * (r * r))
    by ring.
  rewrite Hk.
  assert (Hgoal : (2 * (r * r) - 2 * k * r * (r * r)) * L <= c * c * L).
  { replace ((2 * (r * r) - 2 * k * r * (r * r)) * L)
      with (2 * (r * r) * L - 2 * (k * L) * r * (r * r)) by ring.
    rewrite Hk.
    assert (Hfac : 0 <= (L - r) * (L - r) * (L + 2 * r)).
    { apply Rmult_le_pos; [nra|lra]. }
    assert (Hc2L : (L * L - r * r) * L <= c * c * L).
    { apply Rmult_le_compat_r; [lra|]. rewrite HL, HM. lra. }
    nra. }
  apply Rmult_le_reg_r with L; [exact HLpos|].
  replace ((1 * 1 * (r * r) - 2 * (k * r) * (r * r) + r * r) * L)
    with ((2 * (r * r) - 2 * k * r * (r * r)) * L) by ring.
  exact Hgoal.
Qed.

(** X25.  A particle never strays far from the curve of its link: the
    position computed with an offset is on the sphere and at most a tenth
    of the offset's length away from the point of the curve at the same
    progress.  An offset drawn by [createRandomOffset(maxOffset)] from
    random numbers in [[0, 1)] is at most [sqrt 3 / 2 * |maxOffset|] long,
    so with the source's [maxOffset] of 0.5 the distance is below 0.044. *)
Theorem particle_stays_near_curve
    (random : TrafficFlow.RandomSource) (calls : nat) (maxOffset : R)
    (start end_ : Vector3) (t radius : R) :
  (forall k : nat, 0 <= random k < 1) ->
  0 < radius ->
  let curve := NetworkTopology.getGreatCirclePoint start end_ t radius in
  (forall offset : Vector3,
     Vec3.distanceTo
       (TrafficFlow.getGreatCirclePoint start end_ t radius (Some offset))
       curve
     <= Vec3.length offset * (1 / 10))
  /\ Vec3.length (fst (TrafficFlow.createRandomOffset random calls maxOffset))
     <= sqrt 3 / 2 * Rabs maxOffset
  /\ Vec3.distanceTo
       (TrafficFlow.getGreatCirclePoint start end_ t radius
          (Some (fst (TrafficFlow.createRandomOffset random calls maxOffset))))
       curve
     <= sqrt 3 / 20 * Rabs maxOffset.
Proof.
  intros Hrand Hr curve.
  assert (Hnear : forall offset : Vector3,
             Vec3.distanceTo
               (TrafficFlow.getGreatCirclePoint start end_ t radius
                  (Some offset)) curve
             <= Vec3.length offset * (1 / 10)).
  { intros offset.
    unfold TrafficFlow.getGreatCirclePoint, curve,
      NetworkTopology.getGreatCirclePoint. cbv zeta.
    apply renormalized_shift_bound.
    - exact Hr.
    - apply slerp_point_lengthSq.
    - apply crossVectors_normalize_orthogonal.
    - apply Vec3_normalize_lengthSq_le.
    - pose proof (Vec3_length_nonneg offset). lra. }
  assert (Hlen : Vec3.length
                   (fst (TrafficFlow.createRandomOffset random calls maxOffset))
                 <= sqrt 3 / 2 * Rabs maxOffset).
  { unfold TrafficFlow.createRandomOffset. cbn [fst].
    unfold Vec3.length. cbn [vx vy vz].
    set (a := random calls - 1 / 2).
    set (b := random (S calls) - 1 / 2).
    set (c := random (S (S calls)) - 1 / 2).
    assert (Ha : a * a <= 1 / 4)
      by (unfold a; destruct (Hrand calls); nra).
    assert (Hb : b * b <= 1 / 4)
      by (unfold b; destruct (Hrand (S calls)); nra).
    assert (Hc : c * c <= 1 / 4)
      by (unfold c; destruct (Hrand (S (S calls))); nra).
    clearbody a b c.
    assert (Hs3 : 0 <= sqrt 3) by apply sqrt_pos.
    assert (Hs33 : sqrt 3 * sqrt 3 = 3) by (apply sqrt_sqrt; lra).
    pose proof (Rabs_pos maxOffset) as Hm.
    assert (Hmm : Rabs maxOffset * Rabs maxOffset = maxOffset * maxOffset).
    { unfold Rabs. destruct (Rcase_abs maxOffset); ring. }
    rewrite <- (sqrt_square (sqrt 3 / 2 * Rabs maxOffset))
      by (apply Rmult_le_pos; lra).
    apply sqrt_le_1_alt.
    replace (sqrt 3 / 2 * Rabs maxOffset * (sqrt 3 / 2 * Rabs maxOffset))
      with ((sqrt 3 * sqrt 3) / 4 * (Rabs maxOffset * Rabs maxOffset))
      by field.
    rewrite Hs33, Hmm.
    assert (0 <= maxOffset * maxOffset) by nra.
    replace (a * maxOffset * (a * maxOffset) + b * maxOffset * (b * maxOffset)
             + c * maxOffset * (c * maxOffset))
      with ((a * a + b * b + c * c) * (maxOffset * maxOffset)) by ring.
    replace (3 / 4 * (maxOffset * maxOffset))
      with ((3 / 4) * (maxOffset * maxOffset)) by ring.
    apply Rmult_le_compat_r; lra. }
  split; [exact Hnear|]. split; [exact Hlen|].
  eapply Rle_trans; [apply Hnear|]. lra.
Qed.

(** X25, for a constant random source. *)
Lemma particle_stays_near_curve_witness :
  (forall k : nat, 0 <= (fun _ : nat => 1 / 4) k < 1)
  /\ Vec3.length
       (fst (TrafficFlow.createRandomOffset (fun _ => 1 / 4) 0 (1 / 2)))
     <= sqrt 3 / 2 * Rabs (1 / 2).
Proof.
  assert (H : forall k : nat, 0 <= (fun _ : nat => 1 / 4) k < 1)
    by (intros k; simpl; lra).
  split; [exact H|].
  exact (proj1 (proj2 (particle_stays_near_curve (fun _ => 1 / 4) 0 (1 / 2)
                         (mkVector3 1 0 0) (mkVector3 0 0 1) (1 / 2) 1
                         H ltac:(lra)))).
Defined.
